(** * testgen: the change-aware function-extraction pipeline

    A shallow embedding of the Go sources of Eranmonnie/testgen:

    - [internal/git/diff.go]       the unified-diff parser and the
                                   function-change extractor;
    - [internal/parser/ast.go]     the syntax analyzer over [go/ast];
    - [internal/analyzer]          the reconciler / target builder;
    - [internal/config]            the filtering rules of the configuration.

    Go strings are byte sequences and are modelled as [list ascii].  Go's [int]
    is modelled by [Z]; every integer below is a length, an index or a count of
    syntax nodes of an in-memory value, far below [2^63], so no wrap-around is
    written.  Run-time faults of Go (slice bounds, index out of range, a write
    to a nil map) are explicit: fallible code lives in the [result] monad. *)

From Stdlib Require Import String Ascii ZArith Lia Bool Arith DecimalString List.
Import ListNotations.
Local Open Scope Z_scope.

(* ================================================================== *)
(** ** The Go runtime fragment the sources rely on *)
(* ================================================================== *)

Module Go.

(** A Go string: a sequence of bytes. *)
Definition gostring : Type := list ascii.

(** A string literal of the source text. *)
Definition str (s : string) : gostring := list_ascii_of_string s.

(** The byte with the given code. *)
Definition byte (n : nat) : ascii := ascii_of_nat n.

Definition code (c : ascii) : Z := Z.of_nat (nat_of_ascii c).

(** [a == b] on strings. *)
Fixpoint streq (a b : gostring) : bool :=
  match a, b with
  | [], [] => true
  | x :: a', y :: b' => Ascii.eqb x y && streq a' b'
  | _, _ => false
  end.

(** [len(s)]. *)
Definition len {A : Type} (s : list A) : Z := Z.of_nat (length s).

(** The outcome of running a piece of Go code: it returns a value or the
    goroutine panics. *)
Inductive result (A : Type) : Type :=
| Ok (a : A)
| Panic (msg : string).
Arguments Ok {A} a.
Arguments Panic {A} msg.

Definition bind {A B : Type} (r : result A) (k : A -> result B) : result B :=
  match r with
  | Ok a => k a
  | Panic m => Panic m
  end.

(** Go's [a && b] and [a || b]: the right operand is evaluated (and may
    panic) only when the left one does not decide the result. *)
Definition andThen (a b : result bool) : result bool :=
  bind a (fun x => if x then b else Ok false).

Definition orElse (a b : result bool) : result bool :=
  bind a (fun x => if x then Ok true else b).

(** A loop over a slice whose body may panic. *)
Fixpoint foldM {A S : Type} (body : S -> A -> result S) (s : S) (l : list A)
  : result S :=
  match l with
  | [] => Ok s
  | x :: l' => bind (body s x) (fun s' => foldM body s' l')
  end.

Definition bounds_msg : string := "runtime error: slice bounds out of range".
Definition index_msg : string := "runtime error: index out of range".
Definition nilmap_msg : string := "assignment to entry in nil map".
Definition nilptr_msg : string :=
  "runtime error: invalid memory address or nil pointer dereference".

(** [s[i]] *)
Definition index_at {A : Type} (s : list A) (i : Z) : result A :=
  if (0 <=? i) && (i <? len s)
  then match nth_error s (Z.to_nat i) with
       | Some c => Ok c
       | None => Panic index_msg
       end
  else Panic index_msg.

(** [s[:hi]] *)
Definition slice_to {A : Type} (s : list A) (hi : Z) : result (list A) :=
  if (0 <=? hi) && (hi <=? len s)
  then Ok (firstn (Z.to_nat hi) s)
  else Panic bounds_msg.

(** [s[lo:]] *)
Definition slice_from {A : Type} (s : list A) (lo : Z) : result (list A) :=
  if (0 <=? lo) && (lo <=? len s)
  then Ok (skipn (Z.to_nat lo) s)
  else Panic bounds_msg.

(** A Go [map[string]V].  [None] is the nil map: reading it is allowed,
    assigning to it panics.  A made map is an association list, newest
    binding first. *)
Definition gomap (V : Type) : Type := option (list (gostring * V)).

Definition make_map {V : Type} : gomap V := Some [].

Definition map_assign {V : Type} (m : gomap V) (k : gostring) (v : V)
  : result (gomap V) :=
  match m with
  | None => Panic nilmap_msg
  | Some l => Ok (Some ((k, v) :: filter (fun kv => negb (streq (fst kv) k)) l))
  end.

Definition map_lookup {V : Type} (m : gomap V) (k : gostring) : option V :=
  match m with
  | None => None
  | Some l => option_map snd (find (fun kv => streq (fst kv) k) l)
  end.

(** The error value of a Go function: [None] is [nil]. *)
Definition error : Type := option gostring.

End Go.

Import Go.

Declare Scope go_scope.
Delimit Scope go_scope with go.
Notation "x <- c1 ;; c2" := (bind c1 (fun x => c2))
  (at level 61, c1 at next level, right associativity) : go_scope.
Notation "a &&& b" := (andThen a b) (at level 40, left associativity) : go_scope.
Notation "a ||| b" := (orElse a b) (at level 50, left associativity) : go_scope.
Local Open Scope go_scope.

(* ================================================================== *)
(** ** Package [strings] of the Go standard library *)
(* ================================================================== *)

Module strings.

Fixpoint HasPrefix (s prefix : gostring) {struct prefix} : bool :=
  match prefix, s with
  | [], _ => true
  | p :: prefix', c :: s' => Ascii.eqb c p && HasPrefix s' prefix'
  | _ :: _, [] => false
  end.

Definition HasSuffix (s suffix : gostring) : bool :=
  HasPrefix (rev s) (rev suffix).

Definition TrimPrefix (s prefix : gostring) : gostring :=
  if HasPrefix s prefix then skipn (length prefix) s else s.

Definition TrimSuffix (s suffix : gostring) : gostring :=
  if HasSuffix s suffix then firstn (length s - length suffix) s else s.

(** [strings.Index]: the byte index of the first occurrence of [sep], or -1. *)
Fixpoint Index (s sep : gostring) : Z :=
  if HasPrefix s sep then 0
  else match s with
       | [] => -1
       | _ :: s' => let r := Index s' sep in if r <? 0 then -1 else r + 1
       end.

Definition Contains (s substr : gostring) : bool := 0 <=? Index s substr.

(** Repeatedly remove from the front of [s] any of the byte sequences
    [seqs]; [fuel] bounds the number of removals. *)
Fixpoint strip_front (seqs : list gostring) (fuel : nat) (s : gostring)
  : gostring :=
  match fuel with
  | O => s
  | S fuel' =>
      match find (HasPrefix s) seqs with
      | Some e => strip_front seqs fuel' (skipn (length e) s)
      | None => s
      end
  end.

Definition trim_left (seqs : list gostring) (s : gostring) : gostring :=
  strip_front seqs (length s) s.

Definition trim_right (seqs : list gostring) (s : gostring) : gostring :=
  rev (strip_front (map (@rev ascii) seqs) (length s) (rev s)).

(** The UTF-8 encodings of the code points [unicode.IsSpace] accepts:
    the six ASCII ones, U+0085, U+00A0, U+1680, U+2000..U+200A, U+2028,
    U+2029, U+202F, U+205F and U+3000.  Go decodes a rune at each end and
    removes it while it is one of these; UTF-8 being self-synchronising,
    that is the removal of these byte sequences. *)
Definition space_encodings : list gostring :=
  map (map byte)
    [ [9]; [10]; [11]; [12]; [13]; [32];
      [194; 133]; [194; 160]; [225; 154; 128];
      [226; 128; 128]; [226; 128; 129]; [226; 128; 130]; [226; 128; 131];
      [226; 128; 132]; [226; 128; 133]; [226; 128; 134]; [226; 128; 135];
      [226; 128; 136]; [226; 128; 137]; [226; 128; 138];
      [226; 128; 168]; [226; 128; 169]; [226; 128; 175];
      [226; 129; 159]; [227; 128; 128] ]%nat.

Definition TrimSpace (s : gostring) : gostring :=
  trim_right space_encodings (trim_left space_encodings s).

(** [strings.Trim] for a cutset of ASCII bytes (the only use in the
    sources): bytes of the cutset are removed at both ends. *)
Definition Trim (s cutset : gostring) : gostring :=
  let singles := map (fun c => [c]) cutset in
  trim_right singles (trim_left singles s).

(** [strings.ToLower] on the ASCII letters. *)
Definition ToLower (s : gostring) : gostring :=
  map (fun c => if (65 <=? code c) && (code c <=? 90)
                then byte (nat_of_ascii c + 32) else c) s.

(** The loop of [strings.Split]: [s] is cut at the first occurrence of
    [sep], and so is what follows it, until [sep] occurs no more; [fuel]
    bounds the number of cuts. *)
Fixpoint split_at (fuel : nat) (s sep : gostring) : list gostring :=
  match fuel with
  | O => [s]
  | S fuel' =>
      let m := Index s sep in
      if m <? 0 then [s]
      else firstn (Z.to_nat m) s
           :: split_at fuel' (skipn (Z.to_nat m + length sep) s) sep
  end.

(** [strings.Split] for a separator that is not empty (as at every call of
    the sources): every cut removes at least one byte, so [len(s)] cuts are
    enough. *)
Definition Split (s sep : gostring) : list gostring :=
  split_at (length s) s sep.

End strings.

(* ================================================================== *)
(** ** Package [bufio]: the line scanner [parseDiff] reads with *)
(* ================================================================== *)

Module bufio.

(** [bufio.MaxScanTokenSize] *)
Definition MaxScanTokenSize : Z := 64 * 1024.

Definition newline : ascii := byte 10.
Definition carriage_return : ascii := byte 13.

(** The pieces between line feeds; what follows the last line feed is a
    piece only when it is not empty.  [cur] collects the current piece in
    reverse. *)
Fixpoint raw_lines (cur : gostring) (s : gostring) : list gostring :=
  match s with
  | [] => match cur with [] => [] | _ :: _ => [rev cur] end
  | c :: s' =>
      if Ascii.eqb c newline then rev cur :: raw_lines [] s'
      else raw_lines (c :: cur) s'
  end.

(** [dropCR]: a line loses one trailing carriage return. *)
Definition dropCR (l : gostring) : gostring :=
  strings.TrimSuffix l [carriage_return].

(** [Scan] stops (with [ErrTooLong], which [parseDiff] never reads) at the
    first line that does not fit the buffer of [MaxScanTokenSize] bytes. *)
Fixpoint tokens (ls : list gostring) : list gostring :=
  match ls with
  | [] => []
  | l :: ls' => if len l <? MaxScanTokenSize then dropCR l :: tokens ls' else []
  end.

(** The successive values of [scanner.Text()] over [text]. *)
Definition ScanLines (text : gostring) : list gostring :=
  tokens (raw_lines [] text).

End bufio.

(* ================================================================== *)
(** ** Package [git]: internal/git/diff.go *)
(* ================================================================== *)

Module git.

Inductive ChangeType : Type := Added | Removed | Modified | Context.

Definition ChangeType_eqb (a b : ChangeType) : bool :=
  match a, b with
  | Added, Added | Removed, Removed | Modified, Modified | Context, Context => true
  | _, _ => false
  end.

(** [DiffChange]: a single change in a diff. *)
Record DiffChange : Type := mkDiffChange
  { Type_ : ChangeType
  ; Line : gostring
  ; LineNum : Z
  ; Function : gostring }.

(** [FileDiff]: all changes in a single file. *)
Record FileDiff : Type := mkFileDiff
  { OldPath : gostring
  ; NewPath : gostring
  ; Changes : list DiffChange
  ; Functions : list gostring }.

Record DiffResult : Type := mkDiffResult
  { Files : list FileDiff }.

(** [fd.addFunctionIfModified(functionName)] *)
Definition addFunctionIfModified (fd : FileDiff) (functionName : gostring)
  : FileDiff :=
  if streq functionName [] then fd
  else if existsb (fun existing => streq existing functionName) (Functions fd)
       then fd
       else mkFileDiff (OldPath fd) (NewPath fd) (Changes fd)
                       (Functions fd ++ [functionName]).

(** The cutset of the last step of [extractFunctionName]: a space, a tab
    and the bytes of "*&[]". *)
Definition cutset : gostring := str " " ++ [byte 9] ++ str "*&[]".

(** [extractFunctionName]: the function name of a declaration line or of a
    hunk context. *)
Definition extractFunctionName (line : gostring) : result gostring :=
  let line := strings.TrimSpace line in
  line <- (if strings.HasPrefix line (str "+") || strings.HasPrefix line (str "-")
              || strings.HasPrefix line (str " ")
           then rest <- slice_from line 1 ;; Ok (strings.TrimSpace rest)
           else Ok line) ;;
  if negb (strings.HasPrefix line (str "func ")) then Ok []
  else
    let line := strings.TrimPrefix line (str "func ") in
    let line := strings.TrimSpace line in
    line <- (if strings.HasPrefix line (str "(")
             then let closeParen := strings.Index line (str ") ") in
                  if negb (closeParen =? -1)
                  then rest <- slice_from line (closeParen + 2) ;;
                       Ok (strings.TrimSpace rest)
                  else Ok line
             else Ok line) ;;
    let parenIndex := strings.Index line (str "(") in
    if parenIndex =? -1 then Ok []
    else
      before <- slice_to line parenIndex ;;
      let funcName := strings.TrimSpace before in
      let funcName := strings.Trim funcName cutset in
      Ok funcName.

(** [parseDiffLine]: one line of a hunk body; [None] is the nil result. *)
Definition parseDiffLine (line currentFunction : gostring)
  : result (option DiffChange) :=
  if len line =? 0 then Ok None
  else
    c <- index_at line 0 ;;
    if Ascii.eqb c "+"%char then
      rest <- slice_from line 1 ;; Ok (Some (mkDiffChange Added rest 0 currentFunction))
    else if Ascii.eqb c "-"%char then
      rest <- slice_from line 1 ;; Ok (Some (mkDiffChange Removed rest 0 currentFunction))
    else if Ascii.eqb c " "%char then
      rest <- slice_from line 1 ;; Ok (Some (mkDiffChange Context rest 0 currentFunction))
    else Ok None.

(** The longest prefix of decimal digits, and the rest. *)
Definition is_digit (c : ascii) : bool := (48 <=? code c) && (code c <=? 57).

Fixpoint span_digits (s : gostring) : gostring * gostring :=
  match s with
  | c :: s' => if is_digit c
               then let '(d, r) := span_digits s' in (c :: d, r)
               else ([], s)
  | [] => ([], [])
  end.

Definition strip_prefix (p s : gostring) : option gostring :=
  if strings.HasPrefix s p then Some (skipn (length p) s) else None.

(** [s] cut at the last occurrence of [sep]. *)
Fixpoint split_last (sep s : gostring) : option (gostring * gostring) :=
  match s with
  | [] => None
  | c :: s' =>
      match split_last sep s' with
      | Some (a, b) => Some (c :: a, b)
      | None => if strings.HasPrefix s sep then Some ([], skipn (length sep) s)
                else None
      end
  end.

(** [fileHeaderRegex.FindStringSubmatch(line)]: the two groups of the
    pattern, which is the text [diff --git a/], any text (group 1), the text
    [ b/] and any text (group 2), anchored at both ends.  Group 1 is greedy,
    so it ends at the last [ b/] of the line. *)
Definition fileHeaderRegex (line : gostring) : option (gostring * gostring) :=
  match strip_prefix (str "diff --git a/") line with
  | Some rest => split_last (str " b/") rest
  | None => None
  end.

(** One range of a hunk header: one or more digits (a group), an optional
    comma, then digits (a group, maybe empty); both groups and the rest. *)
Definition hunk_range (s : gostring) : option (gostring * gostring * gostring) :=
  let '(d1, r) := span_digits s in
  match d1 with
  | [] => None
  | _ :: _ =>
      match strip_prefix (str ",") r with
      | Some r' => let '(d2, r'') := span_digits r' in Some (d1, d2, r'')
      | None => Some (d1, [], r)
      end
  end.

(** [hunkHeaderRegex.FindStringSubmatch(line)]: the five groups of the
    pattern, which is [@@ -], a range, [ +], a range, [ @@], an optional
    space and any text (group 5), anchored at both ends. *)
Definition hunkHeaderRegex (line : gostring)
  : option (gostring * gostring * gostring * gostring * gostring) :=
  match strip_prefix (str "@@ -") line with
  | None => None
  | Some r =>
      match hunk_range r with
      | None => None
      | Some (g1, g2, r) =>
          match strip_prefix (str " +") r with
          | None => None
          | Some r =>
              match hunk_range r with
              | None => None
              | Some (g3, g4, r) =>
                  match strip_prefix (str " @@") r with
                  | None => None
                  | Some r => Some (g1, g2, g3, g4, strings.TrimPrefix r (str " "))
                  end
              end
          end
      end
  end.

(** The local variables of [parseDiff]'s scan loop; [currentFile = None] is
    the nil pointer. *)
Record ScanState : Type := mkScanState
  { result_Files : list FileDiff
  ; currentFile : option FileDiff
  ; currentFunction : gostring
  ; lineNum : Z }.

Definition initial_state : ScanState := mkScanState [] None [] 0.

(** [result.Files] once the file being read, if any, is appended. *)
Definition close_file (st : ScanState) : list FileDiff :=
  match currentFile st with
  | Some f => result_Files st ++ [f]
  | None => result_Files st
  end.

(** One iteration of the loop [for scanner.Scan()] of [parseDiff]. *)
Definition scan_line (st : ScanState) (line : gostring) : result ScanState :=
  match fileHeaderRegex line with
  | Some (oldPath, newPath) =>
      (* New file diff *)
      Ok (mkScanState (close_file st)
                      (Some (mkFileDiff oldPath newPath [] [])) [] 0)
  | None =>
  match hunkHeaderRegex line with
  | Some (_, _, _, _, funcContext) =>
      (* Hunk header (contains function context) *)
      st' <- (if negb (streq funcContext [])
              then extractedFunc <- extractFunctionName funcContext ;;
                   if negb (streq extractedFunc [])
                   then Ok (mkScanState (result_Files st)
                              (option_map (fun f => addFunctionIfModified f extractedFunc)
                                          (currentFile st))
                              extractedFunc (lineNum st))
                   else Ok st
              else Ok st) ;;
      Ok (mkScanState (result_Files st') (currentFile st') (currentFunction st') 0)
  | None =>
  if strings.HasPrefix line (str "index ") || strings.HasPrefix line (str "--- ")
     || strings.HasPrefix line (str "+++ ")
  then Ok st (* file metadata *)
  else
    match currentFile st with
    | None => Ok st
    | Some f =>
        change <- parseDiffLine line (currentFunction st) ;;
        st' <- match change with
               | None => Ok st
               | Some change =>
                   let change := mkDiffChange (Type_ change) (Line change)
                                              (lineNum st) (Function change) in
                   let f := mkFileDiff (OldPath f) (NewPath f)
                                       (Changes f ++ [change]) (Functions f) in
                   if (ChangeType_eqb (Type_ change) Added
                       || ChangeType_eqb (Type_ change) Context)
                      && strings.Contains (Line change) (str "func ")
                   then funcName <- extractFunctionName (Line change) ;;
                        if negb (streq funcName [])
                        then Ok (mkScanState (result_Files st)
                                   (Some (addFunctionIfModified f funcName))
                                   funcName (lineNum st))
                        else Ok (mkScanState (result_Files st) (Some f)
                                   (currentFunction st) (lineNum st))
                   else Ok (mkScanState (result_Files st) (Some f)
                              (currentFunction st) (lineNum st))
               end ;;
        Ok (mkScanState (result_Files st') (currentFile st')
                        (currentFunction st') (lineNum st' + 1))
    end
  end
  end.

(** [parseDiff]: the pointer to the result ([None] would be nil) and the
    error. *)
Definition parseDiff (diffText : gostring)
  : result (option DiffResult * error) :=
  st <- foldM scan_line initial_state (bufio.ScanLines diffText) ;;
  Ok (Some (mkDiffResult (close_file st)), None).

(** [ParseDiff] is the exported version of [parseDiff]. *)
Definition ParseDiff (diffText : gostring) : result (option DiffResult * error) :=
  parseDiff diffText.

(** The keys of the [map[string]bool] of [GetModifiedFunctions], in the
    order of their first insertion. *)
Definition set_insert (k : gostring) (keys : list gostring) : list gostring :=
  if existsb (streq k) keys then keys else keys ++ [k].

(** [fd.GetModifiedFunctions()].  Go ranges over the map in an unspecified
    order: of the returned slice only the elements are determined, which
    are listed here without repetition. *)
Definition GetModifiedFunctions (fd : FileDiff) : list gostring :=
  fold_left
    (fun functionsWithChanges change =>
       if (ChangeType_eqb (Type_ change) Added
           || ChangeType_eqb (Type_ change) Removed)
          && negb (streq (Function change) [])
       then set_insert (Function change) functionsWithChanges
       else functionsWithChanges)
    (Changes fd) [].

(** The files [FilterGoFiles] keeps. *)
Definition isGoSource (path : gostring) : bool :=
  strings.HasSuffix path (str ".go")
  && negb (strings.HasSuffix path (str "_test.go")).

(** [dr.FilterGoFiles()] *)
Definition FilterGoFiles (dr : DiffResult) : DiffResult :=
  mkDiffResult
    (fold_left (fun filtered file =>
                  if isGoSource (NewPath file) then filtered ++ [file]
                  else filtered)
               (Files dr) []).

(** The first byte of the lines [parseDiffLine] reads a change of each type
    from; it reads none of the type [Modified]. *)
Definition marker (t : ChangeType) : option ascii :=
  match t with
  | Added => Some "+"%char
  | Removed => Some "-"%char
  | Context => Some " "%char
  | Modified => None
  end.

(** [GetChangedFiles(from, to)]: the paths of the changed files.
    [git_diff_name_only from to] is the output of the command
    [git diff --name-only from to], or the text of its error; the slice
    returned is nil where the list is empty. *)
Definition GetChangedFiles
  (git_diff_name_only : gostring -> gostring -> gostring + gostring)
  (from to : gostring) : list gostring * error :=
  match git_diff_name_only from to with
  | inr err => ([], Some (str "failed to get changed files: " ++ err))
  | inl output =>
      let lines := strings.Split (strings.TrimSpace output) [bufio.newline] in
      (fold_left (fun files line =>
                    if negb (streq line []) then files ++ [line] else files)
                 lines [],
       None)
  end.

(** The output of [git diff --name-only] for the paths [names]: one path
    per line. *)
Definition nameLines (names : list gostring) : gostring :=
  concat (map (fun name => name ++ [bufio.newline]) names).

(** The same paths joined by line feeds, with none after the last. *)
Fixpoint joined (names : list gostring) : gostring :=
  match names with
  | [] => []
  | name :: rest =>
      match rest with
      | [] => name
      | _ :: _ => name ++ bufio.newline :: joined rest
      end
  end.

(** A path as [git] prints it on a line of its own: not empty and without
    a line feed. *)
Definition isPath (name : gostring) : bool :=
  negb (streq name []) && negb (existsb (Ascii.eqb bufio.newline) name).

(** Every change of the file is tagged with no function or with a function
    of the file's seen-list. *)
Definition tagsSeen (f : FileDiff) : Prop :=
  forall c, In c (Changes f) -> Function c = [] \/ In (Function c) (Functions f).

(** The invariant of the scan loop of [parseDiff]. *)
Definition scanInvariant (st : ScanState) : Prop :=
  Forall tagsSeen (result_Files st)
  /\ match currentFile st with
     | Some f => tagsSeen f
                 /\ (currentFunction st = [] \/ In (currentFunction st) (Functions f))
     | None => True
     end.

(** A line that is no file header, no hunk header, no metadata and starts
    with none of the three change markers. *)
Definition unrecognized (line : gostring) : Prop :=
  fileHeaderRegex line = None
  /\ hunkHeaderRegex line = None
  /\ (strings.HasPrefix line (str "index ") || strings.HasPrefix line (str "--- ")
      || strings.HasPrefix line (str "+++ ")) = false
  /\ match line with
     | [] => True
     | c :: _ => c <> "+"%char /\ c <> "-"%char /\ c <> " "%char
     end.

(** The state after a line the loop passes over: only the line counter
    moves, and only inside a file. *)
Definition skipLine (st : ScanState) : ScanState :=
  mkScanState (result_Files st) (currentFile st) (currentFunction st)
              (match currentFile st with
               | Some _ => lineNum st + 1
               | None => lineNum st
               end).

End git.

(* ================================================================== *)
(** ** Package [go/ast]: the syntax trees the analyzer walks *)
(* ================================================================== *)

Module ast.

(** Positions are kept as the line numbers [fset.Position] resolves them to;
    operator tokens, parentheses positions and comment nodes (which neither
    visitor of the sources looks at) are left out. *)

Inductive ChanDir : Type := SEND | RECV | SEND_RECV.

(** [GenDecl.Tok] *)
Inductive Token : Type := IMPORT | CONST | TYPE | VAR.

Record ImportSpecT : Type := mkImportSpec
  { imp_Name : option gostring      (* local package name, or nil *)
  ; imp_Path : gostring }.          (* Path.Value, quotes included *)

(** Lines of a function declaration and of its body. *)
Record Lines : Type := mkLines
  { Pos_Line : Z
  ; End_Line : Z
  ; Body_Pos_Line : Z
  ; Body_End_Line : Z }.

#[warnings="-register-all"]
Inductive Expr : Type :=
| BadExpr
| Ident (Name : gostring)
| Ellipsis (Elt : option Expr)
| BasicLit (Value : gostring)
| FuncLit (Type_ : FuncTypeT) (Body : list Stmt)
| CompositeLit (Type_ : option Expr) (Elts : list Expr)
| ParenExpr (X : Expr)
| SelectorExpr (X : Expr) (Sel : gostring)
| IndexExpr (X Index : Expr)
| IndexListExpr (X : Expr) (Indices : list Expr)
| SliceExpr (X : Expr) (Low High Max : option Expr)
| TypeAssertExpr (X : Expr) (Type_ : option Expr)
| CallExpr (Fun : Expr) (Args : list Expr)
| StarExpr (X : Expr)
| UnaryExpr (X : Expr)
| BinaryExpr (X Y : Expr)
| KeyValueExpr (Key Value : Expr)
| ArrayType (Len : option Expr) (Elt : Expr)
| StructType (Fields : list Field)
| FuncType (Type_ : FuncTypeT)
| InterfaceType (Methods : list Field)
| MapType (Key Value : Expr)
| ChanType (Dir : ChanDir) (Value : Expr)

with FuncTypeT : Type :=
| mkFuncType (TypeParams Params Results : option (list Field))

with Field : Type :=
| mkField (Names : list gostring) (Type_ : Expr) (Tag : option gostring)

with Stmt : Type :=
| BadStmt
| DeclStmt (Decl_ : Decl)
| EmptyStmt
| LabeledStmt (Label : gostring) (Stmt_ : Stmt)
| ExprStmt (X : Expr)
| SendStmt (Chan Value : Expr)
| IncDecStmt (X : Expr)
| AssignStmt (Lhs Rhs : list Expr)
| GoStmt (Fun : Expr) (Args : list Expr)        (* Call *CallExpr *)
| DeferStmt (Fun : Expr) (Args : list Expr)     (* Call *CallExpr *)
| ReturnStmt (Results : list Expr)
| BranchStmt (Label : option gostring)
| BlockStmt (List_ : list Stmt)
| IfStmt (Init : option Stmt) (Cond : Expr) (Body : list Stmt) (Else : option Stmt)
| CaseClause (List_ : list Expr) (Body : list Stmt)
| SwitchStmt (Init : option Stmt) (Tag : option Expr) (Body : list Stmt)
| TypeSwitchStmt (Init : option Stmt) (Assign : Stmt) (Body : list Stmt)
| CommClause (Comm : option Stmt) (Body : list Stmt)
| SelectStmt (Body : list Stmt)
| ForStmt (Init : option Stmt) (Cond : option Expr) (Post : option Stmt)
          (Body : list Stmt)
| RangeStmt (Key Value : option Expr) (X : Expr) (Body : list Stmt)

with Spec : Type :=
| ImportSpec (s : ImportSpecT)
| ValueSpec (Names : list gostring) (Type_ : option Expr) (Values : list Expr)
| TypeSpec (Name : gostring) (TypeParams : option (list Field)) (Type_ : Expr)

with Decl : Type :=
| BadDecl
| GenDecl (Tok : Token) (Specs : list Spec)
| FuncDecl (d : FuncDeclT)

with FuncDeclT : Type :=
| mkFuncDecl (Doc : option (list gostring))      (* the texts of Doc.List *)
             (Recv : option (list Field))
             (Name : gostring)
             (Type_ : FuncTypeT)
             (Body : option (list Stmt))
             (lines : Lines).

Definition fd_Doc (d : FuncDeclT) := let 'mkFuncDecl x _ _ _ _ _ := d in x.
Definition fd_Recv (d : FuncDeclT) := let 'mkFuncDecl _ x _ _ _ _ := d in x.
Definition fd_Name (d : FuncDeclT) := let 'mkFuncDecl _ _ x _ _ _ := d in x.
Definition fd_Type (d : FuncDeclT) := let 'mkFuncDecl _ _ _ x _ _ := d in x.
Definition fd_Body (d : FuncDeclT) := let 'mkFuncDecl _ _ _ _ x _ := d in x.
Definition fd_lines (d : FuncDeclT) := let 'mkFuncDecl _ _ _ _ _ x := d in x.

Definition ft_Params (t : FuncTypeT) := let 'mkFuncType _ x _ := t in x.
Definition ft_Results (t : FuncTypeT) := let 'mkFuncType _ _ x := t in x.

Definition field_Names (f : Field) := let 'mkField x _ _ := f in x.
Definition field_Type (f : Field) := let 'mkField _ x _ := f in x.

(** [ast.File] *)
Record File : Type := mkFile
  { file_Name : gostring              (* Name.Name: the package name *)
  ; file_Decls : list Decl
  ; file_Imports : list ImportSpecT }.

(** [ast.Node]: what a visitor is handed. *)
Inductive Node : Type :=
| NExpr (e : Expr)
| NStmt (s : Stmt)
| NSpec (s : Spec)
| NDecl (d : Decl)
| NField (f : Field)
| NFieldList (l : list Field)
| NFile (f : File).

Definition opt {A : Type} (walk : A -> list Node) (o : option A) : list Node :=
  match o with
  | Some x => walk x
  | None => []
  end.

Definition ident (name : gostring) : list Node := [NExpr (Ident name)].

Definition fieldList (walk : Field -> list Node) (l : list Field) : list Node :=
  NFieldList l :: flat_map walk l.

Definition block (walk : Stmt -> list Node) (l : list Stmt) : list Node :=
  NStmt (BlockStmt l) :: flat_map walk l.

(** The nodes [ast.Walk] visits from a node, in the order it visits them
    (depth first, a node before its children). *)
Fixpoint walkExpr (e : Expr) : list Node :=
  match e with
  | FuncType t => walkFuncType t
  | _ =>
    NExpr e ::
    match e with
    | BadExpr | Ident _ | BasicLit _ | FuncType _ => []
    | Ellipsis elt => opt walkExpr elt
    | FuncLit t body => walkFuncType t ++ block walkStmt body
    | CompositeLit t elts => opt walkExpr t ++ flat_map walkExpr elts
    | ParenExpr x => walkExpr x
    | SelectorExpr x sel => walkExpr x ++ ident sel
    | IndexExpr x i => walkExpr x ++ walkExpr i
    | IndexListExpr x l => walkExpr x ++ flat_map walkExpr l
    | SliceExpr x lo hi mx =>
        walkExpr x ++ opt walkExpr lo ++ opt walkExpr hi ++ opt walkExpr mx
    | TypeAssertExpr x t => walkExpr x ++ opt walkExpr t
    | CallExpr f args => walkExpr f ++ flat_map walkExpr args
    | StarExpr x => walkExpr x
    | UnaryExpr x => walkExpr x
    | BinaryExpr x y => walkExpr x ++ walkExpr y
    | KeyValueExpr k v => walkExpr k ++ walkExpr v
    | ArrayType l elt => opt walkExpr l ++ walkExpr elt
    | StructType fields => fieldList walkField fields
    | InterfaceType methods => fieldList walkField methods
    | MapType k v => walkExpr k ++ walkExpr v
    | ChanType _ v => walkExpr v
    end
  end

with walkFuncType (t : FuncTypeT) : list Node :=
  NExpr (FuncType t) ::
  match t with
  | mkFuncType tparams params results =>
      opt (fieldList walkField) tparams ++ opt (fieldList walkField) params
      ++ opt (fieldList walkField) results
  end

with walkField (f : Field) : list Node :=
  NField f ::
  match f with
  | mkField names t tag =>
      flat_map ident names ++ walkExpr t
      ++ opt (fun v => [NExpr (BasicLit v)]) tag
  end

with walkStmt (s : Stmt) : list Node :=
  NStmt s ::
  match s with
  | BadStmt | EmptyStmt => []
  | DeclStmt d => walkDecl d
  | LabeledStmt label s' => ident label ++ walkStmt s'
  | ExprStmt x => walkExpr x
  | SendStmt c v => walkExpr c ++ walkExpr v
  | IncDecStmt x => walkExpr x
  | AssignStmt lhs rhs => flat_map walkExpr lhs ++ flat_map walkExpr rhs
  | GoStmt f args => NExpr (CallExpr f args) :: walkExpr f ++ flat_map walkExpr args
  | DeferStmt f args => NExpr (CallExpr f args) :: walkExpr f ++ flat_map walkExpr args
  | ReturnStmt results => flat_map walkExpr results
  | BranchStmt label => opt ident label
  | BlockStmt l => flat_map walkStmt l
  | IfStmt init cond body els =>
      opt walkStmt init ++ walkExpr cond ++ block walkStmt body ++ opt walkStmt els
  | CaseClause l body => flat_map walkExpr l ++ flat_map walkStmt body
  | SwitchStmt init tag body =>
      opt walkStmt init ++ opt walkExpr tag ++ block walkStmt body
  | TypeSwitchStmt init assign body =>
      opt walkStmt init ++ walkStmt assign ++ block walkStmt body
  | CommClause comm body => opt walkStmt comm ++ flat_map walkStmt body
  | SelectStmt body => block walkStmt body
  | ForStmt init cond post body =>
      opt walkStmt init ++ opt walkExpr cond ++ opt walkStmt post
      ++ block walkStmt body
  | RangeStmt k v x body =>
      opt walkExpr k ++ opt walkExpr v ++ walkExpr x ++ block walkStmt body
  end

with walkSpec (s : Spec) : list Node :=
  NSpec s ::
  match s with
  | ImportSpec i => opt ident (imp_Name i) ++ [NExpr (BasicLit (imp_Path i))]
  | ValueSpec names t values =>
      flat_map ident names ++ opt walkExpr t ++ flat_map walkExpr values
  | TypeSpec name tparams t =>
      ident name ++ opt (fieldList walkField) tparams ++ walkExpr t
  end

with walkDecl (d : Decl) : list Node :=
  NDecl d ::
  match d with
  | BadDecl => []
  | GenDecl _ specs => flat_map walkSpec specs
  | FuncDecl fd => walkFuncDecl fd
  end

with walkFuncDecl (fd : FuncDeclT) : list Node :=
  match fd with
  | mkFuncDecl _ recv name t body _ =>
      opt (fieldList walkField) recv ++ ident name ++ walkFuncType t
      ++ opt (block walkStmt) body
  end.

Definition Walk (n : Node) : list Node :=
  match n with
  | NExpr e => walkExpr e
  | NStmt s => walkStmt s
  | NSpec s => walkSpec s
  | NDecl d => walkDecl d
  | NField f => walkField f
  | NFieldList l => fieldList walkField l
  | NFile f => NFile f :: ident (file_Name f) ++ flat_map walkDecl (file_Decls f)
  end.

(** [ast.Inspect(node, f)] for a visitor [f] that always returns true, as
    both visitors of the sources do, run in state [s]: [f] sees every node
    of [Walk node] in turn.  (The closing call [f(nil)] after the children
    of a node reaches no case of either visitor.) *)
Definition Inspect {S : Type} (node : Node) (f : S -> Node -> S) (s : S) : S :=
  fold_left f (Walk node) s.

End ast.

(* ================================================================== *)
(** ** What the program asks of its environment *)
(* ================================================================== *)

(** The collaborators outside the repository: the Go parser reading a file
    ([go/parser.ParseFile], a syntax tree or the text of the error), the
    two path functions of [path/filepath] used for the package name, and
    the output of [git diff --function-context from to] (or its error). *)
Record Host : Type := mkHost
  { go_parser_ParseFile : gostring -> ast.File + gostring
  ; filepath_Base : gostring -> gostring
  ; filepath_Dir : gostring -> gostring
  ; git_diff : gostring -> gostring -> gostring + gostring }.

(** [fmt.Sprintf] of [%d]. *)
Definition itoa (n : Z) : gostring :=
  str (DecimalString.NilZero.string_of_int (Z.to_int n)).

(* ================================================================== *)
(** ** Package [parser]: internal/parser/ast.go *)
(* ================================================================== *)

Module parser.
Import ast.

Module ImportInfo.
Record t : Type := mk
  { Name : gostring
  ; Path : gostring }.
End ImportInfo.

Module TypeInfo.
Record t : Type := mk
  { Name : gostring
  ; Kind : gostring
  ; Fields : list gostring }.
End TypeInfo.

Module ParameterInfo.
Record t : Type := mk
  { Name : gostring
  ; Type_ : gostring }.
End ParameterInfo.

Module ReturnInfo.
Record t : Type := mk
  { Name : gostring
  ; Type_ : gostring }.
End ReturnInfo.

Module ReceiverInfo.
Record t : Type := mk
  { Name : gostring
  ; Type_ : gostring }.
End ReceiverInfo.

Module ComplexityInfo.
Record t : Type := mk
  { HasErrors : bool
  ; HasPointers : bool
  ; HasInterfaces : bool
  ; HasChannels : bool
  ; HasGoroutines : bool
  ; HasDefers : bool
  ; HasPanic : bool
  ; Dependencies : list gostring
  ; CyclomaticComplexity : Z
  ; ControlFlowCount : Z }.

(** The zero value [ComplexityInfo{}]. *)
Definition zero : t := mk false false false false false false false [] 0 0.

Definition setHasErrors (c : t) : t :=
  mk true (HasPointers c) (HasInterfaces c) (HasChannels c) (HasGoroutines c)
     (HasDefers c) (HasPanic c) (Dependencies c) (CyclomaticComplexity c)
     (ControlFlowCount c).
Definition setHasPointers (c : t) : t :=
  mk (HasErrors c) true (HasInterfaces c) (HasChannels c) (HasGoroutines c)
     (HasDefers c) (HasPanic c) (Dependencies c) (CyclomaticComplexity c)
     (ControlFlowCount c).
Definition setHasInterfaces (c : t) : t :=
  mk (HasErrors c) (HasPointers c) true (HasChannels c) (HasGoroutines c)
     (HasDefers c) (HasPanic c) (Dependencies c) (CyclomaticComplexity c)
     (ControlFlowCount c).
Definition setHasChannels (c : t) : t :=
  mk (HasErrors c) (HasPointers c) (HasInterfaces c) true (HasGoroutines c)
     (HasDefers c) (HasPanic c) (Dependencies c) (CyclomaticComplexity c)
     (ControlFlowCount c).
Definition setHasGoroutines (c : t) : t :=
  mk (HasErrors c) (HasPointers c) (HasInterfaces c) (HasChannels c) true
     (HasDefers c) (HasPanic c) (Dependencies c) (CyclomaticComplexity c)
     (ControlFlowCount c).
Definition setHasDefers (c : t) : t :=
  mk (HasErrors c) (HasPointers c) (HasInterfaces c) (HasChannels c)
     (HasGoroutines c) true (HasPanic c) (Dependencies c)
     (CyclomaticComplexity c) (ControlFlowCount c).
Definition setHasPanic (c : t) : t :=
  mk (HasErrors c) (HasPointers c) (HasInterfaces c) (HasChannels c)
     (HasGoroutines c) (HasDefers c) true (Dependencies c)
     (CyclomaticComplexity c) (ControlFlowCount c).
Definition setCyclomaticComplexity (c : t) (n : Z) : t :=
  mk (HasErrors c) (HasPointers c) (HasInterfaces c) (HasChannels c)
     (HasGoroutines c) (HasDefers c) (HasPanic c) (Dependencies c) n
     (ControlFlowCount c).
Definition incControlFlowCount (c : t) : t :=
  mk (HasErrors c) (HasPointers c) (HasInterfaces c) (HasChannels c)
     (HasGoroutines c) (HasDefers c) (HasPanic c) (Dependencies c)
     (CyclomaticComplexity c) (ControlFlowCount c + 1).
End ComplexityInfo.

Module FunctionInfo.
Record t : Type := mk
  { Name : gostring
  ; Package : gostring
  ; File : gostring
  ; StartLine : Z
  ; EndLine : Z
  ; Signature : gostring
  ; Parameters : list ParameterInfo.t
  ; Returns : list ReturnInfo.t
  ; IsMethod : bool
  ; Receiver : option ReceiverInfo.t      (* nil or a pointer *)
  ; Comments : list gostring
  ; Complexity : ComplexityInfo.t
  ; Body : gostring }.
End FunctionInfo.

Module FileAnalysis.
Record t : Type := mk
  { PackageName : gostring
  ; Imports : list ImportInfo.t
  ; Functions : list FunctionInfo.t
  ; Constants : gomap gostring
  ; Variables : gomap gostring
  ; Types : list TypeInfo.t }.
End FileAnalysis.

(** [extractTypeString]: an [ast.Expr] as a string. *)
Fixpoint extractTypeString (expr : Expr) : gostring :=
  match expr with
  | Ident name => name
  | StarExpr x => str "*" ++ extractTypeString x
  | ArrayType None elt => str "[]" ++ extractTypeString elt
  | ArrayType (Some _) elt => str "[...]" ++ extractTypeString elt
  | MapType k v =>
      str "map[" ++ extractTypeString k ++ str "]" ++ extractTypeString v
  | ChanType SEND v => str "chan<- " ++ extractTypeString v
  | ChanType RECV v => str "<-chan " ++ extractTypeString v
  | ChanType SEND_RECV v => str "chan " ++ extractTypeString v
  | InterfaceType _ => str "interface{}"
  | StructType _ => str "struct{}"
  | FuncType _ => str "func(...)"
  | SelectorExpr x sel => extractTypeString x ++ str "." ++ sel
  | _ => str "unknown"
  end.

(** The visitor of [analyzeComplexity]. *)
Definition complexityVisitor (complexity : ComplexityInfo.t) (n : Node)
  : ComplexityInfo.t :=
  match n with
  | NExpr (CallExpr f _) =>
      let complexity :=
        match f with
        | Ident name =>
            if streq name (str "panic") then ComplexityInfo.setHasPanic complexity
            else complexity
        | _ => complexity
        end in
      match f with
      | SelectorExpr _ sel =>
          if streq sel (str "Error") then ComplexityInfo.setHasErrors complexity
          else complexity
      | _ => complexity
      end
  | NStmt (DeferStmt _ _) => ComplexityInfo.setHasDefers complexity
  | NStmt (GoStmt _ _) => ComplexityInfo.setHasGoroutines complexity
  | NStmt (IfStmt _ _ _ _) | NStmt (ForStmt _ _ _ _) | NStmt (RangeStmt _ _ _ _)
  | NStmt (SwitchStmt _ _ _) | NStmt (TypeSwitchStmt _ _ _)
  | NStmt (SelectStmt _) => ComplexityInfo.incControlFlowCount complexity
  | NExpr (StarExpr _) => ComplexityInfo.setHasPointers complexity
  | NExpr (ChanType _ _) => ComplexityInfo.setHasChannels complexity
  | NExpr (InterfaceType _) => ComplexityInfo.setHasInterfaces complexity
  | NExpr (Ident name) =>
      if streq name (str "error") then ComplexityInfo.setHasErrors complexity
      else complexity
  | _ => complexity
  end.

(** [analyzeComplexity(body)] *)
Definition analyzeComplexity (body : list Stmt) : ComplexityInfo.t :=
  let complexity :=
    Inspect (NStmt (BlockStmt body)) complexityVisitor ComplexityInfo.zero in
  ComplexityInfo.setCyclomaticComplexity complexity
    (ComplexityInfo.ControlFlowCount complexity + 1).

(** The two loops of [buildSignatureString] over parameters and returns. *)
Fixpoint writeList (items : list (gostring * gostring)) (first : bool)
  : gostring :=
  match items with
  | [] => []
  | (name, type) :: rest =>
      (if first then [] else str ", ")
      ++ (if negb (streq name []) then name ++ str " " else [])
      ++ type ++ writeList rest false
  end.

(** "Add receiver if it's a method" of [buildSignatureString]. *)
Definition receiverClause (funcInfo : FunctionInfo.t) : gostring :=
  match FunctionInfo.IsMethod funcInfo, FunctionInfo.Receiver funcInfo with
  | true, Some receiver =>
      str "("
      ++ (if negb (streq (ReceiverInfo.Name receiver) [])
          then ReceiverInfo.Name receiver ++ str " " else [])
      ++ ReceiverInfo.Type_ receiver ++ str ") "
  | _, _ => []
  end.

(** "Add return types" of [buildSignatureString]. *)
Definition returnsClause (returns : list ReturnInfo.t) : gostring :=
  if 0 <? len returns
  then str " "
       ++ (if 1 <? len returns then str "(" else [])
       ++ writeList (map (fun r => (ReturnInfo.Name r, ReturnInfo.Type_ r))
                         returns) true
       ++ (if 1 <? len returns then str ")" else [])
  else [].

(** [buildSignatureString(funcInfo)] *)
Definition buildSignatureString (funcInfo : FunctionInfo.t) : gostring :=
  str "func "
  ++ receiverClause funcInfo
  ++ FunctionInfo.Name funcInfo ++ str "("
  ++ writeList (map (fun p => (ParameterInfo.Name p, ParameterInfo.Type_ p))
                    (FunctionInfo.Parameters funcInfo)) true
  ++ str ")"
  ++ returnsClause (FunctionInfo.Returns funcInfo).

(** [extractBodyString] *)
Definition extractBodyString (lines : Lines) : gostring :=
  str "// Function body from line " ++ itoa (Body_Pos_Line lines)
  ++ str " to " ++ itoa (Body_End_Line lines).

(** The parameters (or results) of a field list: one entry per name, one
    unnamed entry for a field without names. *)
Definition fieldEntries (fields : option (list Field))
  : list (gostring * gostring) :=
  match fields with
  | None => []
  | Some l =>
      flat_map (fun f =>
                  let typeStr := extractTypeString (field_Type f) in
                  match field_Names f with
                  | [] => [([], typeStr)]
                  | names => map (fun name => (name, typeStr)) names
                  end) l
  end.

(** The walk over the body, when there is one: [funcInfo.Complexity] as
    [analyzeFunctionDecl] has it before it looks at the signature. *)
Definition walkedComplexity (funcDecl : FuncDeclT) : ComplexityInfo.t :=
  match fd_Body funcDecl with
  | Some b => analyzeComplexity b
  | None => ComplexityInfo.zero
  end.

(** The loop "Check for error returns" of [analyzeFunctionDecl]. *)
Definition backfillErrors (returns : list ReturnInfo.t) (c : ComplexityInfo.t)
  : ComplexityInfo.t :=
  fold_left (fun c ret => if streq (ReturnInfo.Type_ ret) (str "error")
                          then ComplexityInfo.setHasErrors c else c)
            returns c.

(** The loop "Check for pointer parameters" of [analyzeFunctionDecl]. *)
Definition backfillPointers (parameters : list ParameterInfo.t)
  (c : ComplexityInfo.t) : ComplexityInfo.t :=
  fold_left (fun c param =>
               if strings.HasPrefix (ParameterInfo.Type_ param) (str "*")
               then ComplexityInfo.setHasPointers c else c)
            parameters c.

(** The test "Check for pointer receiver" of [analyzeFunctionDecl]. *)
Definition receiverIsPointer (isMethod : bool) (receiver : option ReceiverInfo.t)
  : bool :=
  match isMethod, receiver with
  | true, Some r => strings.HasPrefix (ReceiverInfo.Type_ r) (str "*")
  | _, _ => false
  end.

Section WithHost.
Variable host : Host.

(** [analyzeFunctionDecl(funcDecl, fset, filePath)]; the positions [fset]
    resolves are the lines kept in the declaration. *)
Definition analyzeFunctionDecl (funcDecl : FuncDeclT) (filePath : gostring)
  : FunctionInfo.t :=
  let receiver :=
    match fd_Recv funcDecl with
    | Some (receiver :: _) =>
        Some (ReceiverInfo.mk
                (match field_Names receiver with
                 | name :: _ => name
                 | [] => []
                 end)
                (extractTypeString (field_Type receiver)))
    | _ => None
    end in
  let isMethod := match receiver with Some _ => true | None => false end in
  let parameters :=
    map (fun e => ParameterInfo.mk (fst e) (snd e))
        (fieldEntries (ft_Params (fd_Type funcDecl))) in
  let returns :=
    map (fun e => ReturnInfo.mk (fst e) (snd e))
        (fieldEntries (ft_Results (fd_Type funcDecl))) in
  let comments :=
    match fd_Doc funcDecl with
    | Some l => map (fun text => strings.TrimPrefix text (str "//")) l
    | None => []
    end in
  let funcInfo :=
    FunctionInfo.mk (fd_Name funcDecl)
      (filepath_Base host (filepath_Dir host filePath)) filePath
      (Pos_Line (fd_lines funcDecl)) (End_Line (fd_lines funcDecl))
      [] parameters returns isMethod receiver comments ComplexityInfo.zero [] in
  (* Build signature string *)
  let signature := buildSignatureString funcInfo in
  (* Analyze complexity *)
  let complexity := walkedComplexity funcDecl in
  let body :=
    match fd_Body funcDecl with
    | Some _ => extractBodyString (fd_lines funcDecl)
    | None => []
    end in
  (* Additional complexity analysis from signature *)
  let complexity := backfillErrors returns complexity in
  let complexity := backfillPointers parameters complexity in
  let complexity :=
    if receiverIsPointer isMethod receiver
    then ComplexityInfo.setHasPointers complexity
    else complexity in
  FunctionInfo.mk (fd_Name funcDecl)
    (filepath_Base host (filepath_Dir host filePath)) filePath
    (Pos_Line (fd_lines funcDecl)) (End_Line (fd_lines funcDecl))
    signature parameters returns isMethod receiver comments complexity body.

(** [extractValue] *)
Definition extractValue (expr : Expr) : gostring :=
  match expr with
  | BasicLit v => v
  | Ident name => name
  | _ => str "unknown"
  end.

(** The loop [for i, name := range s.Names] of [analyzeGenDecl], writing
    into the map [m] from index [i] on. *)
Fixpoint assignValues (m : gomap gostring) (names : list gostring) (i : nat)
  (values : list Expr) : result (gomap gostring) :=
  match names with
  | [] => Ok m
  | name :: names' =>
      m' <- match nth_error values i with
            | Some v => map_assign m name (extractValue v)
            | None => Ok m
            end ;;
      assignValues m' names' (S i) values
  end.

(** [analyzeGenDecl(decl, analysis)] *)
Definition analyzeGenDecl (tok : Token) (specs : list Spec)
  (analysis : FileAnalysis.t) : result FileAnalysis.t :=
  foldM (fun (a : FileAnalysis.t) spec =>
           match spec with
           | ValueSpec names _ values =>
               match tok with
               | CONST =>
                   m <- assignValues (FileAnalysis.Constants a) names 0 values ;;
                   Ok (FileAnalysis.mk (FileAnalysis.PackageName a)
                         (FileAnalysis.Imports a) (FileAnalysis.Functions a) m
                         (FileAnalysis.Variables a) (FileAnalysis.Types a))
               | VAR =>
                   m <- assignValues (FileAnalysis.Variables a) names 0 values ;;
                   Ok (FileAnalysis.mk (FileAnalysis.PackageName a)
                         (FileAnalysis.Imports a) (FileAnalysis.Functions a)
                         (FileAnalysis.Constants a) m (FileAnalysis.Types a))
               | _ => Ok a
               end
           | TypeSpec name _ t =>
               Ok (FileAnalysis.mk (FileAnalysis.PackageName a)
                     (FileAnalysis.Imports a) (FileAnalysis.Functions a)
                     (FileAnalysis.Constants a) (FileAnalysis.Variables a)
                     (FileAnalysis.Types a
                      ++ [TypeInfo.mk name (extractTypeString t) []]))
           | ImportSpec _ => Ok a
           end)
        analysis specs.

(** The visitor of [ParseFile]; a panic ends the walk. *)
Definition fileVisitor (filePath : gostring) (r : result FileAnalysis.t)
  (n : Node) : result FileAnalysis.t :=
  analysis <- r ;;
  match n with
  | NDecl (FuncDecl x) =>
      let funcInfo := analyzeFunctionDecl x filePath in
      Ok (FileAnalysis.mk (FileAnalysis.PackageName analysis)
            (FileAnalysis.Imports analysis)
            (FileAnalysis.Functions analysis ++ [funcInfo])
            (FileAnalysis.Constants analysis) (FileAnalysis.Variables analysis)
            (FileAnalysis.Types analysis))
  | NDecl (GenDecl tok specs) => analyzeGenDecl tok specs analysis
  | _ => Ok analysis
  end.

Definition quote : gostring := [byte 34].

(** [ParseFile(filePath)]: the analysis ([None] is nil) and the error. *)
Definition ParseFile (filePath : gostring)
  : result (option FileAnalysis.t * error) :=
  match go_parser_ParseFile host filePath with
  | inr err =>
      Ok (None, Some (str "failed to parse file " ++ filePath ++ str ": " ++ err))
  | inl node =>
      let analysis :=
        FileAnalysis.mk (file_Name node) [] [] make_map None [] in
      let analysis :=
        fold_left (fun (a : FileAnalysis.t) imp =>
                     FileAnalysis.mk (FileAnalysis.PackageName a)
                       (FileAnalysis.Imports a
                        ++ [ImportInfo.mk
                              (match imp_Name imp with Some n => n | None => [] end)
                              (strings.Trim (imp_Path imp) quote)])
                       (FileAnalysis.Functions a) (FileAnalysis.Constants a)
                       (FileAnalysis.Variables a) (FileAnalysis.Types a))
                  (file_Imports node) analysis in
      analysis <- Inspect (NFile node) (fileVisitor filePath) (Ok analysis) ;;
      Ok (Some analysis, None)
  end.

End WithHost.

(** [fa.FilterFunctions(functionNames)] *)
Definition FilterFunctions (fa : FileAnalysis.t) (functionNames : list gostring)
  : list FunctionInfo.t :=
  filter (fun fn => existsb (streq (FunctionInfo.Name fn)) functionNames)
         (FileAnalysis.Functions fa).

(** The state of the walk of [ParseFile]: it has panicked on the nil map,
    or the map of variables is still nil. *)
Definition variablesNil (r : result FileAnalysis.t) : Prop :=
  match r with
  | Ok a => FileAnalysis.Variables a = None
  | Panic m => m = nilmap_msg
  end.

(** A [var] specification whose first name has an initializer. *)
Definition initializedVar (s : ast.Spec) : Prop :=
  exists name names t v values, s = ast.ValueSpec (name :: names) t (v :: values).


End parser.

(* ================================================================== *)
(** ** Package [models]: pkg/models/types.go *)
(* ================================================================== *)

Module models.

Module ParameterInfo.
Record t : Type := mk
  { Name : gostring
  ; Type_ : gostring }.
End ParameterInfo.

Module ReturnInfo.
Record t : Type := mk
  { Name : gostring
  ; Type_ : gostring }.
End ReturnInfo.

Module ReceiverInfo.
Record t : Type := mk
  { Name : gostring
  ; Type_ : gostring }.
End ReceiverInfo.

Module ComplexityInfo.
Record t : Type := mk
  { HasErrors : bool
  ; HasPointers : bool
  ; HasInterfaces : bool
  ; HasChannels : bool
  ; HasGoroutines : bool
  ; Dependencies : list gostring
  ; CyclomaticComplexity : Z }.

Definition zero : t := mk false false false false false [] 0.
End ComplexityInfo.

Module FunctionInfo.
Record t : Type := mk
  { Name : gostring
  ; Package : gostring
  ; File : gostring
  ; Signature : gostring
  ; Parameters : list ParameterInfo.t
  ; Returns : list ReturnInfo.t
  ; IsMethod : bool
  ; Receiver : option ReceiverInfo.t
  ; Comments : list gostring
  ; Complexity : ComplexityInfo.t }.
End FunctionInfo.

End models.

(* ================================================================== *)
(** ** Package [config]: the filtering rules of the configuration *)
(* ================================================================== *)

Module config.

(** [FilterConfig]: function filtering rules. *)
Record FilterConfig : Type := mkFilterConfig
  { IncludeUnexported : bool
  ; MaxComplexity : Z
  ; MinComplexity : Z
  ; SkipPatterns : list gostring
  ; RequireParams : bool
  ; RequireReturns : bool }.

(** [Config]; the trigger, AI and output settings play no part in the
    selection of functions and are left out. *)
Record Config : Type := mkConfig
  { Mode : gostring
  ; Filtering : FilterConfig }.

(** [DefaultConfig()] *)
Definition DefaultConfig : Config :=
  mkConfig (str "manual")
           (mkFilterConfig false 15 1 [str "main"; str "init"] false false).

(** [c.ShouldIncludeFunction(funcName, isExported, complexity)];
    [filepath.Match] is the library's glob matcher. *)
Definition ShouldIncludeFunction (filepath_Match : gostring -> gostring -> bool)
  (c : Config) (funcName : gostring) (isExported : bool) (complexity : Z)
  : bool :=
  if negb isExported && negb (IncludeUnexported (Filtering c)) then false
  else if (complexity <? MinComplexity (Filtering c))
          || (MaxComplexity (Filtering c) <? complexity) then false
  else negb (existsb
               (fun pattern =>
                  filepath_Match pattern funcName
                  || strings.Contains (strings.ToLower funcName)
                                      (strings.ToLower pattern))
               (SkipPatterns (Filtering c))).

End config.

(* ================================================================== *)
(** ** Package [analyzer]: the reconciler / target builder *)
(* ================================================================== *)

Module analyzer.

(** [ChangedFileAnalysis]: analysis of a single changed file. *)
Record ChangedFileAnalysis : Type := mkChangedFileAnalysis
  { FilePath : gostring
  ; cf_ModifiedFunctions : list gostring
  ; FunctionDetails : list models.FunctionInfo.t
  ; FileAnalysis : option parser.FileAnalysis.t }.

(** [AnalysisResult] *)
Record AnalysisResult : Type := mkAnalysisResult
  { ChangedFiles : list ChangedFileAnalysis
  ; TotalFunctions : Z
  ; ModifiedFunctions : Z
  ; GenerationTargets : list models.FunctionInfo.t }.

(** [convertToModelFunction(fn, fileAnalysis)] *)
Definition convertToModelFunction (fn : parser.FunctionInfo.t)
  (fileAnalysis : parser.FileAnalysis.t) : models.FunctionInfo.t :=
  models.FunctionInfo.mk
    (parser.FunctionInfo.Name fn) (parser.FunctionInfo.Package fn)
    (parser.FunctionInfo.File fn) (parser.FunctionInfo.Signature fn)
    (map (fun param => models.ParameterInfo.mk (parser.ParameterInfo.Name param)
                                               (parser.ParameterInfo.Type_ param))
         (parser.FunctionInfo.Parameters fn))
    (map (fun ret => models.ReturnInfo.mk (parser.ReturnInfo.Name ret)
                                          (parser.ReturnInfo.Type_ ret))
         (parser.FunctionInfo.Returns fn))
    (parser.FunctionInfo.IsMethod fn)
    (match parser.FunctionInfo.IsMethod fn, parser.FunctionInfo.Receiver fn with
     | true, Some r => Some (models.ReceiverInfo.mk (parser.ReceiverInfo.Name r)
                                                    (parser.ReceiverInfo.Type_ r))
     | _, _ => None
     end)
    (parser.FunctionInfo.Comments fn)
    (let c := parser.FunctionInfo.Complexity fn in
     models.ComplexityInfo.mk
       (parser.ComplexityInfo.HasErrors c) (parser.ComplexityInfo.HasPointers c)
       (parser.ComplexityInfo.HasInterfaces c) (parser.ComplexityInfo.HasChannels c)
       (parser.ComplexityInfo.HasGoroutines c) (parser.ComplexityInfo.Dependencies c)
       (parser.ComplexityInfo.CyclomaticComplexity c)).

(** [isTestFunction(name)] *)
Definition isTestFunction (name : gostring) : result bool :=
  Ok (4 <? len name)
  &&& ((p <- slice_to name 4 ;; Ok (streq p (str "Test")))
       ||| (p <- slice_to name 9 ;; Ok (streq p (str "Benchmark")))
       ||| (p <- slice_to name 7 ;; Ok (streq p (str "Example")))
       ||| (p <- slice_to name 4 ;; Ok (streq p (str "Fuzz")))).

(** [isExported(name)] *)
Definition isExported (name : gostring) : result bool :=
  if streq name [] then Ok false
  else (c <- index_at name 0 ;; Ok (code "A"%char <=? code c))
       &&& (c <- index_at name 0 ;; Ok (code c <=? code "Z"%char)).

(** [shouldGenerateTest(fn)] *)
Definition shouldGenerateTest (fn : models.FunctionInfo.t) : result bool :=
  (* Skip main functions *)
  if streq (models.FunctionInfo.Name fn) (str "main") then Ok false
  (* Skip init functions *)
  else if streq (models.FunctionInfo.Name fn) (str "init") then Ok false
  else
    (* Skip existing test functions *)
    isTest <- isTestFunction (models.FunctionInfo.Name fn) ;;
    if isTest then Ok false
    else
      (* Only include exported functions by default *)
      exported <- isExported (models.FunctionInfo.Name fn) ;;
      if negb exported then Ok false
      (* Skip functions that are too complex (could be configurable) *)
      else if 15 <? models.ComplexityInfo.CyclomaticComplexity
                      (models.FunctionInfo.Complexity fn)
      then Ok false
      (* Skip functions with no parameters and no return values *)
      else if (len (models.FunctionInfo.Parameters fn) =? 0)
              && (len (models.FunctionInfo.Returns fn) =? 0)
      then Ok false
      else Ok true.

(** [buildGenerationTargets(changedFiles)] *)
Definition buildGenerationTargets (changedFiles : list ChangedFileAnalysis)
  : result (list models.FunctionInfo.t) :=
  foldM (fun targets file =>
           foldM (fun targets fn =>
                    keep <- shouldGenerateTest fn ;;
                    Ok (if keep then targets ++ [fn] else targets))
                 targets (FunctionDetails file))
        [] changedFiles.

Section WithHost.
Variable host : Host.

(** [git.GetDiff(from, to)] *)
Definition GetDiff (from to : gostring) : result (option git.DiffResult * error) :=
  match git_diff host from to with
  | inr err => Ok (None, Some (str "failed to get git diff: " ++ err))
  | inl output => git.parseDiff output
  end.

(** [analyzeChangedFile(fileDiff)] *)
Definition analyzeChangedFile (fileDiff : git.FileDiff)
  : result (option ChangedFileAnalysis * error) :=
  (* Skip if file was deleted *)
  if streq (git.NewPath fileDiff) [] then Ok (None, None)
  else
    parsed <- parser.ParseFile host (git.NewPath fileDiff) ;;
    match parsed with
    | (_, Some err) => Ok (None, Some (str "failed to parse Go file: " ++ err))
    | (fileAnalysis, None) =>
        let modifiedFunctionNames := git.GetModifiedFunctions fileDiff in
        if len modifiedFunctionNames =? 0 then Ok (None, None)
        else
          match fileAnalysis with
          | None => Panic nilptr_msg
          | Some fileAnalysis =>
              let modifiedFunctions :=
                parser.FilterFunctions fileAnalysis modifiedFunctionNames in
              let functionDetails :=
                map (fun fn => convertToModelFunction fn fileAnalysis)
                    modifiedFunctions in
              Ok (Some (mkChangedFileAnalysis (git.NewPath fileDiff)
                          modifiedFunctionNames functionDetails
                          (Some fileAnalysis)),
                  None)
          end
    end.

(** One more analysed file in the result. *)
Definition addChangedFile (r : AnalysisResult) (f : ChangedFileAnalysis)
  : AnalysisResult :=
  mkAnalysisResult (ChangedFiles r ++ [f])
    (TotalFunctions r + len (FunctionDetails f))
    (ModifiedFunctions r + len (cf_ModifiedFunctions f))
    (GenerationTargets r).

Definition withTargets (r : AnalysisResult) (targets : list models.FunctionInfo.t)
  : AnalysisResult :=
  mkAnalysisResult (ChangedFiles r) (TotalFunctions r) (ModifiedFunctions r)
                   targets.

Definition emptyResult : AnalysisResult := mkAnalysisResult [] 0 0 [].

(** [AnalyzeChanges(fromRef, toRef)]; the warning printed for a file that
    fails to parse is not modelled. *)
Definition AnalyzeChanges (fromRef toRef : gostring)
  : result (option AnalysisResult * error) :=
  diff <- GetDiff fromRef toRef ;;
  match diff with
  | (_, Some err) => Ok (None, Some (str "failed to get git diff: " ++ err))
  | (None, None) => Panic nilptr_msg
  | (Some diffResult, None) =>
      let goFiles := git.FilterGoFiles diffResult in
      r <- foldM (fun r fileDiff =>
                    a <- analyzeChangedFile fileDiff ;;
                    match a with
                    | (_, Some _) => Ok r
                    | (Some fileAnalysis, None) => Ok (addChangedFile r fileAnalysis)
                    | (None, None) => Ok r
                    end)
                 emptyResult (git.Files goFiles) ;;
      targets <- buildGenerationTargets (ChangedFiles r) ;;
      Ok (Some (withTargets r targets), None)
  end.

(** One iteration of the loop over [filePaths] of
    [AnalyzeSpecificFunctions]. *)
Definition analyzeSpecificFile (functionNames : list gostring)
  (r : AnalysisResult) (filePath : gostring) : result AnalysisResult :=
  (* Skip non-Go files *)
  if negb (strings.HasSuffix filePath (str ".go"))
     || strings.HasSuffix filePath (str "_test.go")
  then Ok r
  else
    parsed <- parser.ParseFile host filePath ;;
    match parsed with
    | (_, Some _) => Ok r
    | (None, None) => Panic nilptr_msg
    | (Some fileAnalysis, None) =>
        let filteredFunctions :=
          filter (fun fn => (len functionNames =? 0)
                            || existsb (streq (parser.FunctionInfo.Name fn))
                                       functionNames)
                 (parser.FileAnalysis.Functions fileAnalysis) in
        let matchedNames := map parser.FunctionInfo.Name filteredFunctions in
        if len filteredFunctions =? 0 then Ok r
        else
          let functionDetails :=
            map (fun fn => convertToModelFunction fn fileAnalysis)
                filteredFunctions in
          Ok (addChangedFile r
                (mkChangedFileAnalysis filePath matchedNames functionDetails
                                       (Some fileAnalysis)))
    end.

(** [AnalyzeSpecificFunctions(filePaths, functionNames)] *)
Definition AnalyzeSpecificFunctions (filePaths functionNames : list gostring)
  : result (option AnalysisResult * error) :=
  r <- foldM (analyzeSpecificFile functionNames) emptyResult filePaths ;;
  targets <- buildGenerationTargets (ChangedFiles r) ;;
  Ok (Some (withTargets r targets), None).

End WithHost.


End analyzer.

(* ================================================================== *)
(** ** Package [main]: cmd/testgen *)
(* ================================================================== *)

Module cmd.

(** [parseGitRange(rangeFlag, cfg)]: the two references [runGenerate] hands
    to [AnalyzeChanges].  [cfg] is the pointer to the configuration: [None]
    is nil, and [Some d] is a configuration whose field
    [Triggers.Manual.DefaultRange], the only one the function reads, is
    [d]. *)
Definition parseGitRange (rangeFlag : gostring) (cfg : option gostring)
  : result (gostring * gostring) :=
  let fromFlag :=
    if negb (streq rangeFlag [])
    then match strings.Split rangeFlag (str "..") with
         | [from; to] => Some (from, to)
         | _ => None
         end
    else None in
  match fromFlag with
  | Some refs => Ok refs
  | None =>
      (* Use default from config *)
      match cfg with
      | None => Panic nilptr_msg
      | Some defaultRange =>
          match strings.Split defaultRange (str "..") with
          | [from; to] => Ok (from, to)
          | _ => (* Fallback *) Ok (str "HEAD~1", str "HEAD")
          end
      end
  end.

End cmd.

(* ================================================================== *)
(** ** The specification's own notions *)
(* ================================================================== *)

(** Definitions that follow the words of the specification rather than the
    code; the theorems compare the code with them. *)
Module spec.

(** Selection predicate 2: "a recognized prefix followed by at least one
    more character". *)
Definition recognized_prefixes : list gostring :=
  [str "Test"; str "Benchmark"; str "Example"; str "Fuzz"].

Definition test_naming (name : gostring) : bool :=
  existsb (fun p => strings.HasPrefix name p && (length p <? length name)%nat)
          recognized_prefixes.

(** Selection predicate 3: "first character an uppercase ASCII letter". *)
Definition visibility_exported (name : gostring) : bool :=
  match name with
  | c :: _ => (code "A"%char <=? code c) && (code c <=? code "Z"%char)
  | [] => false
  end.

(** The five selection predicates of the Reconciler in the spec's order,
    under the filtering rules [f] of a configuration: a function is
    selected when none excludes it. *)
Definition selected (f : config.FilterConfig) (fn : models.FunctionInfo.t)
  : bool :=
  let name := models.FunctionInfo.Name fn in
  negb (streq name (str "main") || streq name (str "init"))
  && negb (test_naming name)
  && (visibility_exported name || config.IncludeUnexported f)
  && (models.ComplexityInfo.CyclomaticComplexity (models.FunctionInfo.Complexity fn)
      <=? config.MaxComplexity f)
  && negb ((len (models.FunctionInfo.Parameters fn) =? 0)
           && (len (models.FunctionInfo.Returns fn) =? 0)).

(** Reading a parenthesised, comma-separated list back from a rendered
    signature: [s] is the text after the opening parenthesis, [depth] the
    number of inner parentheses still open, [commas] the separators seen at
    depth 0 and [seen] whether the list has any text.  The result is the
    number of entries and the text after the closing parenthesis. *)
Fixpoint scan_list (depth commas : nat) (seen : bool) (s : gostring)
  : option (nat * gostring) :=
  match s with
  | [] => None
  | c :: s' =>
      if Ascii.eqb c "("%char then scan_list (S depth) commas true s'
      else if Ascii.eqb c ")"%char then
        match depth with
        | O => Some (if seen then S commas else O, s')
        | S d => scan_list d commas true s'
        end
      else if Ascii.eqb c ","%char then
        scan_list depth (match depth with O => S commas | S _ => commas end) true s'
      else scan_list depth commas true s'
  end.

(** The parameter count and the return count of a rendered signature:
    after the keyword, an optional receiver clause and the name comes the
    parameter list; what follows it is nothing (no return), a
    parenthesised list, or one bare return. *)
Definition signature_counts (sig : gostring) : option (nat * nat) :=
  match git.strip_prefix (str "func ") sig with
  | None => None
  | Some line =>
      let line :=
        if strings.HasPrefix line (str "(")
        then let closeParen := strings.Index line (str ") ") in
             if closeParen =? -1 then line
             else skipn (Z.to_nat (closeParen + 2)) line
        else line in
      let parenIndex := strings.Index line (str "(") in
      if parenIndex =? -1 then None
      else
        match scan_list 0 0 false (skipn (Z.to_nat (parenIndex + 1)) line) with
        | None => None
        | Some (params, rest) =>
            match rest with
            | [] => Some (params, O)
            | _ :: _ =>
                match git.strip_prefix (str " (") rest with
                | Some inner =>
                    match scan_list 0 0 false inner with
                    | Some (returns, _) => Some (params, returns)
                    | None => None
                    end
                | None => Some (params, 1%nat)
                end
            end
        end
  end.

(** A Go identifier as a byte string: not empty, made of ASCII letters,
    digits, underscores and the bytes of UTF-8 encoded letters and digits,
    none of which is a space at either end. *)
Definition ident_byte (c : ascii) : bool :=
  ((code "a"%char <=? code c) && (code c <=? code "z"%char))
  || ((code "A"%char <=? code c) && (code c <=? code "Z"%char))
  || git.is_digit c || Ascii.eqb c "_"%char || (128 <=? code c).

Definition is_identifier (s : gostring) : bool :=
  negb (streq s []) && forallb ident_byte s
  && negb (existsb (strings.HasPrefix s) strings.space_encodings)
  && negb (existsb (strings.HasSuffix s) strings.space_encodings).

(** The identifiers [extractTypeString] prints from a type expression are
    Go identifiers. *)
Fixpoint type_identifiers (e : ast.Expr) : bool :=
  match e with
  | ast.Ident name => is_identifier name
  | ast.StarExpr x => type_identifiers x
  | ast.ArrayType _ elt => type_identifiers elt
  | ast.MapType k v => type_identifiers k && type_identifiers v
  | ast.ChanType _ v => type_identifiers v
  | ast.SelectorExpr x sel => type_identifiers x && is_identifier sel
  | _ => true
  end.

Definition field_identifiers (f : ast.Field) : bool :=
  forallb is_identifier (ast.field_Names f) && type_identifiers (ast.field_Type f).

Definition fields_identifiers (l : option (list ast.Field)) : bool :=
  match l with
  | Some l => forallb field_identifiers l
  | None => true
  end.

(** A function declaration as the Go parser yields it for a file it
    accepts: every name in its signature is an identifier. *)
Definition well_formed (d : ast.FuncDeclT) : bool :=
  is_identifier (ast.fd_Name d)
  && fields_identifiers (ast.fd_Recv d)
  && fields_identifiers (ast.ft_Params (ast.fd_Type d))
  && fields_identifiers (ast.ft_Results (ast.fd_Type d)).

End spec.

(* ================================================================== *)
(** ** The scenarios of the specification, as concrete inputs *)
(* ================================================================== *)

Module scenario.

Definition unlines (ls : list string) : gostring :=
  concat (map (fun l => str l ++ [bufio.newline]) ls).

(** Scenario A: a hunk under the context [ValidateUser] adding two lines
    to it, and a hunk under the context [CreateUser] adding the new
    function [DeleteUser]. *)
Definition diffA : gostring := unlines
  [ "diff --git a/user.go b/user.go";
    "index 1234567..abcdefg 100644";
    "--- a/user.go";
    "+++ b/user.go";
    "@@ -10,4 +10,6 @@ func ValidateUser(user *User) error {";
    "     if user == nil {";
    "         return errNil";
    "     }";
    "+    log.Println(user.Name)";
    "+    user.Checked = true";
    "     return nil";
    " }";
    "@@ -30,3 +32,6 @@ func CreateUser(name, email string) *User {";
    "     return &User{Name: name, Email: email}";
    " }";
    "+func DeleteUser(id int) error {";
    "+    return nil";
    "+}" ]%string.

(** An environment in which every path holds the file [node]. *)
Definition hostOf (node : ast.File) : Host :=
  mkHost (fun _ => inl node) (fun p => p) (fun p => p) (fun _ _ => inr []).

(** An environment without any readable file. *)
Definition emptyHost : Host :=
  mkHost (fun _ => inr (str "no such file")) (fun p => p) (fun p => p)
         (fun _ _ => inr []).

(** Scenario D: [func (u *User) GetName() string { return u.Name }]. *)
Definition getName : ast.FuncDeclT :=
  ast.mkFuncDecl None
    (Some [ast.mkField [str "u"] (ast.StarExpr (ast.Ident (str "User"))) None])
    (str "GetName")
    (ast.mkFuncType None (Some [])
       (Some [ast.mkField [] (ast.Ident (str "string")) None]))
    (Some [ast.ReturnStmt [ast.SelectorExpr (ast.Ident (str "u")) (str "Name")]])
    (ast.mkLines 10 12 10 12).

(** A declaration without a body: [func Sqrt(x float64) float64]. *)
Definition sqrtDecl : ast.FuncDeclT :=
  ast.mkFuncDecl None None (str "Sqrt")
    (ast.mkFuncType None
       (Some [ast.mkField [str "x"] (ast.Ident (str "float64")) None])
       (Some [ast.mkField [] (ast.Ident (str "float64")) None]))
    None (ast.mkLines 3 3 0 0).

(** A declaration without a body, with a pointer parameter and an error
    result: [func Save(u *User) error]. *)
Definition saveDecl : ast.FuncDeclT :=
  ast.mkFuncDecl None None (str "Save")
    (ast.mkFuncType None
       (Some [ast.mkField [str "u"] (ast.StarExpr (ast.Ident (str "User"))) None])
       (Some [ast.mkField [] (ast.Ident (str "error")) None]))
    None (ast.mkLines 5 5 0 0).

(** The file [package p; var x = 1]. *)
Definition varFile : ast.File :=
  ast.mkFile (str "p")
    [ast.GenDecl ast.VAR
       [ast.ValueSpec [str "x"] None [ast.BasicLit (str "1")]]]
    [].

(** [func validateUser(user *User) error], of complexity 3. *)
Definition validateUser_unexported : models.FunctionInfo.t :=
  models.FunctionInfo.mk (str "validateUser") (str "user") (str "user.go")
    (str "func validateUser(user *User) error")
    [models.ParameterInfo.mk (str "user") (str "*User")]
    [models.ReturnInfo.mk [] (str "error")]
    false None []
    (models.ComplexityInfo.mk true true false false false [] 3).

(** [func ValidateUser(user *User) error], of complexity 20. *)
Definition ValidateUser_complex : models.FunctionInfo.t :=
  models.FunctionInfo.mk (str "ValidateUser") (str "user") (str "user.go")
    (str "func ValidateUser(user *User) error")
    [models.ParameterInfo.mk (str "user") (str "*User")]
    [models.ReturnInfo.mk [] (str "error")]
    false None []
    (models.ComplexityInfo.mk true true false false false [] 20).

(** Filtering rules that include unexported functions. *)
Definition includeUnexported : config.Config :=
  config.mkConfig (str "manual")
    (config.mkFilterConfig true 15 1 [] false false).

(** Filtering rules with the ceiling raised to 30. *)
Definition ceiling30 : config.Config :=
  config.mkConfig (str "manual")
    (config.mkFilterConfig false 30 1 [] false false).

(** A string literal of a Go source text, quotes included. *)
Definition lit (s : string) : gostring := parser.quote ++ str s ++ parser.quote.

(** [func ValidateUser(user *User) error] with one [if] in its body:
    [if user == nil { return errors.New("user cannot be nil") }; return nil]. *)
Definition validateUserDecl : ast.FuncDeclT :=
  ast.mkFuncDecl (Some [str "// ValidateUser checks if a user is valid"]) None
    (str "ValidateUser")
    (ast.mkFuncType None
       (Some [ast.mkField [str "user"] (ast.StarExpr (ast.Ident (str "User"))) None])
       (Some [ast.mkField [] (ast.Ident (str "error")) None]))
    (Some [ast.IfStmt None
             (ast.BinaryExpr (ast.Ident (str "user")) (ast.Ident (str "nil")))
             [ast.ReturnStmt
                [ast.CallExpr (ast.SelectorExpr (ast.Ident (str "errors")) (str "New"))
                              [ast.BasicLit (lit "user cannot be nil")]]]
             None;
           ast.ReturnStmt [ast.Ident (str "nil")]])
    (ast.mkLines 12 17 12 17).

(** A file of the package [user]: an import, a constant, a type, the
    function [ValidateUser] and the method [GetName]. *)
Definition userFile : ast.File :=
  ast.mkFile (str "user")
    [ ast.GenDecl ast.IMPORT
        [ast.ImportSpec (ast.mkImportSpec None (lit "errors"))];
      ast.GenDecl ast.CONST
        [ast.ValueSpec [str "MaxUsers"] None [ast.BasicLit (str "100")]];
      ast.GenDecl ast.TYPE
        [ast.TypeSpec (str "User") None
           (ast.StructType [ast.mkField [str "Name"] (ast.Ident (str "string")) None])];
      ast.FuncDecl validateUserDecl;
      ast.FuncDecl getName ]
    [ast.mkImportSpec None (lit "errors")].

(** A file that holds the function [ValidateUser] alone. *)
Definition validateFile : ast.File :=
  ast.mkFile (str "user") [ast.FuncDecl validateUserDecl] [].

End scenario.

(* ================================================================== *)
(** ** Properties of rendered text used by the round trip *)
(* ================================================================== *)

Module text.

(** The byte [c] occurs in none of the sequences [seqs]. *)
Definition absent (c : ascii) (seqs : list gostring) : bool :=
  forallb (fun e => negb (existsb (Ascii.eqb c) e)) seqs.

(** [s] holds the byte [c1] immediately followed by [c2]. *)
Fixpoint has_pair (c1 c2 : ascii) (s : gostring) : bool :=
  match s with
  | a :: s' =>
      match s' with
      | b :: _ => (Ascii.eqb a c1 && Ascii.eqb b c2) || has_pair c1 c2 s'
      | [] => false
      end
  | [] => false
  end.

(** [s] neither opens nor closes the list being read by [spec.scan_list]
    and holds no separator of it. *)
Definition neutral (s : gostring) : Prop :=
  forall depth commas seen rest,
    spec.scan_list depth commas seen (s ++ rest)
    = spec.scan_list depth commas (seen || negb (streq s [])) rest.

(** What a rendered type is for the round trip: it holds no ") ", it
    starts with neither a space nor a parenthesis, and it is neutral. *)
Definition typeText (s : gostring) : Prop :=
  has_pair ")"%char " "%char s = false
  /\ match s with
     | c :: _ => c <> " "%char /\ c <> "("%char
     | [] => False
     end
  /\ neutral s.

(** An entry of a parameter or return list: a name (maybe empty) and a
    type. *)
Definition entryText (e : gostring * gostring) : Prop :=
  (fst e = [] \/ spec.is_identifier (fst e) = true) /\ typeText (snd e).

(** What the round trip asks of a descriptor: its names are identifiers and
    its types are rendered types. *)
Definition descriptorText (fn : parser.FunctionInfo.t) : Prop :=
  spec.is_identifier (parser.FunctionInfo.Name fn) = true
  /\ match parser.FunctionInfo.IsMethod fn, parser.FunctionInfo.Receiver fn with
     | true, Some r =>
         entryText (parser.ReceiverInfo.Name r, parser.ReceiverInfo.Type_ r)
     | _, _ => True
     end
  /\ Forall entryText
            (map (fun p => (parser.ParameterInfo.Name p, parser.ParameterInfo.Type_ p))
                 (parser.FunctionInfo.Parameters fn))
  /\ Forall entryText
            (map (fun r => (parser.ReturnInfo.Name r, parser.ReturnInfo.Type_ r))
                 (parser.FunctionInfo.Returns fn)).

(** An entry as [writeList] and the receiver clause print it. *)
Definition entryString (e : gostring * gostring) : gostring :=
  (if negb (streq (fst e) []) then fst e ++ str " " else []) ++ snd e.

End text.

(* ================================================================== *)
(** ** What a walk holds *)
(* ================================================================== *)

(** Readings of the nodes of a walk, which the theorems on [ParseFile] are
    stated with. *)
Module walked.

(** A node at which [analyzeGenDecl] assigns to the map of variables: a
    [var] declaration with a specification whose first name has an
    initializer. *)
Definition writesVariable (n : ast.Node) : bool :=
  match n with
  | ast.NDecl (ast.GenDecl ast.VAR specs) =>
      existsb (fun s => match s with
                        | ast.ValueSpec (_ :: _) _ (_ :: _) => true
                        | _ => false
                        end) specs
  | _ => false
  end.

(** The function declarations among the nodes, in their order. *)
Definition funcDecls (nodes : list ast.Node) : list ast.FuncDeclT :=
  flat_map (fun n => match n with
                     | ast.NDecl (ast.FuncDecl d) => [d]
                     | _ => []
                     end) nodes.

(** The type specifications of the declarations among the nodes: the name
    and the type expression of each, in their order. *)
Definition typeSpecs (nodes : list ast.Node) : list (gostring * ast.Expr) :=
  flat_map (fun n => match n with
                     | ast.NDecl (ast.GenDecl _ specs) =>
                         flat_map (fun s => match s with
                                            | ast.TypeSpec name _ t => [(name, t)]
                                            | _ => []
                                            end) specs
                     | _ => []
                     end) nodes.

(** The names of a value specification that have a value at their index,
    each with that value; [i] is the index of the first name. *)
Fixpoint valued (names : list gostring) (i : nat) (values : list ast.Expr)
  : list (gostring * ast.Expr) :=
  match names with
  | [] => []
  | name :: names' =>
      match nth_error values i with
      | Some v => [(name, v)]
      | None => []
      end ++ valued names' (S i) values
  end.

(** The valued names of the [const] declarations among the nodes, in
    their order. *)
Definition constSpecs (nodes : list ast.Node) : list (gostring * ast.Expr) :=
  flat_map (fun n => match n with
                     | ast.NDecl (ast.GenDecl ast.CONST specs) =>
                         flat_map (fun s => match s with
                                            | ast.ValueSpec names _ values =>
                                                valued names 0 values
                                            | _ => []
                                            end) specs
                     | _ => []
                     end) nodes.

(** The kinds of nodes the visitor of [analyzeComplexity] looks for. *)
Definition isGo (n : ast.Node) : bool :=
  match n with ast.NStmt (ast.GoStmt _ _) => true | _ => false end.

Definition isDefer (n : ast.Node) : bool :=
  match n with ast.NStmt (ast.DeferStmt _ _) => true | _ => false end.

(** A call of the identifier [panic]. *)
Definition callsPanic (n : ast.Node) : bool :=
  match n with
  | ast.NExpr (ast.CallExpr (ast.Ident name) _) => streq name (str "panic")
  | _ => false
  end.

Definition isPointer (n : ast.Node) : bool :=
  match n with ast.NExpr (ast.StarExpr _) => true | _ => false end.

Definition isChannel (n : ast.Node) : bool :=
  match n with ast.NExpr (ast.ChanType _ _) => true | _ => false end.

Definition isInterface (n : ast.Node) : bool :=
  match n with ast.NExpr (ast.InterfaceType _) => true | _ => false end.

(** The identifier [error], or a call of a selector named [Error]. *)
Definition mentionsError (n : ast.Node) : bool :=
  match n with
  | ast.NExpr (ast.Ident name) => streq name (str "error")
  | ast.NExpr (ast.CallExpr (ast.SelectorExpr _ sel) _) => streq sel (str "Error")
  | _ => false
  end.

(** The six kinds of statements counted as control flow. *)
Definition isControlFlow (n : ast.Node) : bool :=
  match n with
  | ast.NStmt (ast.IfStmt _ _ _ _) | ast.NStmt (ast.ForStmt _ _ _ _)
  | ast.NStmt (ast.RangeStmt _ _ _ _) | ast.NStmt (ast.SwitchStmt _ _ _)
  | ast.NStmt (ast.TypeSwitchStmt _ _ _) | ast.NStmt (ast.SelectStmt _) => true
  | _ => false
  end.

(** The nodes the walk over a function body visits. *)
Definition bodyNodes (body : list ast.Stmt) : list ast.Node :=
  ast.Walk (ast.NStmt (ast.BlockStmt body)).

(** The value the last binding of the name [k] in [bs] gives it. *)
Definition lastValue (bs : list (gostring * ast.Expr)) (k : gostring)
  : option ast.Expr :=
  option_map snd (find (fun kv => streq (fst kv) k) (rev bs)).

(** The made map [l] holds for every name the rendering of the last value
    [bs] gives it, and nothing else. *)
Definition holds (l : list (gostring * gostring))
  (bs : list (gostring * ast.Expr)) : Prop :=
  forall k, map_lookup (Some l) k = option_map parser.extractValue (lastValue bs k).

(** The entry of [analysis.Types] for a type specification. *)
Definition typeInfo (nt : gostring * ast.Expr) : parser.TypeInfo.t :=
  parser.TypeInfo.mk (fst nt) (parser.extractTypeString (snd nt)) [].

(** The entry of [analysis.Imports] for an import specification. *)
Definition importInfo (imp : ast.ImportSpecT) : parser.ImportInfo.t :=
  parser.ImportInfo.mk
    (match ast.imp_Name imp with Some n => n | None => [] end)
    (strings.Trim (ast.imp_Path imp) parser.quote).

End walked.

(* ================================================================== *)
(** ** The selection as the code computes it *)
(* ================================================================== *)

Module policy.

(** The names on which [isTestFunction] slices out of range: 5 to 8 bytes
    that do not start with "Test". *)
Definition faults (name : gostring) : bool :=
  (4 <? len name) && (len name <? 9)
  && negb (strings.HasPrefix name (str "Test")).

(** The value of [isTestFunction] on the other names. *)
Definition testName (name : gostring) : bool :=
  (4 <? len name)
  && (strings.HasPrefix name (str "Test") || strings.HasPrefix name (str "Benchmark")
      || strings.HasPrefix name (str "Example") || strings.HasPrefix name (str "Fuzz")).

(** The six tests of [shouldGenerateTest], with the constants of its
    text. *)
Definition selects (fn : models.FunctionInfo.t) : bool :=
  negb (streq (models.FunctionInfo.Name fn) (str "main"))
  && negb (streq (models.FunctionInfo.Name fn) (str "init"))
  && negb (testName (models.FunctionInfo.Name fn))
  && spec.visibility_exported (models.FunctionInfo.Name fn)
  && (models.ComplexityInfo.CyclomaticComplexity (models.FunctionInfo.Complexity fn)
      <=? 15)
  && negb ((len (models.FunctionInfo.Parameters fn) =? 0)
           && (len (models.FunctionInfo.Returns fn) =? 0)).

(** A text of ASCII bytes only, on which [strings.ToLower] is the mapping
    of the letters 'A' to 'Z'. *)
Definition asciiOnly (s : gostring) : bool := forallb (fun c => code c <? 128) s.

(** All functions kept for the files of a result. *)
Definition details (files : list analyzer.ChangedFileAnalysis)
  : list models.FunctionInfo.t :=
  flat_map analyzer.FunctionDetails files.

(** The two counters of a result count what its files hold. *)
Definition counted (r : analyzer.AnalysisResult) : Prop :=
  analyzer.TotalFunctions r = len (details (analyzer.ChangedFiles r))
  /\ analyzer.ModifiedFunctions r
     = len (flat_map analyzer.cf_ModifiedFunctions (analyzer.ChangedFiles r)).

(** A file of a result of [AnalyzeSpecificFunctions] called with the names
    [functionNames]: it keeps at least one function, its modified names are
    the names of the functions it keeps, and these are requested names
    unless none was requested. *)
Definition requested (functionNames : list gostring)
  (cf : analyzer.ChangedFileAnalysis) : Prop :=
  analyzer.FunctionDetails cf <> []
  /\ analyzer.cf_ModifiedFunctions cf
     = map models.FunctionInfo.Name (analyzer.FunctionDetails cf)
  /\ (functionNames <> [] ->
      Forall (fun name => In name functionNames) (analyzer.cf_ModifiedFunctions cf)).

(** A file of a result of [AnalyzeChanges]: a Go source with at least one
    modified name, no name twice, whose kept functions are functions of
    that file under a modified name. *)
Definition changed (cf : analyzer.ChangedFileAnalysis) : Prop :=
  git.isGoSource (analyzer.FilePath cf) = true
  /\ analyzer.cf_ModifiedFunctions cf <> []
  /\ NoDup (analyzer.cf_ModifiedFunctions cf)
  /\ Forall (fun fn => In (models.FunctionInfo.Name fn) (analyzer.cf_ModifiedFunctions cf)
                       /\ models.FunctionInfo.File fn = analyzer.FilePath cf)
            (analyzer.FunctionDetails cf).

End policy.

(* ================================================================== *)
(** ** Basic facts about the runtime fragment *)
(* ================================================================== *)

Lemma streq_refl : forall a, streq a a = true.
Proof.
  induction a as [|x a IH]; simpl; [reflexivity|].
  now rewrite Ascii.eqb_refl, IH.
Qed.

Lemma streq_eq : forall a b, streq a b = true <-> a = b.
Proof.
  induction a as [|x a IH]; destruct b as [|y b]; simpl; split; intro H;
    try reflexivity; try discriminate.
  - apply andb_true_iff in H as [Hxy Hab].
    apply Ascii.eqb_eq in Hxy. apply IH in Hab. now subst.
  - inversion H; subst. now rewrite Ascii.eqb_refl, streq_refl.
Qed.

Lemma streq_neq : forall a b, streq a b = false <-> a <> b.
Proof.
  intros a b. split.
  - intros H E. apply streq_eq in E. congruence.
  - intro H. destruct (streq a b) eqn:E; [|reflexivity].
    apply streq_eq in E. contradiction.
Qed.

Lemma len_nonneg : forall (A : Type) (s : list A), 0 <= len s.
Proof. intros. unfold len. lia. Qed.

Lemma len_cons : forall (A : Type) (x : A) (s : list A), len (x :: s) = len s + 1.
Proof. intros. unfold len. simpl length. lia. Qed.

Lemma len_app : forall (A : Type) (s t : list A), len (s ++ t) = len s + len t.
Proof. intros. unfold len. rewrite length_app. lia. Qed.

Lemma slice_to_ok : forall (A : Type) (s : list A) hi,
  0 <= hi <= len s -> slice_to s hi = Ok (firstn (Z.to_nat hi) s).
Proof.
  intros A s hi [H0 H1]. unfold slice_to.
  apply Z.leb_le in H0. apply Z.leb_le in H1. now rewrite H0, H1.
Qed.

Lemma slice_to_panic : forall (A : Type) (s : list A) hi,
  len s < hi -> slice_to s hi = Panic bounds_msg.
Proof.
  intros A s hi H. unfold slice_to.
  apply Z.leb_gt in H. rewrite H. now rewrite andb_false_r.
Qed.

Lemma slice_from_ok : forall (A : Type) (s : list A) lo,
  0 <= lo <= len s -> slice_from s lo = Ok (skipn (Z.to_nat lo) s).
Proof.
  intros A s lo [H0 H1]. unfold slice_from.
  apply Z.leb_le in H0. apply Z.leb_le in H1. now rewrite H0, H1.
Qed.

Lemma index_at_0 : forall (A : Type) (c : A) (s : list A),
  index_at (c :: s) 0 = Ok c.
Proof.
  intros. unfold index_at. rewrite len_cons.
  assert (H : (0 <? len s + 1) = true) by (apply Z.ltb_lt; pose proof (len_nonneg A s); lia).
  now rewrite H.
Qed.

Lemma HasPrefix_app : forall p s, strings.HasPrefix (p ++ s) p = true.
Proof.
  induction p as [|c p IH]; intros s; simpl; [reflexivity|].
  now rewrite Ascii.eqb_refl, IH.
Qed.

Lemma HasPrefix_split : forall p s,
  strings.HasPrefix s p = true -> s = p ++ skipn (length p) s.
Proof.
  induction p as [|c p IH]; intros s H; simpl in *; [reflexivity|].
  destruct s as [|x s]; [discriminate|].
  apply andb_true_iff in H as [Hx Hs]. apply Ascii.eqb_eq in Hx. subst x.
  simpl. f_equal. now apply IH.
Qed.

Lemma HasPrefix_firstn : forall p s,
  strings.HasPrefix s p = streq (firstn (length p) s) p.
Proof.
  induction p as [|c p IH]; intros s; simpl; [reflexivity|].
  destruct s as [|x s]; simpl; [reflexivity|]. now rewrite IH.
Qed.

(* ================================================================== *)
(** ** The test-naming predicate (selection predicate 2) *)
(* ================================================================== *)

(** C2.  Code defect: for a name of 5 to 8 bytes that does not start with
    "Test", [isTestFunction] does not return: the operand [name[:9]] is out
    of range and the goroutine panics.  (The specification asks for a total
    predicate.) *)
Theorem isTestFunction_panics_between_5_and_8 : forall name,
  4 < len name -> len name < 9 ->
  strings.HasPrefix name (str "Test") = false ->
  analyzer.isTestFunction name = Panic bounds_msg.
Proof.
  intros name H4 H9 HT. unfold analyzer.isTestFunction, andThen, orElse.
  apply Z.ltb_lt in H4 as H4b. cbn [bind]. rewrite H4b.
  pose proof (len_nonneg _ name).
  rewrite (slice_to_ok _ name 4) by lia.
  rewrite (slice_to_panic _ name 9) by lia.
  cbn [bind].
  change (Z.to_nat 4) with (length (str "Test")).
  rewrite <- HasPrefix_firstn, HT. reflexivity.
Qed.

Lemma isTestFunction_panics_on_Hello :
  analyzer.isTestFunction (str "Hello") = Panic bounds_msg.
Proof.
  apply isTestFunction_panics_between_5_and_8; vm_compute; reflexivity.
Defined.

(** Where [isTestFunction] does return, it returns for "Benchmark" alone
    as for a test name ("Example" alone has 7 bytes, so it faults). *)
Lemma isTestFunction_bare_Benchmark :
  analyzer.isTestFunction (str "Benchmark") = Ok true
  /\ spec.test_naming (str "Benchmark") = false.
Proof. split; reflexivity. Qed.

(** Outside the faulty lengths the predicate is the disjunction of its four
    comparisons. *)
Lemma isTestFunction_short : forall name,
  len name <= 4 -> analyzer.isTestFunction name = Ok false.
Proof.
  intros name H. unfold analyzer.isTestFunction, andThen. cbn [bind].
  apply Z.ltb_ge in H. now rewrite H.
Qed.

Lemma isTestFunction_long : forall name,
  9 <= len name ->
  analyzer.isTestFunction name =
  Ok (strings.HasPrefix name (str "Test") || strings.HasPrefix name (str "Benchmark")
      || strings.HasPrefix name (str "Example") || strings.HasPrefix name (str "Fuzz")).
Proof.
  intros name H. unfold analyzer.isTestFunction, andThen, orElse.
  assert (H4 : (4 <? len name) = true) by (apply Z.ltb_lt; lia).
  cbn [bind]. rewrite H4.
  rewrite !slice_to_ok by lia.
  rewrite !HasPrefix_firstn. cbn [bind].
  change (length (str "Test")) with (Z.to_nat 4).
  change (length (str "Benchmark")) with (Z.to_nat 9).
  change (length (str "Example")) with (Z.to_nat 7).
  change (length (str "Fuzz")) with (Z.to_nat 4).
  destruct (streq (firstn (Z.to_nat 4) name) (str "Test")); [reflexivity|].
  destruct (streq (firstn (Z.to_nat 9) name) (str "Benchmark")); [reflexivity|].
  destruct (streq (firstn (Z.to_nat 7) name) (str "Example")); [reflexivity|].
  destruct (streq (firstn (Z.to_nat 4) name) (str "Fuzz")); reflexivity.
Qed.

(* ================================================================== *)
(** ** The selection policy of the Reconciler *)
(* ================================================================== *)

Lemma isExported_spec : forall name,
  analyzer.isExported name = Ok (spec.visibility_exported name).
Proof.
  intros [|c name]; [reflexivity|].
  unfold analyzer.isExported, andThen. cbn [streq].
  rewrite index_at_0. cbn [bind spec.visibility_exported].
  destruct (code "A"%char <=? code c); reflexivity.
Qed.

(** What [shouldGenerateTest] computes whenever its call of [isTestFunction]
    returns: the five predicates in order, with the constants of the source
    text, whatever configuration was loaded. *)
Lemma shouldGenerateTest_fixed_policy : forall fn isTest,
  analyzer.isTestFunction (models.FunctionInfo.Name fn) = Ok isTest ->
  analyzer.shouldGenerateTest fn =
  Ok (negb (streq (models.FunctionInfo.Name fn) (str "main")
            || streq (models.FunctionInfo.Name fn) (str "init"))
      && negb isTest
      && spec.visibility_exported (models.FunctionInfo.Name fn)
      && (models.ComplexityInfo.CyclomaticComplexity (models.FunctionInfo.Complexity fn)
          <=? 15)
      && negb ((len (models.FunctionInfo.Parameters fn) =? 0)
               && (len (models.FunctionInfo.Returns fn) =? 0))).
Proof.
  intros fn isTest HT. unfold analyzer.shouldGenerateTest.
  destruct (streq (models.FunctionInfo.Name fn) (str "main")); [reflexivity|].
  destruct (streq (models.FunctionInfo.Name fn) (str "init")); [reflexivity|].
  rewrite HT, isExported_spec. cbn [bind orb negb andb].
  destruct isTest; [reflexivity|]. cbn [negb andb].
  destruct (spec.visibility_exported (models.FunctionInfo.Name fn)); [|reflexivity].
  cbn [negb andb]. rewrite Z.leb_antisym.
  destruct (15 <? _); [reflexivity|]. cbn [negb andb].
  destruct (_ && _); reflexivity.
Qed.

Lemma shouldGenerateTest_fixed_policy_witness :
  analyzer.shouldGenerateTest scenario.ValidateUser_complex = Ok false.
Proof.
  rewrite (shouldGenerateTest_fixed_policy scenario.ValidateUser_complex false);
    reflexivity.
Defined.

(** C5.  Code defect: the target-building path never reads the loaded
    configuration.  With [include_unexported] set, the specification (and
    the configuration's own [ShouldIncludeFunction]) selects the unexported
    [validateUser]; with the ceiling raised to 30 it selects a function of
    complexity 20; [shouldGenerateTest] excludes both, by the constants of
    its source text. *)
Theorem shouldGenerateTest_ignores_configuration :
  (analyzer.shouldGenerateTest scenario.validateUser_unexported = Ok false
   /\ spec.selected (config.Filtering scenario.includeUnexported)
                    scenario.validateUser_unexported = true
   /\ forall filepath_Match,
        config.ShouldIncludeFunction filepath_Match scenario.includeUnexported
          (str "validateUser") false 3 = true)
  /\
  (analyzer.shouldGenerateTest scenario.ValidateUser_complex = Ok false
   /\ spec.selected (config.Filtering scenario.ceiling30)
                    scenario.ValidateUser_complex = true
   /\ forall filepath_Match,
        config.ShouldIncludeFunction filepath_Match scenario.ceiling30
          (str "ValidateUser") true 20 = true).
Proof.
  repeat split; reflexivity.
Qed.

(** Under the default filtering rules the code and the specification's
    policy agree wherever [isTestFunction] agrees with predicate 2. *)
Lemma shouldGenerateTest_default_policy : forall fn,
  analyzer.isTestFunction (models.FunctionInfo.Name fn)
  = Ok (spec.test_naming (models.FunctionInfo.Name fn)) ->
  analyzer.shouldGenerateTest fn
  = Ok (spec.selected (config.Filtering config.DefaultConfig) fn).
Proof.
  intros fn H. rewrite (shouldGenerateTest_fixed_policy fn _ H).
  unfold spec.selected. cbn [config.Filtering config.DefaultConfig
    config.IncludeUnexported config.MaxComplexity]. now rewrite orb_false_r.
Qed.

(* ================================================================== *)
(** ** The complexity profile of a function descriptor *)
(* ================================================================== *)

Section Complexity.
Import parser.

Lemma backfillErrors_spec : forall returns c,
  let c' := backfillErrors returns c in
  ComplexityInfo.HasErrors c'
  = (ComplexityInfo.HasErrors c
     || existsb (fun ret => streq (ReturnInfo.Type_ ret) (str "error")) returns)
  /\ ComplexityInfo.HasPointers c' = ComplexityInfo.HasPointers c
  /\ ComplexityInfo.CyclomaticComplexity c' = ComplexityInfo.CyclomaticComplexity c
  /\ ComplexityInfo.ControlFlowCount c' = ComplexityInfo.ControlFlowCount c.
Proof.
  induction returns as [|r returns IH]; intros c; cbn zeta.
  - cbn. now rewrite orb_false_r.
  - unfold backfillErrors in *. cbn [fold_left existsb].
    destruct (streq (ReturnInfo.Type_ r) (str "error")).
    + specialize (IH (ComplexityInfo.setHasErrors c)). cbn zeta in IH.
      destruct IH as (E & P & C & F). rewrite E, P, C, F. cbn.
      now rewrite orb_true_r.
    + specialize (IH c). cbn zeta in IH. destruct IH as (E & P & C & F).
      rewrite E, P, C, F. now cbn.
Qed.

Lemma backfillPointers_spec : forall parameters c,
  let c' := backfillPointers parameters c in
  ComplexityInfo.HasPointers c'
  = (ComplexityInfo.HasPointers c
     || existsb (fun p => strings.HasPrefix (ParameterInfo.Type_ p) (str "*"))
                parameters)
  /\ ComplexityInfo.HasErrors c' = ComplexityInfo.HasErrors c
  /\ ComplexityInfo.CyclomaticComplexity c' = ComplexityInfo.CyclomaticComplexity c
  /\ ComplexityInfo.ControlFlowCount c' = ComplexityInfo.ControlFlowCount c.
Proof.
  induction parameters as [|p parameters IH]; intros c; cbn zeta.
  - cbn. now rewrite orb_false_r.
  - unfold backfillPointers in *. cbn [fold_left existsb].
    destruct (strings.HasPrefix (ParameterInfo.Type_ p) (str "*")).
    + specialize (IH (ComplexityInfo.setHasPointers c)). cbn zeta in IH.
      destruct IH as (P & E & C & F). rewrite E, P, C, F. cbn.
      now rewrite orb_true_r.
    + specialize (IH c). cbn zeta in IH. destruct IH as (P & E & C & F).
      rewrite E, P, C, F. now cbn.
Qed.

Lemma analyzeFunctionDecl_Complexity : forall host d path,
  let fn := analyzeFunctionDecl host d path in
  FunctionInfo.Complexity fn
  = (let c := backfillPointers (FunctionInfo.Parameters fn)
                (backfillErrors (FunctionInfo.Returns fn) (walkedComplexity d)) in
     if receiverIsPointer (FunctionInfo.IsMethod fn) (FunctionInfo.Receiver fn)
     then ComplexityInfo.setHasPointers c else c).
Proof. reflexivity. Qed.

Lemma complexityVisitor_count : forall nodes c,
  ComplexityInfo.ControlFlowCount c
  <= ComplexityInfo.ControlFlowCount (fold_left complexityVisitor nodes c).
Proof.
  induction nodes as [|n nodes IH]; intros c; cbn [fold_left]; [lia|].
  etransitivity; [|apply IH].
  unfold complexityVisitor.
  repeat match goal with
         | |- context [match ?x with _ => _ end] => destruct x
         end; cbn; lia.
Qed.

Lemma analyzeComplexity_at_least_1 : forall body,
  1 <= ComplexityInfo.CyclomaticComplexity (analyzeComplexity body)
  /\ ComplexityInfo.CyclomaticComplexity (analyzeComplexity body)
     = ComplexityInfo.ControlFlowCount (analyzeComplexity body) + 1.
Proof.
  intros body. unfold analyzeComplexity, ast.Inspect.
  pose proof (complexityVisitor_count (ast.Walk (ast.NStmt (ast.BlockStmt body)))
                ComplexityInfo.zero) as H.
  cbn in H |- *. lia.
Qed.

(** A descriptor of a declaration with a body has an estimate of at least
    1, one more than its control-flow count. *)
Lemma analyzeFunctionDecl_with_body : forall host d path body,
  ast.fd_Body d = Some body ->
  let c := FunctionInfo.Complexity (analyzeFunctionDecl host d path) in
  1 <= ComplexityInfo.CyclomaticComplexity c
  /\ ComplexityInfo.CyclomaticComplexity c = ComplexityInfo.ControlFlowCount c + 1.
Proof.
  intros host d path body Hb. cbn zeta. rewrite analyzeFunctionDecl_Complexity.
  cbn zeta.
  set (fn := analyzeFunctionDecl host d path).
  destruct (backfillPointers_spec (FunctionInfo.Parameters fn)
              (backfillErrors (FunctionInfo.Returns fn) (walkedComplexity d)))
    as (_ & _ & C1 & F1).
  destruct (backfillErrors_spec (FunctionInfo.Returns fn) (walkedComplexity d))
    as (_ & _ & C2 & F2).
  assert (HW : walkedComplexity d = analyzeComplexity body)
    by (unfold walkedComplexity; now rewrite Hb).
  pose proof (analyzeComplexity_at_least_1 body) as [H1 H2].
  destruct (receiverIsPointer _ _); cbn [ComplexityInfo.setHasPointers
    ComplexityInfo.CyclomaticComplexity ComplexityInfo.ControlFlowCount];
    rewrite C1, C2, F1, F2, HW; auto.
Qed.

Lemma analyzeFunctionDecl_with_body_GetName :
  1 <= ComplexityInfo.CyclomaticComplexity
         (FunctionInfo.Complexity
            (analyzeFunctionDecl scenario.emptyHost scenario.getName (str "user.go"))).
Proof.
  refine (proj1 (analyzeFunctionDecl_with_body scenario.emptyHost scenario.getName
                   (str "user.go") _ _)).
  reflexivity.
Defined.

(** The descriptor of a declaration without a body keeps the zero value of
    the profile: [analyzeComplexity], which adds 1 to the control-flow
    count, is not run for it. *)
Lemma analyzeFunctionDecl_without_body : forall host d path,
  ast.fd_Body d = None ->
  let c := FunctionInfo.Complexity (analyzeFunctionDecl host d path) in
  ComplexityInfo.CyclomaticComplexity c = 0
  /\ ComplexityInfo.ControlFlowCount c = 0.
Proof.
  intros host d path Hb. cbn zeta. rewrite analyzeFunctionDecl_Complexity.
  cbn zeta.
  set (fn := analyzeFunctionDecl host d path).
  destruct (backfillPointers_spec (FunctionInfo.Parameters fn)
              (backfillErrors (FunctionInfo.Returns fn) (walkedComplexity d)))
    as (_ & _ & C1 & F1).
  destruct (backfillErrors_spec (FunctionInfo.Returns fn) (walkedComplexity d))
    as (_ & _ & C2 & F2).
  assert (HW : walkedComplexity d = ComplexityInfo.zero)
    by (unfold walkedComplexity; now rewrite Hb).
  destruct (receiverIsPointer _ _); cbn [ComplexityInfo.setHasPointers
    ComplexityInfo.CyclomaticComplexity ComplexityInfo.ControlFlowCount];
    rewrite C1, C2, F1, F2, HW; split; reflexivity.
Qed.

Lemma analyzeFunctionDecl_without_body_Sqrt :
  ComplexityInfo.CyclomaticComplexity
    (FunctionInfo.Complexity
       (analyzeFunctionDecl scenario.emptyHost scenario.sqrtDecl (str "math.go")))
  = 0.
Proof.
  refine (proj1 (analyzeFunctionDecl_without_body scenario.emptyHost
                   scenario.sqrtDecl (str "math.go") _)).
  reflexivity.
Defined.

(** C3 as stated fails: the descriptor of the bodiless declaration
    [func Sqrt(x float64) float64] has the estimate 0. *)
Lemma estimate_at_least_1_fails_without_body :
  ~ (forall host d path,
       1 <= ComplexityInfo.CyclomaticComplexity
              (FunctionInfo.Complexity (analyzeFunctionDecl host d path))).
Proof.
  intros H.
  specialize (H scenario.emptyHost scenario.sqrtDecl (str "math.go")).
  rewrite analyzeFunctionDecl_without_body_Sqrt in H. lia.
Qed.

(** C3 (amended).  The estimate of a descriptor follows the body of its
    declaration: with a body it is the control-flow count plus 1, so at
    least 1; without a body the complexity walk is not run and it is 0. *)
Theorem analyzeFunctionDecl_estimate : forall host d path,
  let c := FunctionInfo.Complexity (analyzeFunctionDecl host d path) in
  match ast.fd_Body d with
  | Some _ =>
      1 <= ComplexityInfo.CyclomaticComplexity c
      /\ ComplexityInfo.CyclomaticComplexity c
         = ComplexityInfo.ControlFlowCount c + 1
  | None => ComplexityInfo.CyclomaticComplexity c = 0
  end.
Proof.
  intros host d path. cbn zeta. destruct (ast.fd_Body d) as [body|] eqn:Hb.
  - exact (analyzeFunctionDecl_with_body host d path body Hb).
  - exact (proj1 (analyzeFunctionDecl_without_body host d path Hb)).
Qed.

Lemma analyzeFunctionDecl_IsMethod : forall host d path,
  let fn := analyzeFunctionDecl host d path in
  FunctionInfo.IsMethod fn
  = match FunctionInfo.Receiver fn with Some _ => true | None => false end.
Proof. reflexivity. Qed.

(** Every field of a declared list gives at least one entry, of the type
    of the field as [extractTypeString] renders it. *)
Lemma fieldEntries_declared : forall fields l f,
  fields = Some l -> In f l ->
  exists name,
    In (name, extractTypeString (ast.field_Type f)) (fieldEntries fields).
Proof.
  intros fields l f -> Hin. cbn [fieldEntries].
  destruct (ast.field_Names f) as [|n names] eqn:E.
  - exists []. apply in_flat_map. exists f. split; [exact Hin|].
    rewrite E. now left.
  - exists n. apply in_flat_map. exists f. split; [exact Hin|].
    rewrite E. now left.
Qed.

(** C7.  The signature backfill of [analyzeFunctionDecl], with or without
    a body, read on the declaration: a declared result whose type is
    "error" sets [HasErrors]; a declared parameter, or the receiver, whose
    type begins with "*" sets [HasPointers].  For the method
    [func (u *User) GetName() string] of Scenario D the descriptor has
    [IsMethod], the receiver type "*User" and [HasPointers], though the
    walk over its body finds no pointer. *)
Theorem analyzeFunctionDecl_signature_backfill :
  (forall host d path,
     let fn := analyzeFunctionDecl host d path in
     (forall results f,
        ast.ft_Results (ast.fd_Type d) = Some results ->
        In f results ->
        extractTypeString (ast.field_Type f) = str "error" ->
        ComplexityInfo.HasErrors (FunctionInfo.Complexity fn) = true)
     /\ (forall params f,
           ast.ft_Params (ast.fd_Type d) = Some params ->
           In f params ->
           strings.HasPrefix (extractTypeString (ast.field_Type f)) (str "*") = true ->
           ComplexityInfo.HasPointers (FunctionInfo.Complexity fn) = true)
     /\ (forall receiver rest,
           ast.fd_Recv d = Some (receiver :: rest) ->
           strings.HasPrefix (extractTypeString (ast.field_Type receiver)) (str "*")
           = true ->
           ComplexityInfo.HasPointers (FunctionInfo.Complexity fn) = true))
  /\
  (forall host path,
     let fn := analyzeFunctionDecl host scenario.getName path in
     FunctionInfo.IsMethod fn = true
     /\ FunctionInfo.Receiver fn = Some (ReceiverInfo.mk (str "u") (str "*User"))
     /\ ComplexityInfo.HasPointers (FunctionInfo.Complexity fn) = true
     /\ ComplexityInfo.HasPointers (walkedComplexity scenario.getName) = false).
Proof.
  split.
  - intros host d path. cbn zeta.
    rewrite analyzeFunctionDecl_Complexity. cbn zeta.
    set (fn := analyzeFunctionDecl host d path).
    destruct (backfillPointers_spec (FunctionInfo.Parameters fn)
                (backfillErrors (FunctionInfo.Returns fn) (walkedComplexity d)))
      as (P1 & E1 & _ & _).
    destruct (backfillErrors_spec (FunctionInfo.Returns fn) (walkedComplexity d))
      as (E2 & _ & _ & _).
    repeat split.
    + intros results f Hres Hin Hty.
      destruct (fieldEntries_declared _ _ _ Hres Hin) as (name & He).
      assert (X : existsb (fun ret => streq (ReturnInfo.Type_ ret) (str "error"))
                    (FunctionInfo.Returns fn) = true).
      { apply existsb_exists.
        exists (ReturnInfo.mk name (extractTypeString (ast.field_Type f))).
        split.
        - change (FunctionInfo.Returns fn)
            with (map (fun e => ReturnInfo.mk (fst e) (snd e))
                      (fieldEntries (ast.ft_Results (ast.fd_Type d)))).
          exact (in_map (fun e => ReturnInfo.mk (fst e) (snd e)) _ _ He).
        - cbn [ReturnInfo.Type_]. now apply streq_eq. }
      destruct (receiverIsPointer _ _);
        cbn [ComplexityInfo.setHasPointers ComplexityInfo.HasErrors];
        rewrite E1, E2, X; apply orb_true_r.
    + intros params f Hpar Hin Hty.
      destruct (fieldEntries_declared _ _ _ Hpar Hin) as (name & He).
      assert (X : existsb (fun p => strings.HasPrefix (ParameterInfo.Type_ p) (str "*"))
                    (FunctionInfo.Parameters fn) = true).
      { apply existsb_exists.
        exists (ParameterInfo.mk name (extractTypeString (ast.field_Type f))).
        split.
        - change (FunctionInfo.Parameters fn)
            with (map (fun e => ParameterInfo.mk (fst e) (snd e))
                      (fieldEntries (ast.ft_Params (ast.fd_Type d)))).
          exact (in_map (fun e => ParameterInfo.mk (fst e) (snd e)) _ _ He).
        - exact Hty. }
      destruct (receiverIsPointer _ _);
        cbn [ComplexityInfo.setHasPointers ComplexityInfo.HasPointers];
        [reflexivity|]. rewrite P1, X. apply orb_true_r.
    + intros receiver rest Hr Hty.
      assert (R : receiverIsPointer (FunctionInfo.IsMethod fn) (FunctionInfo.Receiver fn)
                  = true).
      { subst fn. unfold analyzeFunctionDecl.
        cbn [FunctionInfo.IsMethod FunctionInfo.Receiver]. rewrite Hr.
        cbn [receiverIsPointer ReceiverInfo.Type_]. exact Hty. }
      rewrite R. reflexivity.
  - intros host path. cbn zeta. repeat split; reflexivity.
Qed.

Lemma analyzeFunctionDecl_signature_backfill_witness :
  let save := analyzeFunctionDecl scenario.emptyHost scenario.saveDecl (str "store.go") in
  let name := analyzeFunctionDecl scenario.emptyHost scenario.getName (str "user.go") in
  ast.fd_Body scenario.saveDecl = None
  /\ ComplexityInfo.HasErrors (FunctionInfo.Complexity save) = true
  /\ ComplexityInfo.HasPointers (FunctionInfo.Complexity save) = true
  /\ ComplexityInfo.HasPointers (FunctionInfo.Complexity name) = true.
Proof.
  cbn zeta. split; [reflexivity|]. split; [|split].
  - refine (proj1 (proj1 analyzeFunctionDecl_signature_backfill
                     scenario.emptyHost scenario.saveDecl (str "store.go"))
              [ast.mkField [] (ast.Ident (str "error")) None]
              (ast.mkField [] (ast.Ident (str "error")) None) _ _ _).
    + reflexivity.
    + now left.
    + reflexivity.
  - refine (proj1 (proj2 (proj1 analyzeFunctionDecl_signature_backfill
                            scenario.emptyHost scenario.saveDecl (str "store.go")))
              [ast.mkField [str "u"] (ast.StarExpr (ast.Ident (str "User"))) None]
              (ast.mkField [str "u"] (ast.StarExpr (ast.Ident (str "User"))) None)
              _ _ _).
    + reflexivity.
    + now left.
    + reflexivity.
  - refine (proj2 (proj2 (proj1 analyzeFunctionDecl_signature_backfill
                            scenario.emptyHost scenario.getName (str "user.go")))
              (ast.mkField [str "u"] (ast.StarExpr (ast.Ident (str "User"))) None)
              [] _ _).
    + reflexivity.
    + reflexivity.
Defined.

End Complexity.

(* ================================================================== *)
(** ** [ParseFile] and the map of variables *)
(* ================================================================== *)

Section ParseFileFacts.
Import parser.

Lemma foldM_Panic_inv : forall (A S : Type) (body : S -> A -> result S)
  (P : result S -> Prop),
  (forall m, P (Panic m) -> forall x, P (bind (Panic m) (fun s => body s x))) ->
  (forall s x, P (Ok s) -> P (body s x)) ->
  forall l s, P (Ok s) -> P (foldM body s l).
Proof.
  intros A S body P HP HO. induction l as [|x l IH]; intros s Hs; cbn [foldM].
  - exact Hs.
  - specialize (HO s x Hs). destruct (body s x) as [s'|m] eqn:E; cbn [bind].
    + now apply IH.
    + exact HO.
Qed.

Lemma assignValues_Constants : forall names i values l,
  exists l', assignValues (Some l) names i values = Ok (Some l').
Proof.
  induction names as [|n names IH]; intros i values l; cbn [assignValues].
  - now exists l.
  - destruct (nth_error values i); cbn [map_assign bind]; apply IH.
Qed.

Lemma assignValues_nil : forall names i values,
  assignValues None names i values = Ok None
  \/ assignValues None names i values = Panic nilmap_msg.
Proof.
  induction names as [|n names IH]; intros i values; cbn [assignValues].
  - now left.
  - destruct (nth_error values i); cbn [map_assign bind]; [now right|apply IH].
Qed.

Lemma analyzeGenDecl_variablesNil : forall tok specs a,
  FileAnalysis.Variables a = None ->
  variablesNil (analyzeGenDecl tok specs a).
Proof.
  intros tok specs a Ha. unfold analyzeGenDecl.
  apply (foldM_Panic_inv _ _ _ variablesNil); [easy| |exact Ha].
  clear a Ha. intros a spec Ha. cbn [variablesNil] in Ha.
  destruct spec as [i|names t values|name tp t]; [exact Ha| |exact Ha].
  destruct tok; try exact Ha.
  - destruct (FileAnalysis.Constants a) as [l|] eqn:EC.
    + destruct (assignValues_Constants names 0 values l) as [l' ->].
      cbn [bind variablesNil FileAnalysis.Variables]. exact Ha.
    + destruct (assignValues_nil names 0 values) as [-> | ->];
        cbn [bind variablesNil FileAnalysis.Variables]; auto.
  - rewrite Ha.
    destruct (assignValues_nil names 0 values) as [-> | ->];
      cbn [bind variablesNil FileAnalysis.Variables]; auto.
Qed.

Lemma fileVisitor_variablesNil : forall host path r n,
  variablesNil r -> variablesNil (fileVisitor host path r n).
Proof.
  intros host path [a|m] n H; cbn [fileVisitor bind]; [|exact H].
  cbn [variablesNil] in H.
  destruct n as [e|s|s|d|f|l|f]; try exact H.
  destruct d as [|tok specs|fd]; [exact H| |exact H].
  now apply analyzeGenDecl_variablesNil.
Qed.

Lemma fold_fileVisitor_variablesNil : forall host path nodes r,
  variablesNil r -> variablesNil (fold_left (fileVisitor host path) nodes r).
Proof.
  intros host path. induction nodes as [|n nodes IH]; intros r H; cbn [fold_left]; [exact H|].
  apply IH. now apply fileVisitor_variablesNil.
Qed.

Lemma fold_fileVisitor_Panic : forall host path nodes m,
  fold_left (fileVisitor host path) nodes (Panic m) = Panic m.
Proof.
  intros host path. induction nodes as [|n nodes IH]; intros m; cbn [fold_left]; [reflexivity|].
  apply IH.
Qed.

Lemma analyzeGenDecl_VAR_panics : forall pre s post a,
  FileAnalysis.Variables a = None ->
  initializedVar s ->
  analyzeGenDecl ast.VAR (pre ++ s :: post) a = Panic nilmap_msg.
Proof.
  intros pre s post a Ha (name & names & t & v & values & ->).
  unfold analyzeGenDecl. revert a Ha.
  induction pre as [|p pre IH]; intros a Ha.
  - cbn [app foldM]. rewrite Ha. reflexivity.
  - cbn [app foldM].
    pose proof (analyzeGenDecl_variablesNil ast.VAR [p] a Ha) as H.
    unfold analyzeGenDecl in H. cbn [foldM] in H.
    match goal with
    | H : variablesNil (bind ?step _) |- bind ?step' _ = _ =>
        change step' with step; destruct step as [a'|m]
    end; cbn [bind variablesNil] in *.
    + now apply IH.
    + now subst.
Qed.

(** C4.  Code defect: [ParseFile] makes the map of constants but leaves
    the map of variables nil, so on a file with a top-level [var]
    declaration that has an initializer it does not return a [FileAnalysis]:
    the assignment [analysis.Variables[name] = ...] panics. *)
Theorem ParseFile_panics_on_initialized_var :
  forall host filePath node before specsBefore s specsAfter after,
  go_parser_ParseFile host filePath = inl node ->
  ast.file_Decls node
  = before ++ ast.GenDecl ast.VAR (specsBefore ++ s :: specsAfter) :: after ->
  initializedVar s ->
  ParseFile host filePath = Panic nilmap_msg.
Proof.
  intros host filePath node before specsBefore s specsAfter after Hp Hd Hs.
  unfold ParseFile. rewrite Hp. unfold ast.Inspect.
  cbn [ast.Walk]. rewrite Hd, flat_map_app. cbn [flat_map ast.walkDecl].
  cbn [fold_left]. rewrite !fold_left_app. cbn [fold_left].
  match goal with
  | |- bind (fold_left _ _ (fold_left _ _ (fileVisitor _ _ ?r ?n))) _ = _ =>
      assert (Hr : variablesNil r);
      [| assert (HP : fileVisitor host filePath r n = Panic nilmap_msg);
         [| rewrite HP, !fold_fileVisitor_Panic; reflexivity]]
  end.
  - apply fold_fileVisitor_variablesNil, fold_fileVisitor_variablesNil.
    cbn [fileVisitor bind variablesNil].
    match goal with
    | |- FileAnalysis.Variables (fold_left ?f _ _) = None =>
        assert (HI : forall l a0, FileAnalysis.Variables a0 = None ->
                       FileAnalysis.Variables (fold_left f l a0) = None)
    end.
    { induction l as [|x l IH]; intros a0 H0; cbn [fold_left];
        [exact H0 | apply IH; exact H0]. }
    apply HI. reflexivity.
  - match type of Hr with
    | variablesNil ?r => destruct r as [a|m]
    end; cbn [variablesNil] in Hr.
    + cbn [fileVisitor bind]. now apply analyzeGenDecl_VAR_panics.
    + now subst.
Qed.

Lemma ParseFile_panics_on_var_x :
  ParseFile (scenario.hostOf scenario.varFile) (str "p.go") = Panic nilmap_msg.
Proof.
  apply (ParseFile_panics_on_initialized_var (scenario.hostOf scenario.varFile)
           (str "p.go") scenario.varFile [] []
           (ast.ValueSpec [str "x"] None [ast.BasicLit (str "1")]) [] []);
    [reflexivity | reflexivity |].
  exists (str "x"), [], None, (ast.BasicLit (str "1")), []. reflexivity.
Defined.

End ParseFileFacts.

(* ================================================================== *)
(** ** The diff parser never fails *)
(* ================================================================== *)

Lemma HasPrefix_len : forall p s,
  strings.HasPrefix s p = true -> len p <= len s.
Proof.
  intros p s H. apply HasPrefix_split in H.
  apply (f_equal (@len ascii)) in H. rewrite len_app in H.
  pose proof (len_nonneg _ (skipn (length p) s)). lia.
Qed.

Lemma Index_bounds : forall sep s,
  strings.Index s sep = -1
  \/ (0 <= strings.Index s sep /\ strings.Index s sep + len sep <= len s).
Proof.
  intros sep. induction s as [|c s IH]; cbn [strings.Index].
  - destruct (strings.HasPrefix [] sep) eqn:E; [|now left].
    right. apply HasPrefix_len in E. lia.
  - destruct (strings.HasPrefix (c :: s) sep) eqn:E.
    + right. apply HasPrefix_len in E. lia.
    + cbn zeta. destruct (strings.Index s sep <? 0) eqn:L; [now left|].
      apply Z.ltb_ge in L. right. rewrite len_cons.
      destruct IH as [IH|IH]; lia.
Qed.

Lemma extractFunctionName_total : forall line,
  exists name, git.extractFunctionName line = Ok name.
Proof.
  intros line. unfold git.extractFunctionName. cbv zeta.
  set (l0 := strings.TrimSpace line).
  assert (H1 : exists l1,
             (if strings.HasPrefix l0 (str "+") || strings.HasPrefix l0 (str "-")
                 || strings.HasPrefix l0 (str " ")
              then rest <- slice_from l0 1 ;; Ok (strings.TrimSpace rest)
              else Ok l0) = Ok l1).
  { destruct (_ || _) eqn:E; [|now eexists].
    assert (1 <= len l0).
    { apply orb_true_iff in E as [E|E]; [apply orb_true_iff in E as [E|E]|];
        apply HasPrefix_len in E; exact E. }
    rewrite slice_from_ok by lia. cbn [bind]. now eexists. }
  destruct H1 as [l1 ->]. cbn [bind].
  destruct (negb (strings.HasPrefix l1 (str "func "))); [now eexists|].
  set (l2 := strings.TrimSpace (strings.TrimPrefix l1 (str "func "))).
  assert (H3 : exists l3,
             (if strings.HasPrefix l2 (str "(")
              then if negb (strings.Index l2 (str ") ") =? -1)
                   then rest <- slice_from l2 (strings.Index l2 (str ") ") + 2) ;;
                        Ok (strings.TrimSpace rest)
                   else Ok l2
              else Ok l2) = Ok l3).
  { destruct (strings.HasPrefix l2 (str "(")); [|now eexists].
    destruct (strings.Index l2 (str ") ") =? -1) eqn:E;
      cbn [negb]; [now eexists|].
    apply Z.eqb_neq in E.
    destruct (Index_bounds (str ") ") l2) as [B|B]; [contradiction|].
    change (len (str ") ")) with 2 in B.
    rewrite slice_from_ok by lia. cbn [bind]. now eexists. }
  destruct H3 as [l3 ->]. cbn [bind].
  destruct (strings.Index l3 (str "(") =? -1) eqn:E; [now eexists|].
  apply Z.eqb_neq in E.
  destruct (Index_bounds (str "(") l3) as [B|B]; [contradiction|].
  change (len (str "(")) with 1 in B.
  rewrite slice_to_ok by lia. cbn [bind]. now eexists.
Qed.

Lemma parseDiffLine_total : forall line currentFunction,
  git.parseDiffLine line currentFunction = Ok None
  \/ exists c, git.parseDiffLine line currentFunction = Ok (Some c)
               /\ git.Function c = currentFunction.
Proof.
  intros [|c line] cf; [now left|].
  unfold git.parseDiffLine. rewrite len_cons.
  assert (E : (len line + 1 =? 0) = false)
    by (apply Z.eqb_neq; pose proof (len_nonneg _ line); lia).
  rewrite E, index_at_0. cbn [bind].
  assert (S : slice_from (c :: line) 1 = Ok line).
  { rewrite slice_from_ok; [reflexivity|].
    rewrite len_cons. pose proof (len_nonneg _ line). lia. }
  rewrite S. cbn [bind].
  destruct (Ascii.eqb c "+"); [right; eexists; split; reflexivity|].
  destruct (Ascii.eqb c "-"); [right; eexists; split; reflexivity|].
  destruct (Ascii.eqb c " "); [right; eexists; split; reflexivity|].
  now left.
Qed.

Lemma parseDiffLine_unmarked : forall line currentFunction,
  match line with
  | [] => True
  | c :: _ => c <> "+"%char /\ c <> "-"%char /\ c <> " "%char
  end ->
  git.parseDiffLine line currentFunction = Ok None.
Proof.
  intros [|c line] cf H; [reflexivity|].
  unfold git.parseDiffLine. rewrite len_cons.
  assert (E : (len line + 1 =? 0) = false)
    by (apply Z.eqb_neq; pose proof (len_nonneg _ line); lia).
  rewrite E, index_at_0. cbn [bind].
  destruct H as (Hp & Hm & Hs).
  apply Ascii.eqb_neq in Hp, Hm, Hs. now rewrite Hp, Hm, Hs.
Qed.

Lemma foldM_invariant : forall (A S : Type) (body : S -> A -> result S)
  (P : S -> Prop),
  (forall s x, P s -> exists s', body s x = Ok s' /\ P s') ->
  forall l s, P s -> exists s', foldM body s l = Ok s' /\ P s'.
Proof.
  intros A S body P H. induction l as [|x l IH]; intros s Hs; cbn [foldM].
  - now exists s.
  - destruct (H s x Hs) as (s' & -> & Hs'). cbn [bind]. now apply IH.
Qed.

(* ================================================================== *)
(** ** Tags and the seen-list *)
(* ================================================================== *)

Lemma addFunctionIfModified_Changes : forall f name,
  git.Changes (git.addFunctionIfModified f name) = git.Changes f.
Proof.
  intros f name. unfold git.addFunctionIfModified.
  destruct (streq name []); [reflexivity|].
  destruct (existsb _ _); reflexivity.
Qed.

Lemma addFunctionIfModified_incl : forall f name x,
  In x (git.Functions f) -> In x (git.Functions (git.addFunctionIfModified f name)).
Proof.
  intros f name x H. unfold git.addFunctionIfModified.
  destruct (streq name []); [exact H|].
  destruct (existsb _ _); [exact H|].
  cbn [git.Functions]. apply in_or_app. now left.
Qed.

Lemma addFunctionIfModified_In : forall f name,
  streq name [] = false ->
  In name (git.Functions (git.addFunctionIfModified f name)).
Proof.
  intros f name H. unfold git.addFunctionIfModified. rewrite H.
  destruct (existsb _ _) eqn:E.
  - apply existsb_exists in E as (x & Hx & Hs). apply streq_eq in Hs. now subst.
  - cbn [git.Functions]. apply in_or_app. right. now left.
Qed.

Lemma addFunctionIfModified_tagsSeen : forall f name,
  git.tagsSeen f -> git.tagsSeen (git.addFunctionIfModified f name).
Proof.
  intros f name H c Hc. rewrite addFunctionIfModified_Changes in Hc.
  destruct (H c Hc) as [E|E]; [now left|right].
  now apply addFunctionIfModified_incl.
Qed.

Lemma scan_line_invariant : forall st line,
  git.scanInvariant st ->
  exists st', git.scan_line st line = Ok st' /\ git.scanInvariant st'.
Proof.
  intros [files cur fn num] line [HF HC]. cbn [git.result_Files git.currentFile
    git.currentFunction] in HF, HC.
  unfold git.scan_line.
  destruct (git.fileHeaderRegex line) as [[oldPath newPath]|].
  { eexists. split; [reflexivity|]. split; cbn.
    - unfold git.close_file. cbn. destruct cur as [f|]; [|exact HF].
      apply Forall_app. split; [exact HF|]. constructor; [apply HC|constructor].
    - split; [intros c []|now left]. }
  destruct (git.hunkHeaderRegex line) as [[[[[g1 g2] g3] g4] funcContext]|].
  { cbn [git.result_Files git.currentFile git.currentFunction git.lineNum].
    destruct (negb (streq funcContext [])).
    - destruct (extractFunctionName_total funcContext) as [name ->]. cbn [bind].
      destruct (streq name []) eqn:En; cbn [negb bind].
      + eexists. split; [reflexivity|]. now split.
      + eexists. split; [reflexivity|]. split; [exact HF|]. cbn.
        destruct cur as [f|]; cbn [option_map]; [|exact I].
        split; [apply addFunctionIfModified_tagsSeen, HC|].
        right. now apply addFunctionIfModified_In.
    - cbn [bind]. eexists. split; [reflexivity|]. now split. }
  destruct (_ || _).
  { eexists. split; [reflexivity|]. now split. }
  cbn [git.currentFile git.currentFunction git.result_Files git.lineNum].
  destruct cur as [f|]; [|eexists; split; [reflexivity|now split]].
  destruct HC as [HT HN].
  destruct (parseDiffLine_total line fn) as [-> | (c & -> & Hc)]; cbn [bind].
  { eexists. split; [reflexivity|]. now split. }
  set (f1 := git.mkFileDiff (git.OldPath f) (git.NewPath f) _ (git.Functions f)).
  assert (HT1 : git.tagsSeen f1).
  { intros x Hx. cbn [f1 git.Changes git.Functions] in Hx |- *.
    apply in_app_or in Hx as [Hx|[<-|[]]]; [now apply HT|].
    cbn [git.Function]. now rewrite Hc. }
  cbn [git.Type_ git.Line].
  destruct (_ && _).
  - destruct (extractFunctionName_total (git.Line c)) as [name ->]. cbn [bind].
    destruct (streq name []) eqn:En; cbn [negb bind].
    + eexists. split; [reflexivity|]. split; [exact HF|]. cbn. now split.
    + eexists. split; [reflexivity|]. split; [exact HF|]. cbn.
      split; [now apply addFunctionIfModified_tagsSeen|].
      right. now apply addFunctionIfModified_In.
  - cbn [bind]. eexists. split; [reflexivity|]. split; [exact HF|]. cbn. now split.
Qed.

Lemma parseDiff_result : forall text,
  exists st,
    git.parseDiff text = Ok (Some (git.mkDiffResult (git.close_file st)), None)
    /\ git.scanInvariant st.
Proof.
  intros text. unfold git.parseDiff.
  destruct (foldM_invariant _ _ git.scan_line git.scanInvariant scan_line_invariant
              (bufio.ScanLines text) git.initial_state) as (st & -> & Hst).
  - split; [constructor|exact I].
  - exists st. now split.
Qed.

(** C6.  For every diff text [parseDiff] returns a result in which every
    change of every file is tagged with the empty string or with a name of
    that file's seen-list. *)
Theorem parseDiff_tags_in_seen_list : forall text,
  exists r,
    git.parseDiff text = Ok (Some r, None)
    /\ forall f, In f (git.Files r) ->
       forall c, In c (git.Changes f) ->
         git.Function c = [] \/ In (git.Function c) (git.Functions f).
Proof.
  intros text. destruct (parseDiff_result text) as (st & E & HF & HC).
  eexists. split; [exact E|]. cbn [git.Files]. intros f Hf.
  assert (HA : Forall git.tagsSeen (git.close_file st)).
  { unfold git.close_file. destruct (git.currentFile st) as [g|]; [|exact HF].
    apply Forall_app. split; [exact HF|]. constructor; [apply HC|constructor]. }
  rewrite Forall_forall in HA. exact (HA f Hf).
Qed.

(** C8.  For every input string [parseDiff] and [ParseDiff] return a
    result that is not nil and a nil error; a line that is no header, no
    metadata and carries no change marker is passed over: but for the line
    counter, the scan state is unchanged. *)
Theorem parseDiff_never_fails :
  (forall text, exists r,
      git.parseDiff text = Ok (Some r, None)
      /\ git.ParseDiff text = Ok (Some r, None))
  /\ (forall st line,
        git.unrecognized line -> git.scan_line st line = Ok (git.skipLine st)).
Proof.
  split.
  - intros text. destruct (parseDiff_result text) as (st & E & _).
    eexists. split; exact E.
  - intros st line (H1 & H2 & H3 & H4). unfold git.scan_line.
    rewrite H1, H2, H3. unfold git.skipLine.
    destruct (git.currentFile st) as [f|] eqn:Ef.
    + rewrite (parseDiffLine_unmarked line _ H4). cbn [bind].
      now rewrite Ef.
    + destruct st; cbn in *. now subst.
Qed.

Lemma parseDiff_never_fails_on_garbage :
  git.scan_line (git.mkScanState [] (Some (git.mkFileDiff (str "a") (str "b") [] []))
                   (str "f") 3)
                (str "\ No newline at end of file")
  = Ok (git.mkScanState [] (Some (git.mkFileDiff (str "a") (str "b") [] []))
          (str "f") 4).
Proof.
  refine (proj2 parseDiff_never_fails _ _ _).
  repeat split; try reflexivity; discriminate.
Defined.

(* ================================================================== *)
(** ** Scenario A of the diff parser *)
(* ================================================================== *)

(** X12.  Every added line is tagged with the function tracked before the
    line is read, the declaration line of a new function included: the
    tracker moves only after the change is recorded. *)
Lemma added_line_tag : forall st f text,
  git.currentFile st = Some f ->
  strings.HasPrefix ("+"%char :: text) (str "+++ ") = false ->
  exists st' f',
    git.scan_line st ("+"%char :: text) = Ok st'
    /\ git.currentFile st' = Some f'
    /\ git.Changes f'
       = git.Changes f
         ++ [git.mkDiffChange git.Added text (git.lineNum st) (git.currentFunction st)].
Proof.
  intros [files cur fn num] f text Hc Hm. cbn [git.currentFile] in Hc. subst cur.
  unfold git.scan_line.
  change (git.fileHeaderRegex ("+"%char :: text)) with (@None (gostring * gostring)).
  change (git.hunkHeaderRegex ("+"%char :: text))
    with (@None (gostring * gostring * gostring * gostring * gostring)).
  change (strings.HasPrefix ("+"%char :: text) (str "index ")) with false.
  change (strings.HasPrefix ("+"%char :: text) (str "--- ")) with false.
  rewrite Hm. cbn [orb git.currentFile git.currentFunction git.lineNum git.result_Files].
  assert (EP : git.parseDiffLine ("+"%char :: text) fn
               = Ok (Some (git.mkDiffChange git.Added text 0 fn))).
  { unfold git.parseDiffLine. rewrite len_cons.
    assert (E : (len text + 1 =? 0) = false)
      by (apply Z.eqb_neq; pose proof (len_nonneg _ text); lia).
    rewrite E, index_at_0. cbn [bind Ascii.eqb Bool.eqb andb].
    rewrite slice_from_ok by (rewrite len_cons; pose proof (len_nonneg _ text); lia).
    reflexivity. }
  rewrite EP. cbn [bind git.Type_ git.Line git.Function git.ChangeType_eqb orb andb].
  destruct (strings.Contains text (str "func ")).
  - destruct (extractFunctionName_total text) as [name ->]. cbn [bind].
    destruct (streq name []); cbn [negb bind];
      eexists; eexists; (split; [reflexivity|]); cbn [git.currentFile];
      (split; [reflexivity|]);
      rewrite ?addFunctionIfModified_Changes; reflexivity.
  - cbn [bind]. eexists; eexists. split; [reflexivity|]. cbn [git.currentFile].
    split; reflexivity.
Qed.

Lemma added_line_tag_DeleteUser :
  exists st' f',
    git.scan_line
      (git.mkScanState [] (Some (git.mkFileDiff (str "user.go") (str "user.go") []
                                   [str "CreateUser"])) (str "CreateUser") 2)
      (str "+func DeleteUser(id int) error {") = Ok st'
    /\ git.currentFile st' = Some f'
    /\ git.Changes f'
       = [git.mkDiffChange git.Added (str "func DeleteUser(id int) error {") 2
                           (str "CreateUser")].
Proof.
  exact (added_line_tag
           (git.mkScanState [] (Some (git.mkFileDiff (str "user.go") (str "user.go") []
                                        [str "CreateUser"])) (str "CreateUser") 2)
           (git.mkFileDiff (str "user.go") (str "user.go") [] [str "CreateUser"])
           (str "func DeleteUser(id int) error {") eq_refl eq_refl).
Defined.

(** C1.  Code defect: on the diff of Scenario A the modified set is
    [ValidateUser, CreateUser, DeleteUser].  The added declaration line of
    [DeleteUser] is tagged with the function tracked when it is read,
    [CreateUser], before the tracker moves on; so [CreateUser], which has no
    change of its own, is reported as modified. *)
Theorem scenarioA_modified_functions :
  exists f,
    git.parseDiff scenario.diffA = Ok (Some (git.mkDiffResult [f]), None)
    /\ git.Functions f = [str "ValidateUser"; str "CreateUser"; str "DeleteUser"]
    /\ git.GetModifiedFunctions f
       = [str "ValidateUser"; str "CreateUser"; str "DeleteUser"]
    /\ In (git.mkDiffChange git.Added (str "func DeleteUser(id int) error {") 2
                            (str "CreateUser"))
          (git.Changes f).
Proof.
  eexists. split; [vm_compute; reflexivity|].
  split; [reflexivity|]. split; [reflexivity|].
  cbn [git.Changes]. do 9 right. left. reflexivity.
Qed.


(* ================================================================== *)
(** ** Both entry modes analyze Go sources only *)
(* ================================================================== *)

Lemma FilterGoFiles_filter : forall dr,
  git.FilterGoFiles dr
  = git.mkDiffResult (filter (fun f => git.isGoSource (git.NewPath f)) (git.Files dr)).
Proof.
  intros [files]. unfold git.FilterGoFiles. cbn [git.Files]. f_equal.
  assert (H : forall acc,
             fold_left (fun filtered file =>
                          if git.isGoSource (git.NewPath file)
                          then filtered ++ [file] else filtered) files acc
             = acc ++ filter (fun f => git.isGoSource (git.NewPath f)) files).
  { induction files as [|f files IH]; intros acc; cbn [fold_left filter].
    - now rewrite app_nil_r.
    - rewrite IH. destruct (git.isGoSource (git.NewPath f)); [|reflexivity].
      now rewrite <- app_assoc. }
  apply (H []).
Qed.



Lemma fileVisitor_File : forall host path r n,
  match r with
  | Ok a => Forall (fun fn => parser.FunctionInfo.File fn = path)
                   (parser.FileAnalysis.Functions a)
  | Panic _ => True
  end ->
  match parser.fileVisitor host path r n with
  | Ok a => Forall (fun fn => parser.FunctionInfo.File fn = path)
                   (parser.FileAnalysis.Functions a)
  | Panic _ => True
  end.
Proof.
  intros host path [a|m] n H; cbn [parser.fileVisitor bind]; [|exact I].
  destruct n as [e|s|s|d|f|l|f]; try exact H.
  destruct d as [|tok specs|fd]; [exact H| |].
  - unfold parser.analyzeGenDecl.
    apply (foldM_Panic_inv _ _ _
             (fun r => match r with
                       | Ok a => Forall (fun fn => parser.FunctionInfo.File fn = path)
                                        (parser.FileAnalysis.Functions a)
                       | Panic _ => True
                       end)); [easy| |exact H].
    clear. intros a spec Ha.
    destruct spec as [i|names t values|name tp t]; [exact Ha| |exact Ha].
    destruct tok; try exact Ha.
    + destruct (parser.assignValues _ _ _ _); cbn [bind]; [exact Ha|exact I].
    + destruct (parser.assignValues _ _ _ _); cbn [bind]; [exact Ha|exact I].
  - cbn [parser.FileAnalysis.Functions]. apply Forall_app. split; [exact H|].
    constructor; [reflexivity|constructor].
Qed.

Lemma ParseFile_File : forall host path a err,
  parser.ParseFile host path = Ok (Some a, err) ->
  Forall (fun fn => parser.FunctionInfo.File fn = path)
         (parser.FileAnalysis.Functions a).
Proof.
  intros host path a err. unfold parser.ParseFile.
  destruct (go_parser_ParseFile host path) as [node|e]; [|discriminate].
  unfold ast.Inspect.
  match goal with
  | |- bind (fold_left _ _ (Ok ?x)) _ = _ -> _ => set (a0 := x)
  end.
  assert (H0 : Forall (fun fn => parser.FunctionInfo.File fn = path)
                 (parser.FileAnalysis.Functions a0)).
  { subst a0.
    match goal with
    | |- Forall _ (parser.FileAnalysis.Functions (fold_left ?f _ _)) =>
        assert (HI : forall l a1, parser.FileAnalysis.Functions (fold_left f l a1)
                                  = parser.FileAnalysis.Functions a1)
    end.
    { induction l as [|x l IH]; intros a1; cbn [fold_left];
        [reflexivity | now rewrite IH]. }
    rewrite HI. constructor. }
  clearbody a0.
  assert (HI : forall nodes r,
             match r with
             | Ok a => Forall (fun fn => parser.FunctionInfo.File fn = path)
                              (parser.FileAnalysis.Functions a)
             | Panic _ => True
             end ->
             match fold_left (parser.fileVisitor host path) nodes r with
             | Ok a => Forall (fun fn => parser.FunctionInfo.File fn = path)
                              (parser.FileAnalysis.Functions a)
             | Panic _ => True
             end).
  { clear. induction nodes as [|n nodes IH]; intros r H; cbn [fold_left];
      [exact H|]. apply IH. now apply fileVisitor_File. }
  specialize (HI (ast.Walk (ast.NFile node)) (Ok a0) H0).
  destruct (fold_left _ (ast.Walk (ast.NFile node)) (Ok a0)); cbn [bind];
    [|discriminate].
  intros E. inversion E; subst. exact HI.
Qed.





(* ================================================================== *)
(** ** Trimming *)
(* ================================================================== *)

Lemma HasPrefix_guard : forall e s c rest,
  strings.HasPrefix (s ++ c :: rest) e = true ->
  ~ In c e ->
  strings.HasPrefix s e = true.
Proof.
  induction e as [|x e IH]; intros s c rest H Hc; [reflexivity|].
  destruct s as [|a s]; cbn [app strings.HasPrefix] in *.
  - apply andb_true_iff in H as [H _]. apply Ascii.eqb_eq in H.
    exfalso. apply Hc. left. now subst.
  - apply andb_true_iff in H as [Ha H]. rewrite Ha. cbn [andb].
    apply (IH s c rest H). intro X. apply Hc. now right.
Qed.

Lemma skipn_prefix_app : forall e s t,
  strings.HasPrefix s e = true ->
  skipn (length e) (s ++ t) = skipn (length e) s ++ t.
Proof.
  induction e as [|x e IH]; intros s t H; [reflexivity|].
  destruct s as [|a s]; [discriminate|].
  cbn [strings.HasPrefix] in H. apply andb_true_iff in H as [_ H].
  cbn [length app skipn]. now apply IH.
Qed.

Lemma find_HasPrefix_none : forall seqs s,
  existsb (strings.HasPrefix s) seqs = false ->
  find (strings.HasPrefix s) seqs = None.
Proof.
  induction seqs as [|e seqs IH]; intros s H; [reflexivity|].
  cbn [existsb find] in *. apply orb_false_iff in H as [He H].
  rewrite He. now apply IH.
Qed.

Lemma strip_front_fixed : forall seqs fuel s,
  existsb (strings.HasPrefix s) seqs = false ->
  strings.strip_front seqs fuel s = s.
Proof.
  intros seqs [|fuel] s H; cbn [strings.strip_front]; [reflexivity|].
  now rewrite find_HasPrefix_none.
Qed.

Lemma absent_spec : forall c seqs e,
  text.absent c seqs = true -> In e seqs -> ~ In c e.
Proof.
  intros c seqs e H He Hc. unfold text.absent in H.
  rewrite forallb_forall in H. specialize (H e He).
  apply negb_true_iff in H.
  assert (X : existsb (Ascii.eqb c) e = true).
  { apply existsb_exists. exists c. split; [exact Hc|apply Ascii.eqb_refl]. }
  congruence.
Qed.

Lemma strip_front_guard : forall seqs c rest,
  text.absent c seqs = true ->
  forall fuel s, exists s',
    strings.strip_front seqs fuel (s ++ c :: rest) = s' ++ c :: rest.
Proof.
  intros seqs c rest Hc. induction fuel as [|fuel IH]; intros s;
    cbn [strings.strip_front].
  - now exists s.
  - destruct (find _ seqs) as [e|] eqn:F; [|now exists s].
    apply find_some in F as [He Hp].
    apply HasPrefix_guard in Hp; [|now apply (absent_spec c seqs)].
    rewrite skipn_prefix_app by exact Hp. apply IH.
Qed.

Lemma absent_rev : forall c seqs,
  text.absent c seqs = true -> text.absent c (map (@rev ascii) seqs) = true.
Proof.
  intros c seqs H. unfold text.absent in *. rewrite forallb_forall in *.
  intros e' He'. apply in_map_iff in He' as (e & <- & He).
  specialize (H e He). apply negb_true_iff in H. apply negb_true_iff.
  destruct (existsb (Ascii.eqb c) (rev e)) eqn:X; [|reflexivity].
  apply existsb_exists in X as (x & Hx & Ex). apply in_rev in Hx.
  assert (Y : existsb (Ascii.eqb c) e = true)
    by (apply existsb_exists; now exists x).
  congruence.
Qed.

Lemma trim_right_guard : forall seqs c s rest,
  text.absent c seqs = true ->
  exists rest', strings.trim_right seqs (s ++ c :: rest) = s ++ c :: rest'.
Proof.
  intros seqs c s rest Hc. unfold strings.trim_right.
  rewrite rev_app_distr. cbn [rev]. rewrite <- app_assoc. cbn [app].
  destruct (strip_front_guard (map (@rev ascii) seqs) c (rev s) (absent_rev _ _ Hc)
              (length (s ++ c :: rest)) (rev rest)) as [r' ->].
  exists (rev r'). rewrite rev_app_distr. cbn [rev].
  now rewrite rev_involutive, <- app_assoc.
Qed.

Lemma trim_left_fixed : forall seqs s,
  existsb (strings.HasPrefix s) seqs = false -> strings.trim_left seqs s = s.
Proof. intros. now apply strip_front_fixed. Qed.

Lemma existsb_map : forall (A B : Type) (f : A -> B) (p : B -> bool) l,
  existsb p (map f l) = existsb (fun x => p (f x)) l.
Proof.
  induction l as [|x l IH]; cbn [map existsb]; [reflexivity|]. now rewrite IH.
Qed.

Lemma trim_right_fixed : forall seqs s,
  existsb (strings.HasSuffix s) seqs = false -> strings.trim_right seqs s = s.
Proof.
  intros seqs s H. unfold strings.trim_right.
  rewrite strip_front_fixed; [apply rev_involutive|].
  rewrite existsb_map. exact H.
Qed.

Lemma existsb_HasPrefix_guard : forall seqs s c rest,
  existsb (strings.HasPrefix s) seqs = false ->
  text.absent c seqs = true ->
  existsb (strings.HasPrefix (s ++ c :: rest)) seqs = false.
Proof.
  intros seqs s c rest H Hc.
  destruct (existsb (strings.HasPrefix (s ++ c :: rest)) seqs) eqn:E; [|reflexivity].
  apply existsb_exists in E as (e & He & Hp).
  apply HasPrefix_guard in Hp; [|now apply (absent_spec c seqs)].
  assert (X : existsb (strings.HasPrefix s) seqs = true)
    by (apply existsb_exists; now exists e).
  congruence.
Qed.

(** [TrimSpace] leaves alone a text that does not start with a space, up
    to a byte that is part of no space. *)
Lemma TrimSpace_guard : forall s c rest,
  existsb (strings.HasPrefix s) strings.space_encodings = false ->
  text.absent c strings.space_encodings = true ->
  exists rest', strings.TrimSpace (s ++ c :: rest) = s ++ c :: rest'.
Proof.
  intros s c rest Hs Hc. unfold strings.TrimSpace.
  rewrite trim_left_fixed by now apply existsb_HasPrefix_guard.
  now apply trim_right_guard.
Qed.

Lemma TrimSpace_fixed : forall s,
  existsb (strings.HasPrefix s) strings.space_encodings = false ->
  existsb (strings.HasSuffix s) strings.space_encodings = false ->
  strings.TrimSpace s = s.
Proof.
  intros s H1 H2. unfold strings.TrimSpace.
  rewrite trim_left_fixed by exact H1. now apply trim_right_fixed.
Qed.

(* ================================================================== *)
(** ** Searching *)
(* ================================================================== *)

Lemma Index_byte : forall c s rest,
  ~ In c s -> strings.Index (s ++ c :: rest) [c] = len s.
Proof.
  intros c. induction s as [|a s IH]; intros rest H.
  - cbn [app]. destruct rest; cbn; now rewrite Ascii.eqb_refl.
  - cbn [app strings.Index strings.HasPrefix].
    assert (Ha : Ascii.eqb a c = false).
    { apply Ascii.eqb_neq. intro E. apply H. now left. }
    rewrite Ha. cbn [andb]. cbn zeta.
    rewrite IH by (intro X; apply H; now right).
    rewrite len_cons. pose proof (len_nonneg _ s).
    destruct (len s <? 0) eqn:L; [apply Z.ltb_lt in L; lia|reflexivity].
Qed.

Lemma has_pair_Index : forall c1 c2 s rest,
  c1 <> c2 ->
  text.has_pair c1 c2 s = false ->
  strings.Index (s ++ c1 :: c2 :: rest) [c1; c2] = len s.
Proof.
  intros c1 c2 s rest Hne. induction s as [|a s IH]; intros H.
  - cbn. now rewrite !Ascii.eqb_refl.
  - cbn [app strings.Index].
    assert (Hp : strings.HasPrefix (a :: s ++ c1 :: c2 :: rest) [c1; c2] = false).
    { cbn [strings.HasPrefix]. destruct (Ascii.eqb a c1) eqn:Ea; [|reflexivity].
      cbn [andb]. destruct s as [|b s]; cbn [app].
      - assert (X : Ascii.eqb c1 c2 = false) by now apply Ascii.eqb_neq.
        now rewrite X.
      - cbn [text.has_pair] in H. rewrite Ea in H. cbn [andb] in H.
        apply orb_false_iff in H as [H _]. now rewrite H. }
    rewrite Hp. cbn zeta. rewrite IH.
    + rewrite len_cons. pose proof (len_nonneg _ s).
      destruct (len s <? 0) eqn:L; [apply Z.ltb_lt in L; lia|reflexivity].
    + destruct s as [|b s]; [reflexivity|].
      cbn [text.has_pair] in H. now apply orb_false_iff in H as [_ H].
Qed.

Lemma has_pair_without : forall c1 c2 s t,
  ~ In c1 s -> text.has_pair c1 c2 (s ++ t) = text.has_pair c1 c2 t.
Proof.
  intros c1 c2. induction s as [|a s IH]; intros t H; [reflexivity|].
  assert (Ha : Ascii.eqb a c1 = false).
  { apply Ascii.eqb_neq. intro E. apply H. now left. }
  assert (Hs : ~ In c1 s) by (intro X; apply H; now right).
  specialize (IH t Hs).
  cbn [app]. destruct (s ++ t) as [|b u] eqn:E.
  - cbn [text.has_pair]. destruct s; [cbn in E; now subst|discriminate].
  - cbn [text.has_pair]. rewrite Ha. cbn [andb orb]. exact IH.
Qed.

Lemma has_pair_app : forall c1 c2 s t,
  text.has_pair c1 c2 s = false ->
  text.has_pair c1 c2 t = false ->
  match t with c :: _ => c <> c2 | [] => True end ->
  text.has_pair c1 c2 (s ++ t) = false.
Proof.
  intros c1 c2. induction s as [|a s IH]; intros t Hs Ht Hh; [exact Ht|].
  cbn [app]. destruct s as [|b s].
  - cbn [app]. destruct t as [|c t]; [reflexivity|].
    cbn [text.has_pair]. apply Ascii.eqb_neq in Hh. rewrite Hh, andb_false_r.
    exact Ht.
  - cbn [text.has_pair] in Hs. apply orb_false_iff in Hs as [Hab Hs].
    specialize (IH t Hs Ht Hh). cbn [app] in IH |- *.
    cbn [text.has_pair]. rewrite Hab. cbn [orb]. exact IH.
Qed.

Lemma skipn_len_app : forall (A : Type) (s t : list A) k,
  0 <= k -> skipn (Z.to_nat (len s + k)) (s ++ t) = skipn (Z.to_nat k) t.
Proof.
  intros A s t k Hk. unfold len. rewrite Z2Nat.inj_add by lia.
  rewrite Nat2Z.id. induction s as [|a s IH]; [reflexivity|]. exact IH.
Qed.

Lemma firstn_len_app : forall (A : Type) (s t : list A),
  firstn (Z.to_nat (len s)) (s ++ t) = s.
Proof.
  intros A s t. unfold len. rewrite Nat2Z.id.
  induction s as [|a s IH]; cbn; [now destruct t|now rewrite IH].
Qed.

(* ================================================================== *)
(** ** Identifiers *)
(* ================================================================== *)

Lemma ident_byte_neq : forall c x,
  spec.ident_byte c = true -> spec.ident_byte x = false -> c <> x.
Proof. intros c x Hc Hx E. subst. congruence. Qed.

Lemma is_identifier_inv : forall s,
  spec.is_identifier s = true ->
  (exists c s', s = c :: s')
  /\ forallb spec.ident_byte s = true
  /\ existsb (strings.HasPrefix s) strings.space_encodings = false
  /\ existsb (strings.HasSuffix s) strings.space_encodings = false.
Proof.
  intros s H. unfold spec.is_identifier in H.
  apply andb_true_iff in H as [H H4]. apply andb_true_iff in H as [H H3].
  apply andb_true_iff in H as [H1 H2].
  apply negb_true_iff in H3, H4. repeat split; try assumption.
  destruct s as [|c s']; [discriminate|]. now exists c, s'.
Qed.

Lemma ident_bytes_without : forall s x,
  forallb spec.ident_byte s = true -> spec.ident_byte x = false -> ~ In x s.
Proof.
  intros s x H Hx Hin. rewrite forallb_forall in H. specialize (H x Hin).
  congruence.
Qed.

Lemma ident_head_not_cut : forall s,
  s <> [] -> forallb spec.ident_byte s = true ->
  existsb (strings.HasPrefix s) (map (fun c => [c]) git.cutset) = false.
Proof.
  intros [|c s] Hne H; [contradiction|]. cbn [forallb] in H.
  apply andb_true_iff in H as [Hc _].
  cbn. rewrite !andb_true_r, !orb_false_r.
  repeat match goal with
         | |- context [Ascii.eqb c ?x] =>
             let E := fresh in
             assert (E : Ascii.eqb c x = false)
               by (apply Ascii.eqb_neq, ident_byte_neq; [exact Hc|reflexivity]);
             rewrite E; clear E
         end.
  reflexivity.
Qed.

Lemma Trim_identifier : forall s,
  spec.is_identifier s = true ->
  strings.Trim (strings.TrimSpace s) git.cutset = s.
Proof.
  intros s H. apply is_identifier_inv in H as ((c & s' & E) & Hb & Hp & Hs).
  rewrite TrimSpace_fixed by assumption. unfold strings.Trim.
  rewrite trim_left_fixed.
  - apply trim_right_fixed. unfold strings.HasSuffix.
    rewrite <- (existsb_map _ _ (@rev ascii) (strings.HasPrefix (rev s))).
    rewrite map_map. cbn [rev app].
    apply ident_head_not_cut.
    + subst s. cbn [rev]. now destruct (rev s').
    + rewrite forallb_forall in *. intros x Hx. apply Hb. now apply in_rev.
  - apply ident_head_not_cut; [now subst|exact Hb].
Qed.

(* ================================================================== *)
(** ** The name of a rendered signature *)
(* ================================================================== *)

Lemma TrimPrefix_app : forall p s, strings.TrimPrefix (p ++ s) p = s.
Proof.
  intros p s. unfold strings.TrimPrefix. rewrite HasPrefix_app.
  induction p as [|c p IH]; [reflexivity|exact IH].
Qed.

(** The tail of [extractFunctionName], from the text that starts with the
    name of the function. *)
Lemma extract_from_name : forall name rest,
  spec.is_identifier name = true ->
  let line := name ++ "("%char :: rest in
  (if strings.Index line (str "(") =? -1 then Ok []
   else before <- slice_to line (strings.Index line (str "(")) ;;
        Ok (strings.Trim (strings.TrimSpace before) git.cutset))
  = Ok name.
Proof.
  intros name rest H line. subst line.
  pose proof (is_identifier_inv name H) as (_ & Hb & _ & _).
  change (str "(") with ["("%char].
  rewrite Index_byte by (apply ident_bytes_without; [exact Hb|reflexivity]).
  pose proof (len_nonneg _ name).
  assert (E : (len name =? -1) = false) by (apply Z.eqb_neq; lia).
  rewrite E, slice_to_ok by (rewrite len_app; pose proof (len_nonneg _ ("("%char :: rest)); lia).
  cbn [bind]. rewrite firstn_len_app. now rewrite Trim_identifier.
Qed.

Lemma identifier_not_paren : forall name rest,
  spec.is_identifier name = true ->
  strings.HasPrefix (name ++ rest) (str "(") = false.
Proof.
  intros name rest H.
  apply is_identifier_inv in H as ((c & s' & ->) & Hb & _ & _).
  cbn [forallb] in Hb. apply andb_true_iff in Hb as [Hc _].
  cbn. rewrite andb_true_r. apply Ascii.eqb_neq, ident_byte_neq;
    [exact Hc|reflexivity].
Qed.

Lemma extract_plain_function : forall name rest,
  spec.is_identifier name = true ->
  git.extractFunctionName (str "func " ++ name ++ "("%char :: rest) = Ok name.
Proof.
  intros name rest H.
  pose proof (is_identifier_inv name H) as (_ & _ & Hp & _).
  unfold git.extractFunctionName. cbv zeta.
  rewrite app_assoc.
  destruct (TrimSpace_guard (str "func " ++ name) "("%char rest) as [r1 E1];
    [reflexivity|reflexivity|]. rewrite E1, <- app_assoc.
  change (strings.HasPrefix (str "func " ++ name ++ "("%char :: r1) (str "+")
          || strings.HasPrefix (str "func " ++ name ++ "("%char :: r1) (str "-")
          || strings.HasPrefix (str "func " ++ name ++ "("%char :: r1) (str " "))
    with false.
  cbn [bind]. rewrite HasPrefix_app. cbn [negb]. rewrite TrimPrefix_app.
  destruct (TrimSpace_guard name "("%char r1) as [r2 E2];
    [exact Hp|reflexivity|]. rewrite E2.
  rewrite identifier_not_paren by exact H. cbn [bind].
  now apply extract_from_name.
Qed.

Lemma extract_method : forall recv name rest,
  spec.is_identifier name = true ->
  text.has_pair ")"%char " "%char ("("%char :: recv) = false ->
  git.extractFunctionName
    (str "func " ++ ("("%char :: recv ++ str ") ") ++ name ++ "("%char :: rest)
  = Ok name.
Proof.
  intros name0 name rest H Hpair. rename name0 into recv.
  pose proof (is_identifier_inv name H) as (_ & _ & Hp & _).
  unfold git.extractFunctionName. cbv zeta.
  set (R := "("%char :: recv ++ str ") ").
  rewrite !app_assoc.
  destruct (TrimSpace_guard ((str "func " ++ R) ++ name) "("%char rest) as [r1 E1];
    [reflexivity|reflexivity|]. rewrite E1, <- !app_assoc.
  change (strings.HasPrefix (str "func " ++ R ++ name ++ "("%char :: r1) (str "+")
          || strings.HasPrefix (str "func " ++ R ++ name ++ "("%char :: r1) (str "-")
          || strings.HasPrefix (str "func " ++ R ++ name ++ "("%char :: r1) (str " "))
    with false.
  cbn [bind]. rewrite HasPrefix_app. cbn [negb]. rewrite TrimPrefix_app.
  rewrite app_assoc.
  destruct (TrimSpace_guard (R ++ name) "("%char r1) as [r2 E2];
    [reflexivity|reflexivity|]. rewrite E2, <- app_assoc.
  change (strings.HasPrefix (R ++ name ++ "("%char :: r2) (str "(")) with true.
  cbv iota.
  assert (EI : strings.Index (R ++ name ++ "("%char :: r2) (str ") ")
               = len ("("%char :: recv)).
  { subst R. change ("("%char :: recv ++ str ") ") with (("("%char :: recv) ++ str ") ").
    rewrite <- app_assoc.
    apply (has_pair_Index ")"%char " "%char ("("%char :: recv)
             (name ++ "("%char :: r2)); [discriminate|exact Hpair]. }
  rewrite EI. pose proof (len_nonneg _ ("("%char :: recv)) as Hl.
  assert (E : (len ("("%char :: recv) =? -1) = false) by (apply Z.eqb_neq; lia).
  rewrite E. cbn [negb].
  assert (ES : slice_from (R ++ name ++ "("%char :: r2) (len ("("%char :: recv) + 2)
               = Ok (name ++ "("%char :: r2)).
  { subst R. change ("("%char :: recv ++ str ") ") with (("("%char :: recv) ++ str ") ").
    rewrite <- app_assoc. rewrite slice_from_ok.
    - rewrite skipn_len_app by lia. reflexivity.
    - rewrite !len_app. change (len (str ") ")) with 2.
      pose proof (len_nonneg _ name). pose proof (len_nonneg _ ("("%char :: r2)). lia. }
  rewrite ES. cbn [bind].
  destruct (TrimSpace_guard name "("%char r2) as [r3 E3];
    [exact Hp|reflexivity|]. rewrite E3.
  now apply extract_from_name.
Qed.

(* ================================================================== *)
(** ** Rendered types and entries *)
(* ================================================================== *)

Lemma has_pair_absent : forall c1 c2 s, ~ In c1 s -> text.has_pair c1 c2 s = false.
Proof.
  intros c1 c2 s H. rewrite <- (app_nil_r s). now rewrite has_pair_without.
Qed.

Lemma neutral_nil : text.neutral [].
Proof. intros d k seen rest. cbn. now rewrite orb_false_r. Qed.

Lemma neutral_cons : forall c s,
  c <> "("%char -> c <> ")"%char -> c <> ","%char ->
  text.neutral s -> text.neutral (c :: s).
Proof.
  intros c s H1 H2 H3 Hs d k seen rest. cbn [app spec.scan_list streq negb].
  apply Ascii.eqb_neq in H1, H2, H3. rewrite H1, H2, H3, Hs.
  now rewrite orb_true_r.
Qed.

Lemma neutral_app : forall s t,
  text.neutral s -> text.neutral t -> text.neutral (s ++ t).
Proof.
  intros s t Hs Ht d k seen rest. rewrite <- app_assoc, Hs, Ht. f_equal.
  destruct s, t; cbn; now rewrite ?orb_false_r, ?orb_true_r.
Qed.

Lemma neutral_ident_bytes : forall s,
  forallb spec.ident_byte s = true -> text.neutral s.
Proof.
  induction s as [|c s IH]; intros H; [apply neutral_nil|].
  cbn [forallb] in H. apply andb_true_iff in H as [Hc Hs].
  apply neutral_cons; try (apply ident_byte_neq; [exact Hc|reflexivity]).
  now apply IH.
Qed.

Lemma typeText_ident : forall s, spec.is_identifier s = true -> text.typeText s.
Proof.
  intros s H. apply is_identifier_inv in H as ((c & s' & ->) & Hb & _ & _).
  split; [|split].
  - apply has_pair_absent, ident_bytes_without; [exact Hb|reflexivity].
  - cbn [forallb] in Hb. apply andb_true_iff in Hb as [Hc _].
    split; apply ident_byte_neq; (exact Hc || reflexivity).
  - now apply neutral_ident_bytes.
Qed.

Lemma typeText_app : forall s t,
  text.typeText s -> text.typeText t -> text.typeText (s ++ t).
Proof.
  intros s t (Ps & Hs & Ns) (Pt & Ht & Nt). split; [|split].
  - apply has_pair_app; [exact Ps|exact Pt|].
    destruct t as [|c t]; [exact I|apply Ht].
  - destruct s as [|c s]; [contradiction|exact Hs].
  - now apply neutral_app.
Qed.

Ltac literal_text :=
  split; [reflexivity|split; [split; discriminate|]];
  intros d k seen rest; cbn; rewrite ?orb_true_r; reflexivity.

Lemma typeText_star : text.typeText (str "*"). Proof. literal_text. Qed.
Lemma typeText_slice : text.typeText (str "[]"). Proof. literal_text. Qed.
Lemma typeText_array : text.typeText (str "[...]"). Proof. literal_text. Qed.
Lemma typeText_map : text.typeText (str "map["). Proof. literal_text. Qed.
Lemma typeText_send : text.typeText (str "chan<- "). Proof. literal_text. Qed.
Lemma typeText_recv : text.typeText (str "<-chan "). Proof. literal_text. Qed.
Lemma typeText_chan : text.typeText (str "chan "). Proof. literal_text. Qed.
Lemma typeText_interface : text.typeText (str "interface{}"). Proof. literal_text. Qed.
Lemma typeText_struct : text.typeText (str "struct{}"). Proof. literal_text. Qed.
Lemma typeText_func : text.typeText (str "func(...)"). Proof. literal_text. Qed.
Lemma typeText_unknown : text.typeText (str "unknown"). Proof. literal_text. Qed.
Lemma typeText_bracket : text.typeText (str "]"). Proof. literal_text. Qed.
Lemma typeText_dot : text.typeText (str "."). Proof. literal_text. Qed.

(** Every type [extractTypeString] renders is a rendered type. *)
Lemma extractTypeString_typeText : forall e,
  spec.type_identifiers e = true -> text.typeText (parser.extractTypeString e).
Proof.
  induction e; intros H; cbn [parser.extractTypeString spec.type_identifiers] in *;
    try apply typeText_unknown.
  - now apply typeText_ident.
  - apply andb_true_iff in H as [Hx Hs].
    repeat apply typeText_app; auto using typeText_dot, typeText_ident.
  - apply typeText_app; auto using typeText_star.
  - destruct Len; apply typeText_app; auto using typeText_slice, typeText_array.
  - apply typeText_struct.
  - apply typeText_func.
  - apply typeText_interface.
  - apply andb_true_iff in H as [Hk Hv].
    repeat apply typeText_app; auto using typeText_map, typeText_bracket.
  - destruct Dir; apply typeText_app;
      auto using typeText_send, typeText_recv, typeText_chan.
Qed.

Lemma entryString_scan : forall e depth commas seen rest,
  text.entryText e ->
  spec.scan_list depth commas seen (text.entryString e ++ rest)
  = spec.scan_list depth commas true rest.
Proof.
  intros [name type] d k seen rest [Hn (Pt & Ht & Nt)]. cbn [fst snd] in *.
  unfold text.entryString. cbn [fst snd].
  assert (Et : streq type [] = false) by (destruct type; [contradiction|reflexivity]).
  destruct (streq name []) eqn:En; cbn [negb].
  - cbn [app]. rewrite Nt, Et. now rewrite orb_true_r.
  - destruct Hn as [->|Hn]; [discriminate|].
    apply is_identifier_inv in Hn as (_ & Hb & _ & _).
    rewrite <- !app_assoc. rewrite (neutral_ident_bytes name Hb). cbn [app str
      list_ascii_of_string spec.scan_list Ascii.eqb Bool.eqb andb].
    rewrite Nt, Et. now rewrite orb_true_r.
Qed.

Lemma writeList_unfold : forall e items first,
  parser.writeList (e :: items) first
  = (if first then [] else str ", ") ++ text.entryString e
    ++ parser.writeList items false.
Proof.
  intros [name type] items first. cbn [parser.writeList].
  unfold text.entryString. cbn [fst snd]. now rewrite <- !app_assoc.
Qed.

Lemma writeList_scan_rest : forall items commas rest,
  Forall text.entryText items ->
  spec.scan_list 0 commas true (parser.writeList items false ++ ")"%char :: rest)
  = Some (S (commas + length items), rest).
Proof.
  induction items as [|e items IH]; intros k rest H.
  - cbn. now rewrite Nat.add_0_r.
  - inversion H as [|? ? He Hi]; subst. rewrite writeList_unfold.
    rewrite <- !app_assoc.
    change (str ", " ++ text.entryString e ++ parser.writeList items false
            ++ ")"%char :: rest)
      with (","%char :: " "%char :: text.entryString e
            ++ parser.writeList items false ++ ")"%char :: rest).
    cbn [spec.scan_list Ascii.eqb Bool.eqb andb].
    rewrite entryString_scan by exact He. rewrite IH by exact Hi.
    cbn [length]. f_equal. f_equal. lia.
Qed.

Lemma writeList_scan : forall items rest,
  Forall text.entryText items ->
  spec.scan_list 0 0 false (parser.writeList items true ++ ")"%char :: rest)
  = Some (length items, rest).
Proof.
  intros [|e items] rest H; [reflexivity|].
  inversion H as [|? ? He Hi]; subst. rewrite writeList_unfold.
  cbn [app]. rewrite <- app_assoc, entryString_scan by exact He.
  rewrite writeList_scan_rest by exact Hi. reflexivity.
Qed.

(* ================================================================== *)
(** ** The round trip of a descriptor's signature *)
(* ================================================================== *)

Lemma entryString_no_pair : forall e,
  text.entryText e ->
  text.has_pair ")"%char " "%char ("("%char :: text.entryString e) = false.
Proof.
  intros [name type] [Hn (Pt & _ & _)]. cbn [fst snd] in *.
  unfold text.entryString. cbn [fst snd].
  destruct (streq name []) eqn:En; cbn [negb].
  - cbn [app]. change ("("%char :: type) with (["("%char] ++ type).
    rewrite has_pair_without; [exact Pt|]. intros [X|[]]. discriminate.
  - destruct Hn as [->|Hn]; [discriminate|].
    apply is_identifier_inv in Hn as (_ & Hb & _ & _).
    change ("("%char :: (name ++ str " ") ++ type)
      with (("("%char :: name ++ str " ") ++ type).
    rewrite has_pair_without; [exact Pt|].
    intros [X|X]; [discriminate|].
    apply in_app_or in X as [X|[X|[]]]; [|discriminate].
    revert X. apply ident_bytes_without; [exact Hb|reflexivity].
Qed.

Lemma entryString_head : forall e,
  text.entryText e ->
  exists c s, text.entryString e = c :: s /\ c <> "("%char.
Proof.
  intros [name type] [Hn (_ & Ht & _)]. cbn [fst snd] in *.
  unfold text.entryString. cbn [fst snd].
  destruct (streq name []) eqn:En; cbn [negb].
  - destruct type as [|c t]; [contradiction|]. exists c, t. split; [reflexivity|apply Ht].
  - destruct Hn as [->|Hn]; [discriminate|].
    apply is_identifier_inv in Hn as ((c & s & ->) & Hb & _ & _).
    cbn [forallb] in Hb. apply andb_true_iff in Hb as [Hc _].
    eexists c, _. split; [reflexivity|].
    apply ident_byte_neq; [exact Hc|reflexivity].
Qed.

(** The receiver clause is empty or a parenthesised entry. *)
Lemma receiverClause_shape : forall fn,
  text.descriptorText fn ->
  parser.receiverClause fn = []
  \/ exists e, text.entryText e
               /\ parser.receiverClause fn
                  = "("%char :: text.entryString e ++ str ") ".
Proof.
  intros fn (_ & Hr & _ & _). unfold parser.receiverClause.
  destruct (parser.FunctionInfo.IsMethod fn); [|now left].
  destruct (parser.FunctionInfo.Receiver fn) as [r|]; [|now left].
  right. eexists. split; [exact Hr|].
  unfold text.entryString. cbn [fst snd app str list_ascii_of_string].
  now rewrite <- app_assoc.
Qed.

Lemma extractFunctionName_buildSignatureString : forall fn,
  text.descriptorText fn ->
  git.extractFunctionName (parser.buildSignatureString fn)
  = Ok (parser.FunctionInfo.Name fn).
Proof.
  intros fn H. pose proof H as (Hn & _).
  unfold parser.buildSignatureString.
  destruct (receiverClause_shape fn H) as [-> | (e & He & ->)].
  - cbn [app]. now apply extract_plain_function.
  - apply (extract_method (text.entryString e)); [exact Hn|].
    now apply entryString_no_pair.
Qed.

Lemma len_pos : forall (A : Type) (x : A) (l : list A), (0 <? len (x :: l)) = true.
Proof.
  intros. rewrite len_cons. apply Z.ltb_lt. pose proof (len_nonneg _ l). lia.
Qed.

Lemma len_more : forall (A : Type) (x y : A) (l : list A),
  (1 <? len (x :: y :: l)) = true.
Proof.
  intros. rewrite !len_cons. apply Z.ltb_lt. pose proof (len_nonneg _ l). lia.
Qed.

(** Reading the return count back from the returns clause. *)
Lemma returnsClause_count : forall returns (params : nat),
  Forall text.entryText
         (map (fun r => (parser.ReturnInfo.Name r, parser.ReturnInfo.Type_ r)) returns) ->
  match parser.returnsClause returns with
  | [] => Some (params, O)
  | _ :: _ =>
      match git.strip_prefix (str " (") (parser.returnsClause returns) with
      | Some inner =>
          match spec.scan_list 0 0 false inner with
          | Some (n, _) => Some (params, n)
          | None => None
          end
      | None => Some (params, 1%nat)
      end
  end = Some (params, length returns).
Proof.
  intros [|r1 [|r2 returns]] params H; unfold parser.returnsClause.
  - reflexivity.
  - rewrite len_pos. change (1 <? len [r1]) with false.
    cbn [map]. rewrite writeList_unfold. cbn [app parser.writeList].
    inversion H as [|? ? He _]; subst.
    destruct (entryString_head _ He) as (c & s & -> & Hc).
    rewrite !app_nil_r. cbn [app str list_ascii_of_string].
    unfold git.strip_prefix. cbn [strings.HasPrefix str list_ascii_of_string].
    apply Ascii.eqb_neq in Hc. rewrite Ascii.eqb_refl, Hc. reflexivity.
  - rewrite len_pos, len_more.
    change (str " " ++ str "(" ++ ?x) with (" "%char :: "("%char :: x).
    set (items := map _ _) in *.
    cbn [app str list_ascii_of_string].
    unfold git.strip_prefix. cbn [strings.HasPrefix str list_ascii_of_string
      Ascii.eqb Bool.eqb andb length skipn].
    change (parser.writeList items true ++ [")"%char])
      with (parser.writeList items true ++ ")"%char :: []).
    rewrite writeList_scan by exact H.
    subst items. now rewrite length_map.
Qed.

Lemma buildSignatureString_shape : forall fn,
  parser.buildSignatureString fn
  = str "func " ++ parser.receiverClause fn ++ parser.FunctionInfo.Name fn
    ++ "("%char :: parser.writeList
                     (map (fun p => (parser.ParameterInfo.Name p,
                                     parser.ParameterInfo.Type_ p))
                          (parser.FunctionInfo.Parameters fn)) true
    ++ ")"%char :: parser.returnsClause (parser.FunctionInfo.Returns fn).
Proof. reflexivity. Qed.

Lemma signature_counts_buildSignatureString : forall fn,
  text.descriptorText fn ->
  spec.signature_counts (parser.buildSignatureString fn)
  = Some (length (parser.FunctionInfo.Parameters fn),
          length (parser.FunctionInfo.Returns fn)).
Proof.
  intros fn H. pose proof H as (Hn & _ & Hp & Hr).
  rewrite buildSignatureString_shape. unfold spec.signature_counts.
  set (tail := "("%char :: _).
  unfold git.strip_prefix at 1. rewrite HasPrefix_app.
  change (skipn (length (str "func ")) (str "func " ++ ?x)) with x.
  assert (HT : forall line,
             line = parser.FunctionInfo.Name fn ++ tail ->
             (if strings.Index line (str "(") =? -1 then None
              else match spec.scan_list 0 0 false
                           (skipn (Z.to_nat (strings.Index line (str "(") + 1)) line) with
                   | None => None
                   | Some (params, rest) =>
                       match rest with
                       | [] => Some (params, O)
                       | _ :: _ =>
                           match git.strip_prefix (str " (") rest with
                           | Some inner =>
                               match spec.scan_list 0 0 false inner with
                               | Some (returns, _) => Some (params, returns)
                               | None => None
                               end
                           | None => Some (params, 1%nat)
                           end
                       end
                   end)
             = Some (length (parser.FunctionInfo.Parameters fn),
                     length (parser.FunctionInfo.Returns fn))).
  { intros line ->. subst tail.
    pose proof (is_identifier_inv _ Hn) as (_ & Hb & _ & _).
    change (str "(") with ["("%char].
    rewrite Index_byte by (apply ident_bytes_without; [exact Hb|reflexivity]).
    pose proof (len_nonneg _ (parser.FunctionInfo.Name fn)).
    assert (E : (len (parser.FunctionInfo.Name fn) =? -1) = false)
      by (apply Z.eqb_neq; lia).
    rewrite E, skipn_len_app by lia.
    change (skipn (Z.to_nat 1) ("("%char :: ?x)) with x.
    rewrite writeList_scan by exact Hp. rewrite length_map.
    now apply returnsClause_count. }
  destruct (receiverClause_shape fn H) as [-> | (e & He & ->)].
  - cbn [app]. rewrite identifier_not_paren by exact Hn. now apply HT.
  - change (strings.HasPrefix (("("%char :: text.entryString e ++ str ") ")
                               ++ parser.FunctionInfo.Name fn ++ tail) (str "("))
      with true. cbv iota.
    change ("("%char :: text.entryString e ++ str ") ")
      with (("("%char :: text.entryString e) ++ str ") ").
    rewrite <- app_assoc.
    change (str ") ") with [")"%char; " "%char].
    change ([")"%char; " "%char] ++ parser.FunctionInfo.Name fn ++ tail)
      with (")"%char :: " "%char :: parser.FunctionInfo.Name fn ++ tail).
    rewrite (has_pair_Index ")"%char " "%char ("("%char :: text.entryString e)
               (parser.FunctionInfo.Name fn ++ tail));
      [|discriminate|now apply entryString_no_pair].
    pose proof (len_nonneg _ ("("%char :: text.entryString e)).
    assert (E : (len ("("%char :: text.entryString e) =? -1) = false)
      by (apply Z.eqb_neq; lia).
    rewrite E.
    change ((")"%char :: " "%char :: parser.FunctionInfo.Name fn ++ tail))
      with (str ") " ++ parser.FunctionInfo.Name fn ++ tail).
    rewrite skipn_len_app by lia.
    change (skipn (Z.to_nat 2) (str ") " ++ ?x)) with x.
    now apply HT.
Qed.

(** A well-formed declaration yields a descriptor fit for the round trip. *)
Lemma fieldEntries_entryText : forall fields,
  spec.fields_identifiers fields = true ->
  Forall text.entryText (parser.fieldEntries fields).
Proof.
  intros [l|] H; [|constructor]. cbn [parser.fieldEntries spec.fields_identifiers] in *.
  induction l as [|f l IH]; [constructor|].
  cbn [forallb flat_map] in *. apply andb_true_iff in H as [Hf Hl].
  apply Forall_app. split; [|now apply IH].
  unfold spec.field_identifiers in Hf. apply andb_true_iff in Hf as [Hnames Htype].
  apply extractTypeString_typeText in Htype.
  destruct (ast.field_Names f) as [|n names] eqn:E.
  - constructor; [|constructor]. split; [now left|exact Htype].
  - rewrite forallb_forall in Hnames. apply Forall_forall.
    intros x Hx. apply in_map_iff in Hx as (name & <- & Hin).
    split; [right; now apply Hnames|exact Htype].
Qed.

Lemma analyzeFunctionDecl_descriptorText : forall host d path,
  spec.well_formed d = true ->
  text.descriptorText (parser.analyzeFunctionDecl host d path).
Proof.
  intros host d path H. unfold spec.well_formed in H.
  apply andb_true_iff in H as [H Hres]. apply andb_true_iff in H as [H Hpar].
  apply andb_true_iff in H as [Hname Hrecv].
  unfold text.descriptorText, parser.analyzeFunctionDecl.
  cbn [parser.FunctionInfo.Name parser.FunctionInfo.IsMethod
       parser.FunctionInfo.Receiver parser.FunctionInfo.Parameters
       parser.FunctionInfo.Returns].
  split; [exact Hname|]. split; [|split].
  - destruct (ast.fd_Recv d) as [[|f l]|]; try exact I.
    cbn [spec.fields_identifiers forallb] in Hrecv.
    apply andb_true_iff in Hrecv as [Hf _].
    unfold spec.field_identifiers in Hf. apply andb_true_iff in Hf as [Hnames Htype].
    split; cbn [fst snd parser.ReceiverInfo.Name parser.ReceiverInfo.Type_].
    + destruct (ast.field_Names f) as [|n names]; [now left|right].
      cbn [forallb] in Hnames. now apply andb_true_iff in Hnames as [Hn _].
    + now apply extractTypeString_typeText.
  - rewrite map_map. cbn [parser.ParameterInfo.Name parser.ParameterInfo.Type_].
    rewrite (map_ext _ (fun e => e)) by (now intros []). rewrite map_id.
    now apply fieldEntries_entryText.
  - rewrite map_map. cbn [parser.ReturnInfo.Name parser.ReturnInfo.Type_].
    rewrite (map_ext _ (fun e => e)) by (now intros []). rewrite map_id.
    now apply fieldEntries_entryText.
Qed.

(** C9.  Round trip: for the descriptor of a function declaration whose
    names are identifiers (as the Go parser yields them), the signature
    stored in the descriptor is the one [buildSignatureString] renders,
    [extractFunctionName] reads the descriptor's name back from it (for a
    plain function and for a method, whose receiver clause it passes over),
    and the parameter and return counts read back from it are the lengths
    of the descriptor's parameter and return lists. *)
Theorem signature_round_trip : forall host d path,
  spec.well_formed d = true ->
  let fn := parser.analyzeFunctionDecl host d path in
  parser.FunctionInfo.Signature fn = parser.buildSignatureString fn
  /\ git.extractFunctionName (parser.buildSignatureString fn)
     = Ok (parser.FunctionInfo.Name fn)
  /\ spec.signature_counts (parser.buildSignatureString fn)
     = Some (length (parser.FunctionInfo.Parameters fn),
             length (parser.FunctionInfo.Returns fn)).
Proof.
  intros host d path H fn.
  pose proof (analyzeFunctionDecl_descriptorText host d path H) as HD.
  fold fn in HD. split; [reflexivity|]. split.
  - now apply extractFunctionName_buildSignatureString.
  - now apply signature_counts_buildSignatureString.
Qed.

Lemma signature_round_trip_GetName :
  git.extractFunctionName (str "func (u *User) GetName() string") = Ok (str "GetName")
  /\ spec.signature_counts (str "func (u *User) GetName() string") = Some (0%nat, 1%nat).
Proof.
  pose proof (signature_round_trip scenario.emptyHost scenario.getName (str "user.go"))
    as H.
  cbv zeta in H. destruct H as (_ & H1 & H2); [reflexivity|].
  split; [exact H1|exact H2].
Defined.

(* ================================================================== *)
(** ** One iteration of the scan loop *)
(* ================================================================== *)

Lemma FileDiff_eta : forall f,
  git.mkFileDiff (git.OldPath f) (git.NewPath f) (git.Changes f ++ [])
                 (git.Functions f) = f.
Proof. intros [o n c fs]. cbn. now rewrite app_nil_r. Qed.

Lemma addFunctionIfModified_nil : forall f, git.addFunctionIfModified f [] = f.
Proof. reflexivity. Qed.

Lemma addFunctionIfModified_paths : forall f name,
  git.OldPath (git.addFunctionIfModified f name) = git.OldPath f
  /\ git.NewPath (git.addFunctionIfModified f name) = git.NewPath f.
Proof.
  intros f name. unfold git.addFunctionIfModified.
  destruct (streq name []); [now split|].
  destruct (existsb _ _); now split.
Qed.

(** What one line does to the scan state: a file header closes the file
    being read and opens a new one; any other line leaves the closed files
    alone and, inside a file, appends at most one change (the one
    [parseDiffLine] reads from the line, numbered) and at most one name to
    the seen-list. *)
Lemma scan_line_step : forall st line,
  exists st',
    git.scan_line st line = Ok st'
    /\ match git.fileHeaderRegex line with
       | Some (oldPath, newPath) =>
           st' = git.mkScanState (git.close_file st)
                   (Some (git.mkFileDiff oldPath newPath [] [])) [] 0
       | None =>
           git.result_Files st' = git.result_Files st
           /\ match git.currentFile st with
              | None => git.currentFile st' = None
              | Some f =>
                  exists name changes,
                    git.currentFile st'
                    = Some (git.addFunctionIfModified
                              (git.mkFileDiff (git.OldPath f) (git.NewPath f)
                                 (git.Changes f ++ changes) (git.Functions f)) name)
                    /\ (changes = []
                        \/ exists c,
                             git.parseDiffLine line (git.currentFunction st) = Ok (Some c)
                             /\ changes = [git.mkDiffChange (git.Type_ c) (git.Line c)
                                             (git.lineNum st) (git.Function c)])
              end
       end.
Proof.
  intros [files cur fn num] line. unfold git.scan_line.
  destruct (git.fileHeaderRegex line) as [[oldPath newPath]|].
  { eexists. split; reflexivity. }
  cbn [git.result_Files git.currentFile git.currentFunction git.lineNum].
  assert (Same : forall f, exists name changes,
             Some f = Some (git.addFunctionIfModified
                              (git.mkFileDiff (git.OldPath f) (git.NewPath f)
                                 (git.Changes f ++ changes) (git.Functions f)) name)
             /\ (changes = []
                 \/ exists c,
                      git.parseDiffLine line fn = Ok (Some c)
                      /\ changes = [git.mkDiffChange (git.Type_ c) (git.Line c)
                                      num (git.Function c)])).
  { intros f. exists [], []. rewrite FileDiff_eta. split; [reflexivity|now left]. }
  destruct (git.hunkHeaderRegex line) as [[[[[g1 g2] g3] g4] funcContext]|].
  { destruct (negb (streq funcContext [])).
    - destruct (extractFunctionName_total funcContext) as [name ->]. cbn [bind].
      destruct (streq name []) eqn:En; cbn [negb bind].
      + eexists. split; [reflexivity|]. cbn. split; [reflexivity|].
        destruct cur as [f|]; [apply Same|reflexivity].
      + eexists. split; [reflexivity|]. cbn. split; [reflexivity|].
        destruct cur as [f|]; cbn [option_map]; [|reflexivity].
        exists name, []. rewrite FileDiff_eta. split; [reflexivity|now left].
    - cbn [bind]. eexists. split; [reflexivity|]. cbn. split; [reflexivity|].
      destruct cur as [f|]; [apply Same|reflexivity]. }
  destruct (_ || _).
  { eexists. split; [reflexivity|]. cbn. split; [reflexivity|].
    destruct cur as [f|]; [apply Same|reflexivity]. }
  destruct cur as [f|]; [|eexists; split; [reflexivity|now split]].
  destruct (git.parseDiffLine line fn) as [[c|]|m] eqn:EP.
  - cbn [bind git.Type_ git.Line git.Function].
    destruct (_ && _).
    + destruct (extractFunctionName_total (git.Line c)) as [name ->]. cbn [bind].
      destruct (streq name []) eqn:En; cbn [negb bind].
      * eexists. split; [reflexivity|]. cbn. split; [reflexivity|].
        exists [], [git.mkDiffChange (git.Type_ c) (git.Line c) num (git.Function c)].
        split; [reflexivity|]. right. exists c. now split.
      * eexists. split; [reflexivity|]. cbn. split; [reflexivity|].
        exists name, [git.mkDiffChange (git.Type_ c) (git.Line c) num (git.Function c)].
        split; [reflexivity|]. right. exists c. now split.
    + cbn [bind]. eexists. split; [reflexivity|]. cbn. split; [reflexivity|].
      exists [], [git.mkDiffChange (git.Type_ c) (git.Line c) num (git.Function c)].
      split; [reflexivity|]. right. exists c. now split.
  - cbn [bind]. eexists. split; [reflexivity|]. cbn. split; [reflexivity|].
    apply Same.
  - destruct (parseDiffLine_total line fn) as [E | (c & E & _)]; congruence.
Qed.

Lemma close_file_step : forall st st' line,
  git.scan_line st line = Ok st' ->
  match git.fileHeaderRegex line with
  | Some (oldPath, newPath) =>
      git.close_file st' = git.close_file st ++ [git.mkFileDiff oldPath newPath [] []]
  | None =>
      match git.currentFile st with
      | None => git.close_file st' = git.close_file st
      | Some f =>
          exists name changes,
            git.close_file st'
            = git.result_Files st
              ++ [git.addFunctionIfModified
                    (git.mkFileDiff (git.OldPath f) (git.NewPath f)
                       (git.Changes f ++ changes) (git.Functions f)) name]
            /\ (changes = []
                \/ exists c,
                     git.parseDiffLine line (git.currentFunction st) = Ok (Some c)
                     /\ changes = [git.mkDiffChange (git.Type_ c) (git.Line c)
                                     (git.lineNum st) (git.Function c)])
      end
  end.
Proof.
  intros st st' line E.
  destruct (scan_line_step st line) as (st1 & E1 & H). rewrite E in E1.
  inversion E1; subst st1; clear E1.
  destruct (git.fileHeaderRegex line) as [[oldPath newPath]|].
  - subst st'. reflexivity.
  - destruct H as [HF HC].
    destruct (git.currentFile st) as [f|] eqn:Ef.
    + destruct HC as (name & changes & HC & Hch). exists name, changes.
      unfold git.close_file. rewrite HF, HC. now split.
    + unfold git.close_file. now rewrite HF, HC, Ef.
Qed.

(** A property of files that holds of a fresh file and is kept by every
    change and every name the loop adds holds of all files of the scan. *)
Lemma scan_files_invariant : forall (Q : git.FileDiff -> Prop) (lines : list gostring),
  (forall oldPath newPath, Q (git.mkFileDiff oldPath newPath [] [])) ->
  (forall f name, Q f -> Q (git.addFunctionIfModified f name)) ->
  (forall f c line fn num,
     Q f -> In line lines -> git.parseDiffLine line fn = Ok (Some c) ->
     Q (git.mkFileDiff (git.OldPath f) (git.NewPath f)
          (git.Changes f ++ [git.mkDiffChange (git.Type_ c) (git.Line c) num
                               (git.Function c)])
          (git.Functions f))) ->
  forall l st, incl l lines -> Forall Q (git.close_file st) ->
  exists st', foldM git.scan_line st l = Ok st' /\ Forall Q (git.close_file st').
Proof.
  intros Q lines Hnew Hadd Hch. induction l as [|line l IH]; intros st Hl HQ;
    cbn [foldM].
  - now exists st.
  - destruct (scan_line_step st line) as (st1 & E & _). rewrite E. cbn [bind].
    apply IH; [intros x Hx; apply Hl; now right|].
    pose proof (close_file_step st st1 line E) as H.
    destruct (git.fileHeaderRegex line) as [[oldPath newPath]|].
    + rewrite H. apply Forall_app. split; [exact HQ|]. constructor; [apply Hnew|constructor].
    + destruct (git.currentFile st) as [f|] eqn:Ef; [|now rewrite H].
      destruct H as (name & changes & -> & Hc).
      unfold git.close_file in HQ. rewrite Ef in HQ.
      apply Forall_app in HQ as [HQ1 HQ2]. inversion HQ2 as [|? ? Hf _]; subst.
      apply Forall_app. split; [exact HQ1|]. constructor; [|constructor].
      apply Hadd. destruct Hc as [-> | (c & Ec & ->)].
      * now rewrite FileDiff_eta.
      * apply (Hch f c line (git.currentFunction st) (git.lineNum st) Hf); [|exact Ec].
        apply Hl. now left.
Qed.

Lemma parseDiff_files_invariant : forall (Q : git.FileDiff -> Prop) text,
  (forall oldPath newPath, Q (git.mkFileDiff oldPath newPath [] [])) ->
  (forall f name, Q f -> Q (git.addFunctionIfModified f name)) ->
  (forall f c line fn num,
     Q f -> In line (bufio.ScanLines text) ->
     git.parseDiffLine line fn = Ok (Some c) ->
     Q (git.mkFileDiff (git.OldPath f) (git.NewPath f)
          (git.Changes f ++ [git.mkDiffChange (git.Type_ c) (git.Line c) num
                               (git.Function c)])
          (git.Functions f))) ->
  exists r, git.parseDiff text = Ok (Some r, None) /\ Forall Q (git.Files r).
Proof.
  intros Q text Hnew Hadd Hch. unfold git.parseDiff.
  destruct (scan_files_invariant Q (bufio.ScanLines text) Hnew Hadd Hch
              (bufio.ScanLines text) git.initial_state) as (st & -> & HQ).
  - apply incl_refl.
  - constructor.
  - cbn [bind]. eexists. split; [reflexivity|exact HQ].
Qed.

Lemma existsb_streq_In : forall name l,
  existsb (fun existing => streq existing name) l = true <-> In name l.
Proof.
  intros name l. rewrite existsb_exists. split.
  - intros (x & Hx & E). apply streq_eq in E. now subst.
  - intros H. exists name. split; [exact H|apply streq_refl].
Qed.

(** X1.  The seen-list of every file [parseDiff] returns holds no name
    twice and never the empty name. *)
Theorem parseDiff_seen_list_distinct : forall text,
  exists r,
    git.parseDiff text = Ok (Some r, None)
    /\ forall f, In f (git.Files r) ->
         NoDup (git.Functions f) /\ ~ In [] (git.Functions f).
Proof.
  intros text.
  destruct (parseDiff_files_invariant
              (fun f => NoDup (git.Functions f) /\ ~ In [] (git.Functions f)) text)
    as (r & E & H).
  - intros. split; [constructor|intros []].
  - intros f name [HN HE]. unfold git.addFunctionIfModified.
    destruct (streq name []) eqn:En; [now split|].
    destruct (existsb _ _) eqn:Ex; [now split|].
    cbn [git.Functions]. split.
    + apply NoDup_app; [exact HN|repeat constructor; intros []|].
      intros x Hx [E|[]]. subst x.
      assert (X : existsb (fun existing => streq existing name) (git.Functions f) = true)
        by now apply existsb_streq_In.
      congruence.
    + intros Hin. apply in_app_or in Hin as [Hin|[Hin|[]]]; [now apply HE|].
      subst name. discriminate.
  - intros f c line fn num Hf _ _. exact Hf.
  - exists r. split; [exact E|]. intros f Hf. rewrite Forall_forall in H. now apply H.
Qed.

(** X2.  [parseDiff] returns one file per file-header line of the text, in
    the order of the lines, with the two paths the header names. *)
Theorem parseDiff_one_file_per_header : forall text,
  exists r,
    git.parseDiff text = Ok (Some r, None)
    /\ map (fun f => (git.OldPath f, git.NewPath f)) (git.Files r)
       = flat_map (fun line => match git.fileHeaderRegex line with
                               | Some paths => [paths]
                               | None => []
                               end)
                  (bufio.ScanLines text).
Proof.
  intros text. unfold git.parseDiff.
  set (paths := fun f => (git.OldPath f, git.NewPath f)).
  set (header := fun line => match git.fileHeaderRegex line with
                             | Some p => [p]
                             | None => []
                             end).
  assert (HI : forall l st, exists st',
             foldM git.scan_line st l = Ok st'
             /\ map paths (git.close_file st')
                = map paths (git.close_file st) ++ flat_map header l).
  { induction l as [|line l IH]; intros st; cbn [foldM flat_map].
    - exists st. now rewrite app_nil_r.
    - destruct (scan_line_step st line) as (st1 & E & _). rewrite E. cbn [bind].
      destruct (IH st1) as (st' & E' & H'). exists st'. split; [exact E'|].
      rewrite H'. rewrite app_assoc. f_equal.
      pose proof (close_file_step st st1 line E) as H. unfold header.
      destruct (git.fileHeaderRegex line) as [[oldPath newPath]|].
      + rewrite H, map_app. reflexivity.
      + rewrite app_nil_r.
        destruct (git.currentFile st) as [f|] eqn:Ef; [|now rewrite H].
        destruct H as (name & changes & -> & _).
        unfold git.close_file. rewrite Ef, !map_app. f_equal. cbn [map]. f_equal.
        unfold paths.
        destruct (addFunctionIfModified_paths
                    (git.mkFileDiff (git.OldPath f) (git.NewPath f)
                       (git.Changes f ++ changes) (git.Functions f)) name) as [-> ->].
        reflexivity. }
  destruct (HI (bufio.ScanLines text) git.initial_state) as (st & -> & H).
  cbn [bind]. eexists. split; [reflexivity|]. exact H.
Qed.

(** X3.  Every change [parseDiff] records is what [parseDiffLine] reads
    from a line of the text, with the line number filled in; no change has
    the type [Modified]. *)
Theorem parseDiff_changes_from_lines : forall text,
  exists r,
    git.parseDiff text = Ok (Some r, None)
    /\ forall f, In f (git.Files r) ->
       forall c, In c (git.Changes f) ->
         git.Type_ c <> git.Modified
         /\ exists line,
              In line (bufio.ScanLines text)
              /\ git.parseDiffLine line (git.Function c)
                 = Ok (Some (git.mkDiffChange (git.Type_ c) (git.Line c) 0
                                              (git.Function c))).
Proof.
  intros text.
  destruct (parseDiff_files_invariant
              (fun f => forall c, In c (git.Changes f) ->
                 git.Type_ c <> git.Modified
                 /\ exists line,
                      In line (bufio.ScanLines text)
                      /\ git.parseDiffLine line (git.Function c)
                         = Ok (Some (git.mkDiffChange (git.Type_ c) (git.Line c) 0
                                                      (git.Function c)))) text)
    as (r & E & H).
  - intros oldPath newPath c [].
  - intros f name Hf c Hc. rewrite addFunctionIfModified_Changes in Hc. now apply Hf.
  - intros f c line fn num Hf Hline Hp x Hx. cbn [git.Changes] in Hx.
    apply in_app_or in Hx as [Hx|[<-|[]]]; [now apply Hf|].
    cbn [git.Type_ git.Line git.Function].
    destruct line as [|m rest]; [discriminate|].
    unfold git.parseDiffLine in Hp |- *. rewrite len_cons in *.
    assert (L : (len rest + 1 =? 0) = false)
      by (apply Z.eqb_neq; pose proof (len_nonneg _ rest); lia).
    rewrite L, index_at_0 in *. cbn [bind] in *.
    assert (S : slice_from (m :: rest) 1 = Ok rest).
    { rewrite slice_from_ok; [reflexivity|].
      rewrite len_cons. pose proof (len_nonneg _ rest). lia. }
    rewrite S in *. cbn [bind] in *.
    destruct (Ascii.eqb m "+") eqn:E1;
      [|destruct (Ascii.eqb m "-") eqn:E2; [|destruct (Ascii.eqb m " ") eqn:E3]];
      inversion Hp; subst c; cbn [git.Type_ git.Line git.Function];
      (split; [discriminate|]); exists (m :: rest); (split; [exact Hline|]);
      rewrite len_cons, L, index_at_0; cbn [bind]; rewrite S; cbn [bind];
      rewrite ?E1, ?E2, ?E3; reflexivity.
  - exists r. split; [exact E|]. intros f Hf. rewrite Forall_forall in H. now apply H.
Qed.

(* ================================================================== *)
(** ** The modified set *)
(* ================================================================== *)

Lemma set_insert_In : forall k keys x,
  In x (git.set_insert k keys) <-> In x keys \/ x = k.
Proof.
  intros k keys x. unfold git.set_insert.
  destruct (existsb (streq k) keys) eqn:E.
  - split; [now left|]. intros [H| ->]; [exact H|].
    apply existsb_exists in E as (y & Hy & Ey). apply streq_eq in Ey. now subst.
  - rewrite in_app_iff. cbn [In]. split.
    + intros [H|[H|[]]]; [now left|right; now symmetry].
    + intros [H| ->]; [now left|right; now left].
Qed.

Lemma set_insert_NoDup : forall k keys, NoDup keys -> NoDup (git.set_insert k keys).
Proof.
  intros k keys H. unfold git.set_insert.
  destruct (existsb (streq k) keys) eqn:E; [exact H|].
  apply NoDup_app; [exact H|repeat constructor; intros []|].
  intros x Hx [<-|[]].
  assert (X : existsb (streq k) keys = true).
  { apply existsb_exists. exists k. split; [exact Hx|apply streq_refl]. }
  congruence.
Qed.

(** The loop of [GetModifiedFunctions], from any set of names. *)
Lemma modified_fold : forall changes acc,
  let step := fun functionsWithChanges change =>
                if (git.ChangeType_eqb (git.Type_ change) git.Added
                    || git.ChangeType_eqb (git.Type_ change) git.Removed)
                   && negb (streq (git.Function change) [])
                then git.set_insert (git.Function change) functionsWithChanges
                else functionsWithChanges in
  (NoDup acc -> NoDup (fold_left step changes acc))
  /\ forall name,
       In name (fold_left step changes acc)
       <-> In name acc
           \/ (name <> []
               /\ exists c, In c changes
                    /\ (git.Type_ c = git.Added \/ git.Type_ c = git.Removed)
                    /\ git.Function c = name).
Proof.
  induction changes as [|c changes IH]; intros acc step; cbn [fold_left].
  - split; [auto|]. intros name. split; [now left|].
    intros [H|(_ & x & [] & _)]. exact H.
  - destruct (IH (step acc c)) as [IH1 IH2]. fold step in IH1, IH2. split.
    + intros HN. apply IH1. unfold step.
      destruct (_ && _); [now apply set_insert_NoDup|exact HN].
    + intros name. rewrite IH2. clear IH1 IH2. unfold step at 1.
      destruct ((git.ChangeType_eqb (git.Type_ c) git.Added
                 || git.ChangeType_eqb (git.Type_ c) git.Removed)
                && negb (streq (git.Function c) [])) eqn:E.
      * apply andb_true_iff in E as [Et En]. apply negb_true_iff, streq_neq in En.
        assert (Ht : git.Type_ c = git.Added \/ git.Type_ c = git.Removed)
          by (destruct (git.Type_ c); try discriminate; auto).
        rewrite set_insert_In. split.
        -- intros [[H| ->]|(Hn & x & Hx & Hty & Hf)].
           ++ now left.
           ++ right. split; [exact En|]. exists c. repeat split; auto. now left.
           ++ right. split; [exact Hn|]. exists x. repeat split; auto. now right.
        -- intros [H|(Hn & x & [<-|Hx] & Hty & Hf)].
           ++ left. now left.
           ++ left. right. now symmetry.
           ++ right. split; [exact Hn|]. now exists x.
      * split.
        -- intros [H|(Hn & x & Hx & Hty & Hf)]; [now left|].
           right. split; [exact Hn|]. exists x. repeat split; auto. now right.
        -- intros [H|(Hn & x & [<-|Hx] & Hty & Hf)]; [now left| |].
           ++ exfalso. apply andb_false_iff in E as [E|E].
              ** destruct Hty as [T|T]; rewrite T in E; discriminate.
              ** apply negb_false_iff, streq_eq in E. congruence.
           ++ right. split; [exact Hn|]. now exists x.
Qed.

(** X4.  [GetModifiedFunctions] returns, without repetition, exactly the
    non-empty names that tag an added or a removed line of the file. *)
Theorem GetModifiedFunctions_spec : forall fd,
  NoDup (git.GetModifiedFunctions fd)
  /\ forall name,
       In name (git.GetModifiedFunctions fd)
       <-> name <> []
           /\ exists c, In c (git.Changes fd)
                /\ (git.Type_ c = git.Added \/ git.Type_ c = git.Removed)
                /\ git.Function c = name.
Proof.
  intros fd. unfold git.GetModifiedFunctions.
  destruct (modified_fold (git.Changes fd) []) as [H1 H2]. split.
  - apply H1. constructor.
  - intros name. rewrite H2. split; [intros [[]|H]; exact H|now right].
Qed.

(** X5.  In every file [parseDiff] returns, the modified set is part of
    the seen-list. *)
Theorem parseDiff_modified_are_seen : forall text,
  exists r,
    git.parseDiff text = Ok (Some r, None)
    /\ forall f, In f (git.Files r) ->
         incl (git.GetModifiedFunctions f) (git.Functions f).
Proof.
  intros text. destruct (parseDiff_result text) as (st & E & HF & HC).
  eexists. split; [exact E|]. cbn [git.Files]. intros f Hf name Hname.
  assert (HA : Forall git.tagsSeen (git.close_file st)).
  { unfold git.close_file. destruct (git.currentFile st) as [g|]; [|exact HF].
    apply Forall_app. split; [exact HF|]. constructor; [apply HC|constructor]. }
  rewrite Forall_forall in HA. specialize (HA f Hf).
  unfold git.GetModifiedFunctions in Hname.
  destruct (modified_fold (git.Changes f) []) as [_ H2].
  apply H2 in Hname as [[]|(Hn & c & Hc & _ & Hfn)].
  destruct (HA c Hc) as [X|X]; [congruence|]. now rewrite <- Hfn.
Qed.


(* ================================================================== *)
(** ** Lines of a hunk *)
(* ================================================================== *)

Lemma parseDiffLine_closed : forall line currentFunction,
  git.parseDiffLine line currentFunction
  = Ok (match line with
        | [] => None
        | c :: rest =>
            if Ascii.eqb c "+"%char
            then Some (git.mkDiffChange git.Added rest 0 currentFunction)
            else if Ascii.eqb c "-"%char
            then Some (git.mkDiffChange git.Removed rest 0 currentFunction)
            else if Ascii.eqb c " "%char
            then Some (git.mkDiffChange git.Context rest 0 currentFunction)
            else None
        end).
Proof.
  intros [|c line] cf; [reflexivity|].
  unfold git.parseDiffLine. rewrite len_cons.
  assert (E : (len line + 1 =? 0) = false)
    by (apply Z.eqb_neq; pose proof (len_nonneg _ line); lia).
  rewrite E, index_at_0. cbn [bind].
  assert (S : slice_from (c :: line) 1 = Ok line).
  { rewrite slice_from_ok; [reflexivity|].
    rewrite len_cons. pose proof (len_nonneg _ line). lia. }
  rewrite S. cbn [bind].
  destruct (Ascii.eqb c "+"); [reflexivity|].
  destruct (Ascii.eqb c "-"); [reflexivity|].
  destruct (Ascii.eqb c " "); reflexivity.
Qed.

(** X7.  [parseDiffLine] returns for every line and never faults.  It
    returns nil exactly for the empty line and for a line whose first byte
    is none of the three markers; a change it returns gives the line back
    (the marker of its type followed by its text), carries the function
    it was given and the line number 0. *)
Theorem parseDiffLine_spec : forall line currentFunction,
  exists r,
    git.parseDiffLine line currentFunction = Ok r
    /\ (r = None
        <-> match line with
            | [] => True
            | c :: _ => c <> "+"%char /\ c <> "-"%char /\ c <> " "%char
            end)
    /\ forall change,
         r = Some change ->
         option_map (fun m => m :: git.Line change) (git.marker (git.Type_ change))
         = Some line
         /\ git.Function change = currentFunction
         /\ git.LineNum change = 0.
Proof.
  intros line currentFunction. eexists. split; [apply parseDiffLine_closed|].
  destruct line as [|c rest].
  - split; [split; auto|discriminate].
  - destruct (Ascii.eqb c "+") eqn:E1;
      [|destruct (Ascii.eqb c "-") eqn:E2; [|destruct (Ascii.eqb c " ") eqn:E3]].
    + apply Ascii.eqb_eq in E1. subst c. split.
      * split; [discriminate|]. intros (H & _). now contradiction H.
      * intros change E. inversion E; subst change. now repeat split.
    + apply Ascii.eqb_eq in E2. subst c. split.
      * split; [discriminate|]. intros (_ & H & _). now contradiction H.
      * intros change E. inversion E; subst change. now repeat split.
    + apply Ascii.eqb_eq in E3. subst c. split.
      * split; [discriminate|]. intros (_ & _ & H). now contradiction H.
      * intros change E. inversion E; subst change. now repeat split.
    + apply Ascii.eqb_neq in E1, E2, E3. split; [|discriminate].
      split; auto.
Qed.

Lemma parseDiffLine_spec_added :
  exists change,
    git.parseDiffLine (str "+func DeleteUser(id int) error {") (str "GetName")
    = Ok (Some change)
    /\ git.Type_ change = git.Added
    /\ git.Line change = str "func DeleteUser(id int) error {"
    /\ git.Function change = str "GetName"
    /\ git.LineNum change = 0.
Proof.
  destruct (parseDiffLine_spec (str "+func DeleteUser(id int) error {") (str "GetName"))
    as (r & E & _ & H).
  vm_compute in E. injection E as E.
  destruct r as [change|]; [|discriminate E].
  exists change. destruct (H change eq_refl) as (M & F & N).
  injection E as E. subst change. now repeat split.
Defined.

(** X8.  A removed line never moves the function tracker and never adds
    to the seen-list, not even when it is the declaration line of a
    function: it is recorded under the function tracked before it. *)
Theorem removed_line_keeps_tracker : forall st f text,
  git.currentFile st = Some f ->
  strings.HasPrefix ("-"%char :: text) (str "--- ") = false ->
  git.scan_line st ("-"%char :: text)
  = Ok (git.mkScanState (git.result_Files st)
          (Some (git.mkFileDiff (git.OldPath f) (git.NewPath f)
                   (git.Changes f
                    ++ [git.mkDiffChange git.Removed text (git.lineNum st)
                                         (git.currentFunction st)])
                   (git.Functions f)))
          (git.currentFunction st) (git.lineNum st + 1)).
Proof.
  intros [files cur fn num] f text Hc Hm. cbn [git.currentFile] in Hc. subst cur.
  unfold git.scan_line.
  change (git.fileHeaderRegex ("-"%char :: text)) with (@None (gostring * gostring)).
  change (git.hunkHeaderRegex ("-"%char :: text))
    with (@None (gostring * gostring * gostring * gostring * gostring)).
  change (strings.HasPrefix ("-"%char :: text) (str "index ")) with false.
  change (strings.HasPrefix ("-"%char :: text) (str "+++ ")) with false.
  rewrite Hm. cbn [orb git.currentFile git.currentFunction git.lineNum git.result_Files].
  rewrite parseDiffLine_closed. reflexivity.
Qed.

Lemma removed_line_keeps_tracker_OldHelper :
  git.scan_line
    (git.mkScanState [] (Some (git.mkFileDiff (str "user.go") (str "user.go") []
                                 [str "CreateUser"])) (str "CreateUser") 5)
    (str "-func OldHelper() {")
  = Ok (git.mkScanState []
          (Some (git.mkFileDiff (str "user.go") (str "user.go")
                   [git.mkDiffChange git.Removed (str "func OldHelper() {") 5
                                     (str "CreateUser")]
                   [str "CreateUser"]))
          (str "CreateUser") 6).
Proof.
  exact (removed_line_keeps_tracker
           (git.mkScanState [] (Some (git.mkFileDiff (str "user.go") (str "user.go") []
                                        [str "CreateUser"])) (str "CreateUser") 5)
           (git.mkFileDiff (str "user.go") (str "user.go") [] [str "CreateUser"])
           (str "func OldHelper() {") eq_refl eq_refl).
Defined.

(* ================================================================== *)
(** ** What trimming leaves *)
(* ================================================================== *)

Lemma strip_front_suffix : forall seqs fuel s,
  exists p, s = p ++ strings.strip_front seqs fuel s.
Proof.
  intros seqs. induction fuel as [|fuel IH]; intros s; cbn [strings.strip_front].
  - now exists [].
  - destruct (find (strings.HasPrefix s) seqs) as [e|]; [|now exists []].
    destruct (IH (skipn (length e) s)) as [p Hp].
    exists (firstn (length e) s ++ p). rewrite <- app_assoc, <- Hp.
    now rewrite firstn_skipn.
Qed.

Lemma find_none_existsb : forall (A : Type) (p : A -> bool) l,
  find p l = None -> existsb p l = false.
Proof.
  induction l as [|x l IH]; intros H; [reflexivity|].
  cbn [find existsb] in *. destruct (p x); [discriminate|]. now apply IH.
Qed.

Lemma HasPrefix_nil : forall e, e <> [] -> strings.HasPrefix [] e = false.
Proof. intros [|c e] H; [contradiction|reflexivity]. Qed.

Lemma strip_front_done : forall seqs,
  Forall (fun e => e <> []) seqs ->
  forall fuel s, (length s <= fuel)%nat ->
  existsb (strings.HasPrefix (strings.strip_front seqs fuel s)) seqs = false.
Proof.
  intros seqs Hne. induction fuel as [|fuel IH]; intros s Hs;
    cbn [strings.strip_front].
  - destruct s; [|cbn in Hs; lia].
    destruct (existsb (strings.HasPrefix []) seqs) eqn:E; [|reflexivity].
    apply existsb_exists in E as (e & He & Hp).
    rewrite Forall_forall in Hne. rewrite HasPrefix_nil in Hp by now apply Hne.
    discriminate.
  - destruct (find (strings.HasPrefix s) seqs) as [e|] eqn:F.
    + apply find_some in F as [He Hp]. apply IH.
      rewrite Forall_forall in Hne. specialize (Hne e He).
      rewrite length_skipn. destruct e; [contradiction|]. cbn [length].
      destruct s; [discriminate|]. cbn [length] in *. lia.
    + now apply find_none_existsb.
Qed.

Lemma trim_left_done : forall seqs s,
  Forall (fun e => e <> []) seqs ->
  existsb (strings.HasPrefix (strings.trim_left seqs s)) seqs = false.
Proof. intros seqs s H. now apply strip_front_done. Qed.

Lemma trim_right_done : forall seqs s,
  Forall (fun e => e <> []) seqs ->
  existsb (strings.HasSuffix (strings.trim_right seqs s)) seqs = false.
Proof.
  intros seqs s H. unfold strings.trim_right, strings.HasSuffix.
  rewrite rev_involutive.
  rewrite <- (existsb_map _ _ (@rev ascii)
                (strings.HasPrefix (strings.strip_front (map (@rev ascii) seqs)
                                      (length s) (rev s)))).
  apply strip_front_done; [|now rewrite length_rev].
  apply Forall_forall. intros e' He'. apply in_map_iff in He' as (e & <- & He).
  rewrite Forall_forall in H. specialize (H e He).
  intros X. apply H. apply (f_equal (@rev ascii)) in X.
  now rewrite rev_involutive in X.
Qed.

Lemma trim_left_suffix : forall seqs s, exists p, s = p ++ strings.trim_left seqs s.
Proof. intros. apply strip_front_suffix. Qed.

Lemma trim_right_prefix : forall seqs s, exists q, s = strings.trim_right seqs s ++ q.
Proof.
  intros seqs s. unfold strings.trim_right.
  destruct (strip_front_suffix (map (@rev ascii) seqs) (length s) (rev s)) as [p Hp].
  exists (rev p). rewrite <- rev_app_distr, <- Hp. now rewrite rev_involutive.
Qed.

(** What both trimming functions return is a piece of their argument. *)
Lemma TrimSpace_piece : forall s,
  exists a b, s = a ++ strings.TrimSpace s ++ b.
Proof.
  intros s. unfold strings.TrimSpace.
  destruct (trim_left_suffix strings.space_encodings s) as [a Ha].
  destruct (trim_right_prefix strings.space_encodings
              (strings.trim_left strings.space_encodings s)) as [b Hb].
  exists a, b. now rewrite <- Hb.
Qed.

Lemma Trim_piece : forall s cutset,
  exists a b, s = a ++ strings.Trim s cutset ++ b.
Proof.
  intros s cutset. unfold strings.Trim.
  set (singles := map (fun c => [c]) cutset).
  destruct (trim_left_suffix singles s) as [a Ha].
  destruct (trim_right_prefix singles (strings.trim_left singles s)) as [b Hb].
  exists a, b. now rewrite <- Hb.
Qed.

Lemma singles_nonempty : forall cutset : gostring,
  Forall (fun e : gostring => e <> []) (map (fun c => [c]) cutset).
Proof.
  intros cutset. apply Forall_forall. intros e He.
  apply in_map_iff in He as (c & <- & _). discriminate.
Qed.

(** [Trim] leaves no byte of the cutset at either end. *)
Lemma Trim_ends : forall s cutset c,
  In c cutset ->
  strings.HasPrefix (strings.Trim s cutset) [c] = false
  /\ strings.HasSuffix (strings.Trim s cutset) [c] = false.
Proof.
  intros s cutset c Hc. unfold strings.Trim.
  set (singles := map (fun c => [c]) cutset).
  assert (Hin : In [c] singles) by (apply in_map_iff; now exists c).
  pose proof (trim_left_done singles s (singles_nonempty cutset)) as HL.
  pose proof (trim_right_done singles (strings.trim_left singles s)
                (singles_nonempty cutset)) as HR.
  destruct (trim_right_prefix singles (strings.trim_left singles s)) as [q Hq].
  set (r := strings.trim_right singles (strings.trim_left singles s)) in *.
  split.
  - destruct r as [|x r']; [reflexivity|].
    destruct (strings.HasPrefix (x :: r') [c]) eqn:E; [|reflexivity].
    assert (X : existsb (strings.HasPrefix (strings.trim_left singles s)) singles = true).
    { apply existsb_exists. exists [c]. split; [exact Hin|].
      rewrite Hq. cbn [app strings.HasPrefix] in *. exact E. }
    congruence.
  - destruct (strings.HasSuffix r [c]) eqn:E; [|reflexivity].
    assert (X : existsb (strings.HasSuffix r) singles = true)
      by (apply existsb_exists; now exists [c]).
    congruence.
Qed.

Lemma Index_first : forall c s,
  0 <= strings.Index s [c] ->
  ~ In c (firstn (Z.to_nat (strings.Index s [c])) s).
Proof.
  intros c. induction s as [|a s IH]; intros H; cbn [strings.Index] in *.
  - rewrite firstn_nil. intros [].
  - destruct (strings.HasPrefix (a :: s) [c]) eqn:E; [intros []|].
    cbn zeta in *. destruct (strings.Index s [c] <? 0) eqn:L; [lia|].
    apply Z.ltb_ge in L. rewrite Z2Nat.inj_add by lia.
    rewrite Nat.add_comm. cbn [Z.to_nat Pos.to_nat Pos.iter_op Nat.add firstn].
    intros [X|X]; [|now apply IH].
    subst a. cbn [strings.HasPrefix] in E. rewrite Ascii.eqb_refl in E.
    destruct s; discriminate.
Qed.

Lemma Contains_piece : forall a p b, strings.Contains (a ++ p ++ b) p = true.
Proof.
  intros a p b. unfold strings.Contains. apply Z.leb_le.
  induction a as [|x a IH].
  - cbn [app]. destruct (p ++ b) as [|y u] eqn:E; cbn [strings.Index].
    + destruct p; [reflexivity|discriminate].
    + rewrite <- E, HasPrefix_app. lia.
  - cbn [app strings.Index]. destruct (strings.HasPrefix _ p); [lia|].
    cbn zeta. destruct (strings.Index (a ++ p ++ b) p <? 0) eqn:L; [|lia].
    apply Z.ltb_lt in L. lia.
Qed.

Lemma piece_In : forall (s t a b : gostring) c, t = a ++ s ++ b -> In c s -> In c t.
Proof.
  intros s t a b c -> H. apply in_or_app. right. apply in_or_app. now left.
Qed.

Lemma piece_trans : forall (s t u a b a' b' : gostring),
  t = a ++ s ++ b -> u = a' ++ t ++ b' -> u = (a' ++ a) ++ s ++ (b ++ b').
Proof. intros; subst. now rewrite <- !app_assoc. Qed.

(** X9.  [extractFunctionName] returns for every line and never faults.
    The name it returns holds no opening parenthesis and neither starts nor
    ends with a byte of the cutset (space, tab, '*', '&', '[', ']'); it is
    not empty only for a line that contains "func ". *)
Theorem extractFunctionName_shape : forall line,
  exists name,
    git.extractFunctionName line = Ok name
    /\ ~ In "("%char name
    /\ (forall c, In c git.cutset ->
          strings.HasPrefix name [c] = false /\ strings.HasSuffix name [c] = false)
    /\ (name <> [] -> strings.Contains line (str "func ") = true).
Proof.
  intros line.
  assert (Empty : exists name : gostring,
             Ok (@nil ascii) = Ok name
             /\ ~ In "("%char name
             /\ (forall c, In c git.cutset ->
                   strings.HasPrefix name [c] = false
                   /\ strings.HasSuffix name [c] = false)
             /\ (name <> [] -> strings.Contains line (str "func ") = true)).
  { exists []. split; [reflexivity|]. split; [intros []|]. split.
    - intros c _. now split.
    - intros H. now contradiction H. }
  unfold git.extractFunctionName. cbv zeta.
  destruct (TrimSpace_piece line) as (a0 & b0 & H0).
  set (l0 := strings.TrimSpace line) in *.
  assert (H1 : exists l1 a1 b1,
             (if strings.HasPrefix l0 (str "+") || strings.HasPrefix l0 (str "-")
                 || strings.HasPrefix l0 (str " ")
              then rest <- slice_from l0 1 ;; Ok (strings.TrimSpace rest)
              else Ok l0) = Ok l1
             /\ line = a1 ++ l1 ++ b1).
  { destruct (_ || _) eqn:E; [|now exists l0, a0, b0].
    assert (1 <= len l0).
    { apply orb_true_iff in E as [E|E]; [apply orb_true_iff in E as [E|E]|];
        apply HasPrefix_len in E; exact E. }
    rewrite slice_from_ok by lia. cbn [bind].
    destruct (TrimSpace_piece (skipn (Z.to_nat 1) l0)) as (a & b & Hab).
    eexists. exists (a0 ++ firstn (Z.to_nat 1) l0 ++ a), (b ++ b0).
    split; [reflexivity|].
    rewrite H0 at 1. rewrite <- (firstn_skipn (Z.to_nat 1) l0) at 1.
    rewrite Hab at 1. now rewrite <- !app_assoc. }
  destruct H1 as (l1 & a1 & b1 & -> & H1). cbn [bind].
  destruct (strings.HasPrefix l1 (str "func ")) eqn:EF; cbn [negb]; [|exact Empty].
  assert (HC : strings.Contains line (str "func ") = true).
  { apply HasPrefix_split in EF. rewrite EF in H1. rewrite H1.
    rewrite <- app_assoc. apply Contains_piece. }
  clear Empty.
  assert (Empty : exists name : gostring,
             Ok (@nil ascii) = Ok name
             /\ ~ In "("%char name
             /\ (forall c, In c git.cutset ->
                   strings.HasPrefix name [c] = false
                   /\ strings.HasSuffix name [c] = false)
             /\ (name <> [] -> strings.Contains line (str "func ") = true)).
  { exists []. split; [reflexivity|]. split; [intros []|]. split.
    - intros c _. now split.
    - intros _. exact HC. }
  set (l2 := strings.TrimSpace (strings.TrimPrefix l1 (str "func "))).
  assert (H3 : exists l3,
             (if strings.HasPrefix l2 (str "(")
              then if negb (strings.Index l2 (str ") ") =? -1)
                   then rest <- slice_from l2 (strings.Index l2 (str ") ") + 2) ;;
                        Ok (strings.TrimSpace rest)
                   else Ok l2
              else Ok l2) = Ok l3).
  { destruct (strings.HasPrefix l2 (str "(")); [|now eexists].
    destruct (strings.Index l2 (str ") ") =? -1) eqn:E;
      cbn [negb]; [now eexists|].
    apply Z.eqb_neq in E.
    destruct (Index_bounds (str ") ") l2) as [B|B]; [contradiction|].
    change (len (str ") ")) with 2 in B.
    rewrite slice_from_ok by lia. cbn [bind]. now eexists. }
  destruct H3 as [l3 ->]. cbn [bind].
  destruct (strings.Index l3 (str "(") =? -1) eqn:E; [exact Empty|].
  apply Z.eqb_neq in E.
  destruct (Index_bounds (str "(") l3) as [B|B]; [contradiction|].
  change (len (str "(")) with 1 in B.
  rewrite slice_to_ok by lia. cbn [bind].
  set (before := firstn (Z.to_nat (strings.Index l3 (str "("))) l3).
  eexists. split; [reflexivity|]. split; [|split].
  - intros Hin.
    destruct (Trim_piece (strings.TrimSpace before) git.cutset) as (a & b & Hab).
    destruct (TrimSpace_piece before) as (a' & b' & Hab').
    apply (piece_In _ _ _ _ _ Hab) in Hin. apply (piece_In _ _ _ _ _ Hab') in Hin.
    revert Hin. apply (Index_first "("%char l3). exact (proj1 B).
  - intros c Hc. now apply Trim_ends.
  - intros _. exact HC.
Qed.

(* ================================================================== *)
(** ** Lines the scanner cannot hold *)
(* ================================================================== *)

Lemma raw_lines_line : forall s cur t,
  existsb (Ascii.eqb bufio.newline) s = false ->
  bufio.raw_lines cur (s ++ bufio.newline :: t)
  = (rev cur ++ s) :: bufio.raw_lines [] t.
Proof.
  induction s as [|c s IH]; intros cur t H; cbn [app bufio.raw_lines].
  - rewrite Ascii.eqb_refl. now rewrite app_nil_r.
  - cbn [existsb] in H. apply orb_false_iff in H as [Hc Hs].
    rewrite Ascii.eqb_sym, Hc. rewrite IH by exact Hs.
    cbn [rev]. now rewrite <- app_assoc.
Qed.

Lemma raw_lines_last : forall s cur,
  existsb (Ascii.eqb bufio.newline) s = false ->
  bufio.raw_lines cur s
  = match rev cur ++ s with [] => [] | _ :: _ => [rev cur ++ s] end.
Proof.
  induction s as [|c s IH]; intros cur H; cbn [bufio.raw_lines].
  - rewrite app_nil_r. destruct cur as [|x cur]; [reflexivity|].
    destruct (rev (x :: cur)) eqn:E; [|reflexivity].
    apply (f_equal (@length ascii)) in E. rewrite length_rev in E. discriminate.
  - cbn [existsb] in H. apply orb_false_iff in H as [Hc Hs].
    rewrite Ascii.eqb_sym, Hc. rewrite IH by exact Hs.
    cbn [rev]. now rewrite <- app_assoc.
Qed.

Lemma raw_lines_app : forall p cur rest,
  bufio.raw_lines cur ((p ++ [bufio.newline]) ++ rest)
  = bufio.raw_lines cur (p ++ [bufio.newline]) ++ bufio.raw_lines [] rest.
Proof.
  induction p as [|c p IH]; intros cur rest; cbn [app bufio.raw_lines].
  - now rewrite Ascii.eqb_refl.
  - destruct (Ascii.eqb c bufio.newline).
    + rewrite IH. reflexivity.
    + apply IH.
Qed.

Lemma tokens_long : forall ls l rest,
  bufio.MaxScanTokenSize <= len l ->
  bufio.tokens (ls ++ l :: rest) = bufio.tokens ls.
Proof.
  induction ls as [|x ls IH]; intros l rest H; cbn [app bufio.tokens].
  - apply Z.ltb_ge in H. now rewrite H.
  - destruct (len x <? bufio.MaxScanTokenSize); [|reflexivity].
    f_equal. now apply IH.
Qed.

(** X10.  [parseDiff] reads a text up to its first line of
    [MaxScanTokenSize] bytes or more and returns what it has read until
    then, with a nil error: the scanner stops there and [parseDiff] never
    asks it why. *)
Theorem parseDiff_stops_at_long_line : forall pre long post,
  (pre = [] \/ exists p, pre = p ++ [bufio.newline]) ->
  existsb (Ascii.eqb bufio.newline) long = false ->
  (bufio.MaxScanTokenSize <=? len long) = true ->
  git.parseDiff (pre ++ long ++ bufio.newline :: post) = git.parseDiff pre
  /\ git.parseDiff (pre ++ long) = git.parseDiff pre.
Proof.
  intros pre long post Hpre Hnl Hlen. apply Z.leb_le in Hlen.
  assert (Hne : long <> []).
  { intros ->. unfold bufio.MaxScanTokenSize in Hlen. cbn in Hlen. lia. }
  assert (H1 : bufio.raw_lines [] (long ++ bufio.newline :: post)
               = long :: bufio.raw_lines [] post)
    by (now rewrite raw_lines_line).
  assert (H2 : bufio.raw_lines [] long = [long]).
  { rewrite raw_lines_last by exact Hnl. cbn [rev app].
    destruct long; [contradiction|reflexivity]. }
  unfold git.parseDiff, bufio.ScanLines.
  destruct Hpre as [-> | (p & ->)].
  - cbn [app]. rewrite H1, H2.
    pose proof (tokens_long [] long (bufio.raw_lines [] post) Hlen) as T1.
    pose proof (tokens_long [] long [] Hlen) as T2.
    cbn [app] in T1, T2. rewrite T1, T2. now split.
  - rewrite !raw_lines_app, H1, H2, !tokens_long by exact Hlen. now split.
Qed.

Lemma parseDiff_stops_at_long_line_witness :
  git.parseDiff (str "diff --git a/x.go b/x.go" ++ [bufio.newline]
                 ++ repeat "x"%char (Z.to_nat bufio.MaxScanTokenSize) ++ bufio.newline
                 :: str "diff --git a/y.go b/y.go")
  = git.parseDiff (str "diff --git a/x.go b/x.go" ++ [bufio.newline]).
Proof.
  rewrite (app_assoc (str "diff --git a/x.go b/x.go") [bufio.newline]).
  refine (proj1 (parseDiff_stops_at_long_line
                   (str "diff --git a/x.go b/x.go" ++ [bufio.newline])
                   (repeat "x"%char (Z.to_nat bufio.MaxScanTokenSize)) (str "diff --git a/y.go b/y.go") _ _ _)).
  - right. now exists (str "diff --git a/x.go b/x.go").
  - vm_compute. reflexivity.
  - vm_compute. reflexivity.
Defined.

(* ================================================================== *)
(** ** Hunk headers *)
(* ================================================================== *)







(* ================================================================== *)
(** ** What [ParseFile] returns *)
(* ================================================================== *)

Section ParseFileResult.
Import parser.

Lemma find_filter_other : forall (V : Type) (l : list (gostring * V)) k k',
  streq k k' = false ->
  find (fun kv => streq (fst kv) k')
       (filter (fun kv => negb (streq (fst kv) k)) l)
  = find (fun kv => streq (fst kv) k') l.
Proof.
  intros V l k k' Hk. induction l as [|[a b] l IH]; [reflexivity|].
  cbn [filter find fst]. destruct (streq a k) eqn:Ea; cbn [negb].
  - apply streq_eq in Ea. subst a. now rewrite Hk.
  - cbn [find fst]. now rewrite IH.
Qed.

Lemma holds_assign : forall l bs k v,
  walked.holds l bs ->
  exists l',
    map_assign (Some l) k (extractValue v) = Ok (Some l')
    /\ walked.holds l' (bs ++ [(k, v)]).
Proof.
  intros l bs k v H. eexists. split; [reflexivity|]. intros k'.
  unfold walked.lastValue. rewrite rev_app_distr. cbn [rev app find fst map_lookup].
  destruct (streq k k') eqn:E; [reflexivity|].
  rewrite find_filter_other by exact E. apply (H k').
Qed.

Lemma assignValues_holds : forall names i values l bs,
  walked.holds l bs ->
  exists l',
    assignValues (Some l) names i values = Ok (Some l')
    /\ walked.holds l' (bs ++ walked.valued names i values).
Proof.
  induction names as [|name names IH]; intros i values l bs H;
    cbn [assignValues walked.valued].
  - exists l. now rewrite app_nil_r.
  - destruct (nth_error values i) as [v|].
    + destruct (holds_assign l bs name v H) as (l1 & -> & H1). cbn [bind].
      destruct (IH (S i) values l1 _ H1) as (l' & E & H').
      exists l'. split; [exact E|]. now rewrite <- app_assoc in H'.
    + cbn [bind app]. now apply IH.
Qed.

Lemma assignValues_no_value : forall (m : gomap gostring) names i,
  assignValues m names i [] = Ok m.
Proof.
  intros m. induction names as [|name names IH]; intros i; cbn [assignValues];
    [reflexivity|].
  destruct i; cbn [nth_error bind]; apply IH.
Qed.

Lemma valued_no_value : forall names i, walked.valued names i [] = [].
Proof.
  induction names as [|name names IH]; intros i; cbn [walked.valued];
    [reflexivity|].
  destruct i; cbn [nth_error app]; apply IH.
Qed.

(** The specifications of one declaration, when none of them writes a
    variable. *)
Lemma analyzeGenDecl_ok : forall tok specs a l bs,
  FileAnalysis.Variables a = None ->
  FileAnalysis.Constants a = Some l ->
  walked.holds l bs ->
  walked.writesVariable (ast.NDecl (ast.GenDecl tok specs)) = false ->
  exists l',
    analyzeGenDecl tok specs a
    = Ok (FileAnalysis.mk (FileAnalysis.PackageName a) (FileAnalysis.Imports a)
            (FileAnalysis.Functions a) (Some l') None
            (FileAnalysis.Types a
             ++ map walked.typeInfo
                    (walked.typeSpecs [ast.NDecl (ast.GenDecl tok specs)])))
    /\ walked.holds l' (bs ++ walked.constSpecs [ast.NDecl (ast.GenDecl tok specs)]).
Proof.
  intros tok specs. unfold analyzeGenDecl.
  induction specs as [|s specs IH]; intros [pn im fs cs vs ts] l bs Hv Hc Hh Hw;
    cbn [FileAnalysis.Variables FileAnalysis.Constants FileAnalysis.PackageName
         FileAnalysis.Imports FileAnalysis.Functions FileAnalysis.Types] in *;
    subst vs cs.
  - exists l. cbn [foldM walked.typeSpecs walked.constSpecs flat_map map app].
    rewrite !app_nil_r. split; [reflexivity|].
    destruct tok; cbn [flat_map app]; now rewrite ?app_nil_r.
  - assert (Hw' : walked.writesVariable (ast.NDecl (ast.GenDecl tok specs)) = false).
    { destruct tok; try reflexivity. cbn [walked.writesVariable existsb] in Hw |- *.
      now apply orb_false_iff in Hw as [_ Hw]. }
    cbn [foldM].
    destruct s as [i|names t values|name tp t].
    + cbn [bind].
      destruct (IH (FileAnalysis.mk pn im fs (Some l) None ts) l bs
                  eq_refl eq_refl Hh Hw') as (l' & E & H').
      exists l'. split; [exact E|].
      destruct tok; cbn [walked.constSpecs flat_map app] in H' |- *; exact H'.
    + destruct tok.
      * cbn [bind].
        destruct (IH (FileAnalysis.mk pn im fs (Some l) None ts) l bs
                    eq_refl eq_refl Hh Hw') as (l' & E & H').
        exists l'. split; [exact E|exact H'].
      * cbn [FileAnalysis.Constants FileAnalysis.PackageName FileAnalysis.Imports
             FileAnalysis.Functions FileAnalysis.Types FileAnalysis.Variables].
        destruct (assignValues_holds names 0 values l bs Hh) as (l1 & -> & H1).
        cbn [bind].
        destruct (IH (FileAnalysis.mk pn im fs (Some l1) None ts) l1 _
                    eq_refl eq_refl H1 Hw') as (l' & E & H').
        exists l'. split; [exact E|].
        cbn [walked.constSpecs flat_map] in H' |- *.
        rewrite !app_nil_r in *. now rewrite <- app_assoc in H'.
      * cbn [bind].
        destruct (IH (FileAnalysis.mk pn im fs (Some l) None ts) l bs
                    eq_refl eq_refl Hh Hw') as (l' & E & H').
        exists l'. split; [exact E|exact H'].
      * cbn [FileAnalysis.Constants FileAnalysis.PackageName FileAnalysis.Imports
             FileAnalysis.Functions FileAnalysis.Types FileAnalysis.Variables].
        assert (EA : assignValues None names 0 values = Ok None).
        { cbn [walked.writesVariable existsb] in Hw.
          apply orb_false_iff in Hw as [Hw _].
          destruct names as [|n names]; [reflexivity|].
          destruct values as [|v values]; [apply assignValues_no_value|discriminate]. }
        rewrite EA. cbn [bind].
        destruct (IH (FileAnalysis.mk pn im fs (Some l) None ts) l bs
                    eq_refl eq_refl Hh Hw') as (l' & E & H').
        exists l'. split; [exact E|exact H'].
    + cbn [bind FileAnalysis.Constants FileAnalysis.PackageName FileAnalysis.Imports
           FileAnalysis.Functions FileAnalysis.Types FileAnalysis.Variables].
      destruct (IH (FileAnalysis.mk pn im fs (Some l) None
                      (ts ++ [TypeInfo.mk name (extractTypeString t) []])) l bs
                  eq_refl eq_refl Hh Hw') as (l' & E & H').
      exists l'. split.
      * rewrite E. cbn [FileAnalysis.Constants FileAnalysis.PackageName
          FileAnalysis.Imports FileAnalysis.Functions FileAnalysis.Types
          FileAnalysis.Variables walked.typeSpecs flat_map app map].
        rewrite !app_nil_r. cbn [map]. now rewrite <- app_assoc.
      * destruct tok; cbn [walked.constSpecs flat_map app] in H' |- *; exact H'.
Qed.

Lemma typeSpecs_cons : forall n nodes,
  walked.typeSpecs (n :: nodes) = walked.typeSpecs [n] ++ walked.typeSpecs nodes.
Proof. intros. unfold walked.typeSpecs. cbn [flat_map]. now rewrite app_nil_r. Qed.

Lemma constSpecs_cons : forall n nodes,
  walked.constSpecs (n :: nodes) = walked.constSpecs [n] ++ walked.constSpecs nodes.
Proof. intros. unfold walked.constSpecs. cbn [flat_map]. now rewrite app_nil_r. Qed.

Lemma fold_fileVisitor_ok : forall host path nodes a l bs,
  FileAnalysis.Variables a = None ->
  FileAnalysis.Constants a = Some l ->
  walked.holds l bs ->
  existsb walked.writesVariable nodes = false ->
  exists l',
    fold_left (fileVisitor host path) nodes (Ok a)
    = Ok (FileAnalysis.mk (FileAnalysis.PackageName a) (FileAnalysis.Imports a)
            (FileAnalysis.Functions a
             ++ map (fun d => analyzeFunctionDecl host d path)
                    (walked.funcDecls nodes))
            (Some l') None
            (FileAnalysis.Types a
             ++ map walked.typeInfo (walked.typeSpecs nodes)))
    /\ walked.holds l' (bs ++ walked.constSpecs nodes).
Proof.
  intros host path. induction nodes as [|n nodes IH];
    intros [pn im fs cs vs ts] l bs Hv Hc Hh Hw;
    cbn [FileAnalysis.Variables FileAnalysis.Constants FileAnalysis.PackageName
         FileAnalysis.Imports FileAnalysis.Functions FileAnalysis.Types] in *;
    subst vs cs.
  - exists l. cbn. rewrite !app_nil_r. now split.
  - cbn [existsb] in Hw. apply orb_false_iff in Hw as [Hn Hw].
    cbn [fold_left].
    assert (Skip :
               fileVisitor host path (Ok (FileAnalysis.mk pn im fs (Some l) None ts)) n
               = Ok (FileAnalysis.mk pn im fs (Some l) None ts) ->
               walked.funcDecls (n :: nodes) = walked.funcDecls nodes ->
               walked.typeSpecs (n :: nodes) = walked.typeSpecs nodes ->
               walked.constSpecs (n :: nodes) = walked.constSpecs nodes ->
               exists l',
                 fold_left (fileVisitor host path) nodes
                   (fileVisitor host path
                      (Ok (FileAnalysis.mk pn im fs (Some l) None ts)) n)
                 = Ok (FileAnalysis.mk pn im
                         (fs ++ map (fun d => analyzeFunctionDecl host d path)
                                    (walked.funcDecls (n :: nodes)))
                         (Some l') None
                         (ts ++ map walked.typeInfo (walked.typeSpecs (n :: nodes))))
                 /\ walked.holds l' (bs ++ walked.constSpecs (n :: nodes))).
    { intros E -> -> ->. rewrite E.
      exact (IH (FileAnalysis.mk pn im fs (Some l) None ts) l bs
               eq_refl eq_refl Hh Hw). }
    destruct n as [e|s|s|d|f|lf|f]; try (apply Skip; reflexivity).
    destruct d as [|tok specs|fd]; [apply Skip; reflexivity| |]; clear Skip.
    + cbn [fileVisitor bind].
      destruct (analyzeGenDecl_ok tok specs (FileAnalysis.mk pn im fs (Some l) None ts)
                  l bs eq_refl eq_refl Hh Hn) as (l1 & -> & H1).
      cbn [FileAnalysis.PackageName FileAnalysis.Imports FileAnalysis.Functions
           FileAnalysis.Types].
      destruct (IH (FileAnalysis.mk pn im fs (Some l1) None
                      (ts ++ map walked.typeInfo
                                 (walked.typeSpecs [ast.NDecl (ast.GenDecl tok specs)])))
                  l1 _ eq_refl eq_refl H1 Hw) as (l' & E & H').
      exists l'. split.
      * rewrite E. cbn [FileAnalysis.PackageName FileAnalysis.Imports
          FileAnalysis.Functions FileAnalysis.Types].
        rewrite (typeSpecs_cons _ nodes), map_app, app_assoc. reflexivity.
      * rewrite (constSpecs_cons _ nodes), app_assoc. exact H'.
    + cbn [fileVisitor bind FileAnalysis.PackageName FileAnalysis.Imports
           FileAnalysis.Functions FileAnalysis.Types FileAnalysis.Constants
           FileAnalysis.Variables].
      destruct (IH (FileAnalysis.mk pn im
                      (fs ++ [analyzeFunctionDecl host fd path]) (Some l) None ts)
                  l bs eq_refl eq_refl Hh Hw) as (l' & E & H').
      exists l'. split; [|exact H'].
      rewrite E. cbn [FileAnalysis.PackageName FileAnalysis.Imports
        FileAnalysis.Functions FileAnalysis.Types].
      now rewrite <- app_assoc.
Qed.

Lemma imports_fold : forall imps a,
  fold_left (fun (a : FileAnalysis.t) imp =>
               FileAnalysis.mk (FileAnalysis.PackageName a)
                 (FileAnalysis.Imports a
                  ++ [ImportInfo.mk
                        (match ast.imp_Name imp with Some n => n | None => [] end)
                        (strings.Trim (ast.imp_Path imp) quote)])
                 (FileAnalysis.Functions a) (FileAnalysis.Constants a)
                 (FileAnalysis.Variables a) (FileAnalysis.Types a))
            imps a
  = FileAnalysis.mk (FileAnalysis.PackageName a)
      (FileAnalysis.Imports a ++ map walked.importInfo imps)
      (FileAnalysis.Functions a) (FileAnalysis.Constants a)
      (FileAnalysis.Variables a) (FileAnalysis.Types a).
Proof.
  induction imps as [|imp imps IH]; intros [pn im fs cs vs ts]; cbn [fold_left map].
  - cbn. now rewrite app_nil_r.
  - rewrite IH. cbn. now rewrite <- app_assoc.
Qed.

(** The analysis of a file the Go parser accepts, when no node of the walk
    writes a variable. *)
Lemma ParseFile_ok : forall host path node,
  go_parser_ParseFile host path = inl node ->
  existsb walked.writesVariable (ast.Walk (ast.NFile node)) = false ->
  exists l,
    ParseFile host path
    = Ok (Some (FileAnalysis.mk (ast.file_Name node)
                  (map walked.importInfo (ast.file_Imports node))
                  (map (fun d => analyzeFunctionDecl host d path)
                       (walked.funcDecls (ast.Walk (ast.NFile node))))
                  (Some l) None
                  (map walked.typeInfo
                       (walked.typeSpecs (ast.Walk (ast.NFile node))))),
          None)
    /\ walked.holds l (walked.constSpecs (ast.Walk (ast.NFile node))).
Proof.
  intros host path node Hp Hw. unfold ParseFile. rewrite Hp.
  rewrite imports_fold. unfold ast.Inspect.
  cbn [FileAnalysis.PackageName FileAnalysis.Imports FileAnalysis.Functions
       FileAnalysis.Constants FileAnalysis.Variables FileAnalysis.Types app].
  destruct (fold_fileVisitor_ok host path (ast.Walk (ast.NFile node))
              (FileAnalysis.mk (ast.file_Name node)
                 (map walked.importInfo (ast.file_Imports node)) [] make_map None [])
              [] [] eq_refl eq_refl (fun k => eq_refl) Hw) as (l & E & H).
  rewrite E. cbn [bind]. exists l. split; [reflexivity|exact H].
Qed.

Lemma writesVariable_initialized : forall n,
  walked.writesVariable n = true ->
  exists pre s post,
    n = ast.NDecl (ast.GenDecl ast.VAR (pre ++ s :: post)) /\ initializedVar s.
Proof.
  intros n H. destruct n as [e|s|s|d|f|lf|f]; try discriminate.
  destruct d as [|tok specs|fd]; try discriminate.
  destruct tok; try discriminate. cbn [walked.writesVariable] in H.
  apply existsb_exists in H as (s & Hs & Hw).
  apply in_split in Hs as (pre & post & ->).
  exists pre, s, post. split; [reflexivity|].
  destruct s as [i|names t values|name tp t]; try discriminate.
  destruct names as [|n names]; [discriminate|].
  destruct values as [|v values]; [discriminate|].
  now exists n, names, t, v, values.
Qed.

Lemma ParseFile_writes : forall host path node,
  go_parser_ParseFile host path = inl node ->
  existsb walked.writesVariable (ast.Walk (ast.NFile node)) = true ->
  ParseFile host path = Panic nilmap_msg.
Proof.
  intros host path node Hp Hw. unfold ParseFile. rewrite Hp.
  rewrite imports_fold. unfold ast.Inspect.
  apply existsb_exists in Hw as (n & Hn & Hw).
  apply in_split in Hn as (before & after & ->).
  apply writesVariable_initialized in Hw as (pre & s & post & -> & Hs).
  rewrite fold_left_app. cbn [fold_left].
  match goal with
  | |- bind (fold_left _ _ (fileVisitor _ _ ?r ?n)) _ = _ =>
      assert (Hr : variablesNil r);
      [| assert (HP : fileVisitor host path r n = Panic nilmap_msg);
         [| rewrite HP, fold_fileVisitor_Panic; reflexivity]]
  end.
  - apply fold_fileVisitor_variablesNil. reflexivity.
  - match type of Hr with
    | variablesNil ?r => destruct r as [a|m]
    end; cbn [variablesNil] in Hr.
    + cbn [fileVisitor bind]. now apply analyzeGenDecl_VAR_panics.
    + now subst.
Qed.

(** X13.  The three outcomes of [ParseFile].  When the Go parser rejects
    the file it returns a nil analysis and the parser's error, wrapped.
    When the parser accepts the file it panics on the nil map of variables
    exactly when the walk reaches a [var] declaration with an initializer,
    at the top level or inside a function body; otherwise it returns an
    analysis and a nil error. *)
Theorem ParseFile_outcome : forall host path,
  match go_parser_ParseFile host path with
  | inr err =>
      ParseFile host path
      = Ok (None, Some (str "failed to parse file " ++ path ++ str ": " ++ err))
  | inl node =>
      if existsb walked.writesVariable (ast.Walk (ast.NFile node))
      then ParseFile host path = Panic nilmap_msg
      else exists a, ParseFile host path = Ok (Some a, None)
  end.
Proof.
  intros host path. destruct (go_parser_ParseFile host path) as [node|err] eqn:Hp.
  - destruct (existsb walked.writesVariable (ast.Walk (ast.NFile node))) eqn:Hw.
    + now apply (ParseFile_writes host path node).
    + destruct (ParseFile_ok host path node Hp Hw) as (l & E & _).
      eexists. exact E.
  - unfold ParseFile. now rewrite Hp.
Qed.

(** X14.  The analysis [ParseFile] returns for a file: the package name of
    the file, one import per import specification, one descriptor per
    function declaration and one type per type specification of the walk,
    in its order (declarations local to a function body included), and a
    map of variables that is nil. *)
Theorem ParseFile_analysis : forall host path node a,
  go_parser_ParseFile host path = inl node ->
  ParseFile host path = Ok (Some a, None) ->
  FileAnalysis.PackageName a = ast.file_Name node
  /\ FileAnalysis.Imports a = map walked.importInfo (ast.file_Imports node)
  /\ FileAnalysis.Functions a
     = map (fun d => analyzeFunctionDecl host d path)
           (walked.funcDecls (ast.Walk (ast.NFile node)))
  /\ FileAnalysis.Types a
     = map walked.typeInfo (walked.typeSpecs (ast.Walk (ast.NFile node)))
  /\ FileAnalysis.Variables a = None.
Proof.
  intros host path node a Hp E.
  destruct (existsb walked.writesVariable (ast.Walk (ast.NFile node))) eqn:Hw.
  - rewrite (ParseFile_writes host path node Hp Hw) in E. discriminate.
  - destruct (ParseFile_ok host path node Hp Hw) as (l & E' & _).
    rewrite E' in E. inversion E; subst a. repeat split; reflexivity.
Qed.

Lemma ParseFile_analysis_userFile :
  exists a,
    ParseFile (scenario.hostOf scenario.userFile) (str "user/user.go")
    = Ok (Some a, None)
    /\ map FunctionInfo.Name (FileAnalysis.Functions a)
       = [str "ValidateUser"; str "GetName"]
    /\ map TypeInfo.Kind (FileAnalysis.Types a) = [str "struct{}"]
    /\ FileAnalysis.Variables a = None.
Proof.
  eexists. split; [vm_compute; reflexivity|].
  match goal with
  | |- context [FileAnalysis.Functions ?x] => set (a := x)
  end.
  destruct (ParseFile_analysis (scenario.hostOf scenario.userFile)
              (str "user/user.go") scenario.userFile a eq_refl)
    as (_ & _ & HF & HT & HV).
  - vm_compute. reflexivity.
  - rewrite HF, HT, HV. repeat split; reflexivity.
Defined.

(** X15.  The map of constants of the analysis [ParseFile] returns holds,
    for every name, the rendered value of the last [const] specification of
    the walk that gives the name a value, and nothing for any other name. *)
Theorem ParseFile_constants : forall host path node a,
  go_parser_ParseFile host path = inl node ->
  ParseFile host path = Ok (Some a, None) ->
  forall k,
    map_lookup (FileAnalysis.Constants a) k
    = option_map extractValue
        (walked.lastValue (walked.constSpecs (ast.Walk (ast.NFile node))) k).
Proof.
  intros host path node a Hp E.
  destruct (existsb walked.writesVariable (ast.Walk (ast.NFile node))) eqn:Hw.
  - rewrite (ParseFile_writes host path node Hp Hw) in E. discriminate.
  - destruct (ParseFile_ok host path node Hp Hw) as (l & E' & H).
    rewrite E' in E. inversion E; subst a. exact H.
Qed.

Lemma ParseFile_constants_userFile :
  exists a,
    ParseFile (scenario.hostOf scenario.userFile) (str "user/user.go")
    = Ok (Some a, None)
    /\ map_lookup (FileAnalysis.Constants a) (str "MaxUsers") = Some (str "100")
    /\ map_lookup (FileAnalysis.Constants a) (str "MinUsers") = None.
Proof.
  eexists. split; [vm_compute; reflexivity|].
  match goal with
  | |- context [FileAnalysis.Constants ?x] => set (a := x)
  end.
  assert (E : ParseFile (scenario.hostOf scenario.userFile) (str "user/user.go")
              = Ok (Some a, None)) by (vm_compute; reflexivity).
  rewrite !(ParseFile_constants (scenario.hostOf scenario.userFile)
              (str "user/user.go") scenario.userFile a eq_refl E).
  split; reflexivity.
Defined.

End ParseFileResult.

(* ================================================================== *)
(** ** The walk over a function body *)
(* ================================================================== *)

Section BodyWalk.
Import parser.

Lemma complexityVisitor_step : forall c n,
  let c' := complexityVisitor c n in
  ComplexityInfo.HasErrors c' = (ComplexityInfo.HasErrors c || walked.mentionsError n)
  /\ ComplexityInfo.HasPointers c' = (ComplexityInfo.HasPointers c || walked.isPointer n)
  /\ ComplexityInfo.HasInterfaces c'
     = (ComplexityInfo.HasInterfaces c || walked.isInterface n)
  /\ ComplexityInfo.HasChannels c' = (ComplexityInfo.HasChannels c || walked.isChannel n)
  /\ ComplexityInfo.HasGoroutines c' = (ComplexityInfo.HasGoroutines c || walked.isGo n)
  /\ ComplexityInfo.HasDefers c' = (ComplexityInfo.HasDefers c || walked.isDefer n)
  /\ ComplexityInfo.HasPanic c' = (ComplexityInfo.HasPanic c || walked.callsPanic n)
  /\ ComplexityInfo.Dependencies c' = ComplexityInfo.Dependencies c
  /\ ComplexityInfo.CyclomaticComplexity c' = ComplexityInfo.CyclomaticComplexity c
  /\ ComplexityInfo.ControlFlowCount c'
     = ComplexityInfo.ControlFlowCount c + (if walked.isControlFlow n then 1 else 0).
Proof.
  intros [e p i ch g d pa deps cc cf] n. cbn zeta.
  destruct n as [x|s|s|dd|f|lf|f];
    [destruct x as [|name| | | | | | | | | | |fn args| | | | | | | | | |]
    |destruct s| | | | |];
    cbn [complexityVisitor walked.mentionsError walked.isPointer walked.isInterface
         walked.isChannel walked.isGo walked.isDefer walked.callsPanic
         walked.isControlFlow];
    try (destruct fn);
    repeat match goal with
           | |- context [streq ?a ?b] => destruct (streq a b)
           end;
    cbn; rewrite ?orb_false_r, ?orb_true_r, ?Z.add_0_r; repeat split; reflexivity.
Qed.

Lemma fold_complexityVisitor : forall nodes c,
  let c' := fold_left complexityVisitor nodes c in
  ComplexityInfo.HasErrors c'
  = (ComplexityInfo.HasErrors c || existsb walked.mentionsError nodes)
  /\ ComplexityInfo.HasPointers c'
     = (ComplexityInfo.HasPointers c || existsb walked.isPointer nodes)
  /\ ComplexityInfo.HasInterfaces c'
     = (ComplexityInfo.HasInterfaces c || existsb walked.isInterface nodes)
  /\ ComplexityInfo.HasChannels c'
     = (ComplexityInfo.HasChannels c || existsb walked.isChannel nodes)
  /\ ComplexityInfo.HasGoroutines c'
     = (ComplexityInfo.HasGoroutines c || existsb walked.isGo nodes)
  /\ ComplexityInfo.HasDefers c'
     = (ComplexityInfo.HasDefers c || existsb walked.isDefer nodes)
  /\ ComplexityInfo.HasPanic c'
     = (ComplexityInfo.HasPanic c || existsb walked.callsPanic nodes)
  /\ ComplexityInfo.Dependencies c' = ComplexityInfo.Dependencies c
  /\ ComplexityInfo.CyclomaticComplexity c' = ComplexityInfo.CyclomaticComplexity c
  /\ ComplexityInfo.ControlFlowCount c'
     = ComplexityInfo.ControlFlowCount c + len (filter walked.isControlFlow nodes).
Proof.
  induction nodes as [|n nodes IH]; intros c; cbn zeta; cbn [fold_left existsb filter].
  - rewrite !orb_false_r. change (len (@nil ast.Node)) with 0. rewrite Z.add_0_r.
    repeat split; reflexivity.
  - specialize (IH (complexityVisitor c n)). cbn zeta in IH.
    destruct IH as (E1 & E2 & E3 & E4 & E5 & E6 & E7 & E8 & E9 & E10).
    destruct (complexityVisitor_step c n)
      as (S1 & S2 & S3 & S4 & S5 & S6 & S7 & S8 & S9 & S10).
    rewrite E1, E2, E3, E4, E5, E6, E7, E8, E9, E10.
    rewrite S1, S2, S3, S4, S5, S6, S7, S8, S9, S10.
    rewrite <- !orb_assoc.
    repeat split; try reflexivity.
    destruct (walked.isControlFlow n); [rewrite len_cons|]; lia.
Qed.

(** X16.  The profile [analyzeComplexity] returns for a body.  Each flag
    is set exactly when the walk over the body visits a node of its kind,
    at any depth (function literals included); the control-flow count is
    the number of [if], [for], [range], [switch], type-switch and [select]
    statements visited, the estimate is that number plus 1, and the list of
    dependencies is always empty. *)
Theorem analyzeComplexity_profile : forall body,
  let c := analyzeComplexity body in
  let nodes := walked.bodyNodes body in
  ComplexityInfo.HasErrors c = existsb walked.mentionsError nodes
  /\ ComplexityInfo.HasPointers c = existsb walked.isPointer nodes
  /\ ComplexityInfo.HasInterfaces c = existsb walked.isInterface nodes
  /\ ComplexityInfo.HasChannels c = existsb walked.isChannel nodes
  /\ ComplexityInfo.HasGoroutines c = existsb walked.isGo nodes
  /\ ComplexityInfo.HasDefers c = existsb walked.isDefer nodes
  /\ ComplexityInfo.HasPanic c = existsb walked.callsPanic nodes
  /\ ComplexityInfo.Dependencies c = []
  /\ ComplexityInfo.ControlFlowCount c = len (filter walked.isControlFlow nodes)
  /\ ComplexityInfo.CyclomaticComplexity c
     = len (filter walked.isControlFlow nodes) + 1.
Proof.
  intros body. cbn zeta. unfold analyzeComplexity, ast.Inspect.
  fold (walked.bodyNodes body).
  destruct (fold_complexityVisitor (walked.bodyNodes body) ComplexityInfo.zero)
    as (E1 & E2 & E3 & E4 & E5 & E6 & E7 & E8 & E9 & E10).
  cbn [ComplexityInfo.setCyclomaticComplexity ComplexityInfo.HasErrors
       ComplexityInfo.HasPointers ComplexityInfo.HasInterfaces
       ComplexityInfo.HasChannels ComplexityInfo.HasGoroutines
       ComplexityInfo.HasDefers ComplexityInfo.HasPanic ComplexityInfo.Dependencies
       ComplexityInfo.ControlFlowCount ComplexityInfo.CyclomaticComplexity].
  rewrite E1, E2, E3, E4, E5, E6, E7, E8, E10.
  cbn [ComplexityInfo.zero ComplexityInfo.HasErrors
       ComplexityInfo.HasPointers ComplexityInfo.HasInterfaces
       ComplexityInfo.HasChannels ComplexityInfo.HasGoroutines
       ComplexityInfo.HasDefers ComplexityInfo.HasPanic ComplexityInfo.Dependencies
       ComplexityInfo.ControlFlowCount orb].
  repeat split; reflexivity.
Qed.

Lemma bodyNodes_app : forall b1 b2,
  walked.bodyNodes (b1 ++ b2)
  = ast.NStmt (ast.BlockStmt (b1 ++ b2))
    :: tl (walked.bodyNodes b1) ++ tl (walked.bodyNodes b2).
Proof.
  intros b1 b2. unfold walked.bodyNodes. cbn [ast.Walk ast.walkStmt tl].
  now rewrite flat_map_app.
Qed.

Lemma existsb_tl_bodyNodes : forall (p : ast.Node -> bool) body,
  p (ast.NStmt (ast.BlockStmt body)) = false ->
  existsb p (tl (walked.bodyNodes body)) = existsb p (walked.bodyNodes body).
Proof.
  intros p body H. unfold walked.bodyNodes. cbn [ast.Walk ast.walkStmt tl existsb].
  now rewrite H.
Qed.

(** X17.  The profile of two statement lists put together: each flag of
    [b1 ++ b2] is the disjunction of the flags of [b1] and of [b2], the
    control-flow counts add up, and the estimate is the sum of the two
    estimates minus 1. *)
Theorem analyzeComplexity_app : forall b1 b2,
  let c := analyzeComplexity (b1 ++ b2) in
  let c1 := analyzeComplexity b1 in
  let c2 := analyzeComplexity b2 in
  ComplexityInfo.HasErrors c
  = (ComplexityInfo.HasErrors c1 || ComplexityInfo.HasErrors c2)
  /\ ComplexityInfo.HasPointers c
     = (ComplexityInfo.HasPointers c1 || ComplexityInfo.HasPointers c2)
  /\ ComplexityInfo.HasInterfaces c
     = (ComplexityInfo.HasInterfaces c1 || ComplexityInfo.HasInterfaces c2)
  /\ ComplexityInfo.HasChannels c
     = (ComplexityInfo.HasChannels c1 || ComplexityInfo.HasChannels c2)
  /\ ComplexityInfo.HasGoroutines c
     = (ComplexityInfo.HasGoroutines c1 || ComplexityInfo.HasGoroutines c2)
  /\ ComplexityInfo.HasDefers c
     = (ComplexityInfo.HasDefers c1 || ComplexityInfo.HasDefers c2)
  /\ ComplexityInfo.HasPanic c
     = (ComplexityInfo.HasPanic c1 || ComplexityInfo.HasPanic c2)
  /\ ComplexityInfo.ControlFlowCount c
     = ComplexityInfo.ControlFlowCount c1 + ComplexityInfo.ControlFlowCount c2
  /\ ComplexityInfo.CyclomaticComplexity c
     = ComplexityInfo.CyclomaticComplexity c1
       + ComplexityInfo.CyclomaticComplexity c2 - 1.
Proof.
  intros b1 b2. cbn zeta. unfold analyzeComplexity, ast.Inspect.
  fold (walked.bodyNodes (b1 ++ b2)) (walked.bodyNodes b1) (walked.bodyNodes b2).
  destruct (fold_complexityVisitor (walked.bodyNodes (b1 ++ b2)) ComplexityInfo.zero)
    as (E1 & E2 & E3 & E4 & E5 & E6 & E7 & _ & _ & E10).
  destruct (fold_complexityVisitor (walked.bodyNodes b1) ComplexityInfo.zero)
    as (A1 & A2 & A3 & A4 & A5 & A6 & A7 & _ & _ & A10).
  destruct (fold_complexityVisitor (walked.bodyNodes b2) ComplexityInfo.zero)
    as (B1 & B2 & B3 & B4 & B5 & B6 & B7 & _ & _ & B10).
  cbn [ComplexityInfo.setCyclomaticComplexity ComplexityInfo.HasErrors
       ComplexityInfo.HasPointers ComplexityInfo.HasInterfaces
       ComplexityInfo.HasChannels ComplexityInfo.HasGoroutines
       ComplexityInfo.HasDefers ComplexityInfo.HasPanic
       ComplexityInfo.ControlFlowCount ComplexityInfo.CyclomaticComplexity].
  rewrite E1, E2, E3, E4, E5, E6, E7, E10, A1, A2, A3, A4, A5, A6, A7, A10,
    B1, B2, B3, B4, B5, B6, B7, B10.
  cbn [ComplexityInfo.zero ComplexityInfo.HasErrors
       ComplexityInfo.HasPointers ComplexityInfo.HasInterfaces
       ComplexityInfo.HasChannels ComplexityInfo.HasGoroutines
       ComplexityInfo.HasDefers ComplexityInfo.HasPanic
       ComplexityInfo.ControlFlowCount orb].
  rewrite bodyNodes_app. cbn [existsb filter].
  cbn [walked.mentionsError walked.isPointer walked.isInterface walked.isChannel
       walked.isGo walked.isDefer walked.callsPanic walked.isControlFlow orb].
  rewrite !existsb_app, !existsb_tl_bodyNodes by reflexivity.
  rewrite filter_app, len_app.
  assert (T : forall b, len (filter walked.isControlFlow (tl (walked.bodyNodes b)))
                        = len (filter walked.isControlFlow (walked.bodyNodes b)))
    by reflexivity.
  rewrite !T. repeat split; try reflexivity; lia.
Qed.

Lemma backfillErrors_closed : forall returns c,
  backfillErrors returns c
  = if existsb (fun ret => streq (ReturnInfo.Type_ ret) (str "error")) returns
    then ComplexityInfo.setHasErrors c else c.
Proof.
  unfold backfillErrors.
  induction returns as [|r returns IH]; intros c; cbn [fold_left existsb];
    [reflexivity|].
  rewrite IH. destruct (streq (ReturnInfo.Type_ r) (str "error")); cbn [orb];
    [|reflexivity].
  destruct (existsb _ returns); reflexivity.
Qed.

Lemma backfillPointers_closed : forall parameters c,
  backfillPointers parameters c
  = if existsb (fun p => strings.HasPrefix (ParameterInfo.Type_ p) (str "*"))
               parameters
    then ComplexityInfo.setHasPointers c else c.
Proof.
  unfold backfillPointers.
  induction parameters as [|p parameters IH]; intros c; cbn [fold_left existsb];
    [reflexivity|].
  rewrite IH. destruct (strings.HasPrefix (ParameterInfo.Type_ p) (str "*"));
    cbn [orb]; [|reflexivity].
  destruct (existsb _ parameters); reflexivity.
Qed.

(** X18.  What the signature adds to the profile of a descriptor, and what
    it leaves alone.  [HasErrors] is the flag of the walk over the body or
    a return whose type is rendered "error"; [HasPointers] is the flag of
    the walk or a parameter or receiver whose rendered type starts with
    "*"; return types are not searched for pointers, and every other flag
    and both counts are those of the walk over the body (the zero values
    for a declaration without a body). *)
Theorem analyzeFunctionDecl_profile : forall host d path,
  let fn := analyzeFunctionDecl host d path in
  let c := FunctionInfo.Complexity fn in
  let w := walkedComplexity d in
  ComplexityInfo.HasErrors c
  = (ComplexityInfo.HasErrors w
     || existsb (fun ret => streq (ReturnInfo.Type_ ret) (str "error"))
                (FunctionInfo.Returns fn))
  /\ ComplexityInfo.HasPointers c
     = (ComplexityInfo.HasPointers w
        || existsb (fun p => strings.HasPrefix (ParameterInfo.Type_ p) (str "*"))
                   (FunctionInfo.Parameters fn)
        || receiverIsPointer (FunctionInfo.IsMethod fn) (FunctionInfo.Receiver fn))
  /\ ComplexityInfo.HasInterfaces c = ComplexityInfo.HasInterfaces w
  /\ ComplexityInfo.HasChannels c = ComplexityInfo.HasChannels w
  /\ ComplexityInfo.HasGoroutines c = ComplexityInfo.HasGoroutines w
  /\ ComplexityInfo.HasDefers c = ComplexityInfo.HasDefers w
  /\ ComplexityInfo.HasPanic c = ComplexityInfo.HasPanic w
  /\ ComplexityInfo.Dependencies c = ComplexityInfo.Dependencies w
  /\ ComplexityInfo.ControlFlowCount c = ComplexityInfo.ControlFlowCount w
  /\ ComplexityInfo.CyclomaticComplexity c = ComplexityInfo.CyclomaticComplexity w.
Proof.
  intros host d path. cbn zeta. rewrite analyzeFunctionDecl_Complexity. cbn zeta.
  rewrite backfillPointers_closed, backfillErrors_closed.
  destruct (existsb _ (FunctionInfo.Returns _));
    destruct (existsb _ (FunctionInfo.Parameters _));
    destruct (receiverIsPointer _ _);
    destruct (walkedComplexity d) as [e p i ch g df pa deps cc cf];
    cbn; rewrite ?orb_false_r, ?orb_true_r; repeat split; reflexivity.
Qed.

Lemma extractTypeString_head : forall e,
  match e with
  | ast.Ident _ | ast.SelectorExpr _ _ => True
  | _ => exists c rest, extractTypeString e = c :: rest /\ c <> "e"%char
  end.
Proof.
  intros e. destruct e; try exact I;
    try (cbn [extractTypeString];
         match goal with
         | |- context [match ?x with _ => _ end] => destruct x
         end);
    cbn [extractTypeString str list_ascii_of_string app];
    eexists; eexists; (split; [reflexivity|discriminate]).
Qed.

(** X19.  A rendered type is "error" for the identifier [error] alone: a
    pointer to an error type, a qualified name such as [errors.Error] and
    every other type expression are rendered otherwise, so the signature
    backfill sets [HasErrors] for a return declared as [error] only. *)
Theorem extractTypeString_error : forall e,
  extractTypeString e = str "error" <-> e = ast.Ident (str "error").
Proof.
  intros e. split; [|now intros ->].
  intros H. pose proof (extractTypeString_head e) as Hh.
  destruct e; try (destruct Hh as (c & rest & E & Hc); rewrite E in H;
                   inversion H; congruence).
  - cbn [extractTypeString] in H. now subst.
  - cbn [extractTypeString] in H.
    assert (X : In "."%char (str "error")).
    { rewrite <- H. apply in_or_app. right. now left. }
    cbn in X. repeat destruct X as [X|X]; try discriminate. contradiction.
Qed.

End BodyWalk.

(* ================================================================== *)
(** ** The targets of a result *)
(* ================================================================== *)

Lemma isTestFunction_closed : forall name,
  analyzer.isTestFunction name
  = if policy.faults name then Panic bounds_msg else Ok (policy.testName name).
Proof.
  intros name. unfold policy.faults, policy.testName.
  destruct (4 <? len name) eqn:H4; cbn [andb].
  - apply Z.ltb_lt in H4. destruct (len name <? 9) eqn:H9; cbn [andb].
    + apply Z.ltb_lt in H9.
      unfold analyzer.isTestFunction, andThen, orElse.
      apply Z.ltb_lt in H4 as H4b. cbn [bind]. rewrite H4b.
      rewrite (slice_to_ok _ name 4) by lia. cbn [bind].
      change (Z.to_nat 4) with (length (str "Test")).
      rewrite <- HasPrefix_firstn.
      destruct (strings.HasPrefix name (str "Test")); cbn [negb orb]; [reflexivity|].
      rewrite (slice_to_panic _ name 9) by lia. reflexivity.
    + apply Z.ltb_ge in H9. rewrite isTestFunction_long by lia. reflexivity.
  - apply Z.ltb_ge in H4. now rewrite isTestFunction_short by lia.
Qed.

Lemma shouldGenerateTest_closed : forall fn,
  analyzer.shouldGenerateTest fn
  = if policy.faults (models.FunctionInfo.Name fn)
    then Panic bounds_msg
    else Ok (policy.selects fn).
Proof.
  intros fn. unfold analyzer.shouldGenerateTest, policy.selects.
  destruct (streq (models.FunctionInfo.Name fn) (str "main")) eqn:Em.
  { apply streq_eq in Em. rewrite Em. reflexivity. }
  destruct (streq (models.FunctionInfo.Name fn) (str "init")) eqn:Ei.
  { apply streq_eq in Ei. rewrite Ei. reflexivity. }
  rewrite isTestFunction_closed.
  destruct (policy.faults (models.FunctionInfo.Name fn)); [reflexivity|].
  cbn [bind negb andb]. destruct (policy.testName _); [reflexivity|].
  rewrite isExported_spec. cbn [bind negb andb].
  destruct (spec.visibility_exported _); [|reflexivity]. cbn [negb andb].
  rewrite Z.leb_antisym. destruct (15 <? _); [reflexivity|]. cbn [negb andb].
  destruct (_ && _); reflexivity.
Qed.

(** X20.  [shouldGenerateTest] on every descriptor: it panics (slice
    bounds out of range) exactly for a name of 5 to 8 bytes that does not
    start with "Test", whatever the rest of the descriptor; on every other
    descriptor it returns the conjunction of its six tests. *)
Theorem shouldGenerateTest_outcome : forall fn,
  (analyzer.shouldGenerateTest fn = Panic bounds_msg
   <-> policy.faults (models.FunctionInfo.Name fn) = true)
  /\ (forall m, analyzer.shouldGenerateTest fn = Panic m -> m = bounds_msg)
  /\ (policy.faults (models.FunctionInfo.Name fn) = false ->
      analyzer.shouldGenerateTest fn = Ok (policy.selects fn)).
Proof.
  intros fn. rewrite shouldGenerateTest_closed.
  destruct (policy.faults (models.FunctionInfo.Name fn)).
  - split; [now split|]. split; [|discriminate].
    intros m E. now inversion E.
  - split; [split; discriminate|]. split; [discriminate|reflexivity].
Qed.

Lemma shouldGenerateTest_outcome_ValidateUser :
  analyzer.shouldGenerateTest scenario.ValidateUser_complex
  = Ok (policy.selects scenario.ValidateUser_complex).
Proof.
  apply (proj2 (proj2 (shouldGenerateTest_outcome scenario.ValidateUser_complex))).
  reflexivity.
Defined.

Lemma targets_inner : forall fns acc,
  foldM (fun targets fn =>
           keep <- analyzer.shouldGenerateTest fn ;;
           Ok (if keep then targets ++ [fn] else targets)) acc fns
  = if existsb (fun fn => policy.faults (models.FunctionInfo.Name fn)) fns
    then Panic bounds_msg
    else Ok (acc ++ filter policy.selects fns).
Proof.
  induction fns as [|fn fns IH]; intros acc; cbn [foldM existsb filter].
  - now rewrite app_nil_r.
  - rewrite shouldGenerateTest_closed.
    destruct (policy.faults (models.FunctionInfo.Name fn)); [reflexivity|].
    cbn [bind orb]. rewrite IH.
    destruct (existsb _ fns); [reflexivity|].
    destruct (policy.selects fn); [|reflexivity]. now rewrite <- app_assoc.
Qed.

Lemma targets_outer : forall files acc,
  foldM (fun targets file =>
           foldM (fun targets fn =>
                    keep <- analyzer.shouldGenerateTest fn ;;
                    Ok (if keep then targets ++ [fn] else targets))
                 targets (analyzer.FunctionDetails file)) acc files
  = if existsb (fun fn => policy.faults (models.FunctionInfo.Name fn))
               (policy.details files)
    then Panic bounds_msg
    else Ok (acc ++ filter policy.selects (policy.details files)).
Proof.
  unfold policy.details.
  induction files as [|f files IH]; intros acc; cbn [foldM flat_map].
  - cbn. now rewrite app_nil_r.
  - rewrite targets_inner, existsb_app.
    destruct (existsb _ (analyzer.FunctionDetails f)); [reflexivity|].
    cbn [bind orb]. rewrite IH.
    destruct (existsb _ (flat_map _ files)); [reflexivity|].
    now rewrite filter_app, app_assoc.
Qed.

Lemma buildGenerationTargets_closed : forall files,
  analyzer.buildGenerationTargets files
  = if existsb (fun fn => policy.faults (models.FunctionInfo.Name fn))
               (policy.details files)
    then Panic bounds_msg
    else Ok (filter policy.selects (policy.details files)).
Proof.
  intros files. unfold analyzer.buildGenerationTargets. apply (targets_outer files []).
Qed.

(** X21.  [buildGenerationTargets] on every list of files: it panics
    exactly when a function kept for one of the files has a name of 5 to 8
    bytes that does not start with "Test" (so one such function costs all
    the targets); otherwise it returns, in their order, the kept functions
    that pass the six tests. *)
Theorem buildGenerationTargets_outcome : forall files,
  analyzer.buildGenerationTargets files
  = if existsb (fun fn => policy.faults (models.FunctionInfo.Name fn))
               (policy.details files)
    then Panic bounds_msg
    else Ok (filter policy.selects (policy.details files)).
Proof.
  intros files. unfold analyzer.buildGenerationTargets.
  rewrite (targets_outer files []). reflexivity.
Qed.

(* ================================================================== *)
(** ** The results of the two entry points *)
(* ================================================================== *)

Lemma ParseFile_cases : forall host path,
  (exists err, parser.ParseFile host path = Ok (None, Some err))
  \/ parser.ParseFile host path = Panic nilmap_msg
  \/ (exists a, parser.ParseFile host path = Ok (Some a, None)
                /\ Forall (fun fn => parser.FunctionInfo.File fn = path)
                          (parser.FileAnalysis.Functions a)).
Proof.
  intros host path.
  destruct (go_parser_ParseFile host path) as [node|err] eqn:Hp.
  - destruct (existsb walked.writesVariable (ast.Walk (ast.NFile node))) eqn:Hw.
    + right. left. now apply (ParseFile_writes host path node).
    + right. right. destruct (ParseFile_ok host path node Hp Hw) as (l & E & _).
      eexists. split; [exact E|]. now apply (ParseFile_File host path _ None).
  - left. unfold parser.ParseFile. rewrite Hp. now eexists.
Qed.

Lemma counted_add : forall r cf,
  policy.counted r -> policy.counted (analyzer.addChangedFile r cf).
Proof.
  intros r cf [H1 H2]. unfold policy.counted, policy.details, analyzer.addChangedFile.
  cbn [analyzer.TotalFunctions analyzer.ModifiedFunctions analyzer.ChangedFiles].
  rewrite !flat_map_app, !len_app. cbn [flat_map]. rewrite !app_nil_r.
  unfold policy.details in H1. rewrite H1, H2. now split.
Qed.

Lemma analyzeSpecificFile_step : forall host names r path,
  policy.counted r ->
  analyzer.TotalFunctions r = analyzer.ModifiedFunctions r ->
  Forall (policy.requested names) (analyzer.ChangedFiles r) ->
  analyzer.analyzeSpecificFile host names r path = Panic nilmap_msg
  \/ exists r',
       analyzer.analyzeSpecificFile host names r path = Ok r'
       /\ policy.counted r'
       /\ analyzer.TotalFunctions r' = analyzer.ModifiedFunctions r'
       /\ Forall (policy.requested names) (analyzer.ChangedFiles r')
       /\ analyzer.GenerationTargets r' = analyzer.GenerationTargets r.
Proof.
  intros host names r path HC HT HR. unfold analyzer.analyzeSpecificFile.
  destruct (negb (strings.HasSuffix path (str ".go"))
            || strings.HasSuffix path (str "_test.go")).
  { right. exists r. auto. }
  destruct (ParseFile_cases host path) as [(err & ->) | [-> | (a & -> & _)]];
    cbn [bind].
  - right. exists r. auto.
  - now left.
  - right.
    set (kept := filter (fun fn => (len names =? 0)
                                   || existsb (streq (parser.FunctionInfo.Name fn)) names)
                        (parser.FileAnalysis.Functions a)).
    destruct (len kept =? 0) eqn:EL.
    { exists r. auto. }
    eexists. split; [reflexivity|]. split; [now apply counted_add|]. split; [|split].
    + unfold analyzer.addChangedFile.
      cbn [analyzer.TotalFunctions analyzer.ModifiedFunctions
           analyzer.FunctionDetails analyzer.cf_ModifiedFunctions].
      rewrite HT. unfold len. now rewrite !length_map.
    + unfold analyzer.addChangedFile. cbn [analyzer.ChangedFiles].
      apply Forall_app. split; [exact HR|]. constructor; [|constructor].
      unfold policy.requested.
      cbn [analyzer.FunctionDetails analyzer.cf_ModifiedFunctions]. split; [|split].
      * destruct kept; [discriminate|discriminate].
      * rewrite map_map. reflexivity.
      * intros Hne. apply Forall_forall. intros name Hname.
        apply in_map_iff in Hname as (fn & <- & Hfn).
        apply filter_In in Hfn as [_ Hfn].
        destruct names as [|n names']; [contradiction|].
        assert (L : (len (n :: names') =? 0) = false).
        { apply Z.eqb_neq. rewrite len_cons. pose proof (len_nonneg _ names'). lia. }
        rewrite L in Hfn. cbn [orb] in Hfn.
        apply existsb_exists in Hfn as (x & Hx & Ex). apply streq_eq in Ex.
        now subst.
    + reflexivity.
Qed.

(** X22.  [AnalyzeSpecificFunctions] on every list of paths and names.
    If it panics, it is on the nil map of variables or on the slice of
    [isTestFunction], never on a nil pointer.  If it returns, the error is
    nil and in the result each counter counts what the files hold, the two
    counters are equal, every file keeps at least one function and modified
    names that are the names of its functions (requested ones, unless no
    name was requested), and the targets are the kept functions that pass
    the six tests. *)
Theorem AnalyzeSpecificFunctions_result : forall host filePaths functionNames,
  match analyzer.AnalyzeSpecificFunctions host filePaths functionNames with
  | Panic m => m = nilmap_msg \/ m = bounds_msg
  | Ok (r, err) =>
      err = None
      /\ exists r',
           r = Some r'
           /\ policy.counted r'
           /\ analyzer.TotalFunctions r' = analyzer.ModifiedFunctions r'
           /\ Forall (policy.requested functionNames) (analyzer.ChangedFiles r')
           /\ analyzer.GenerationTargets r'
              = filter policy.selects (policy.details (analyzer.ChangedFiles r'))
  end.
Proof.
  intros host filePaths functionNames. unfold analyzer.AnalyzeSpecificFunctions.
  assert (HI : forall l r,
             policy.counted r ->
             analyzer.TotalFunctions r = analyzer.ModifiedFunctions r ->
             Forall (policy.requested functionNames) (analyzer.ChangedFiles r) ->
             foldM (analyzer.analyzeSpecificFile host functionNames) r l
             = Panic nilmap_msg
             \/ exists r',
                  foldM (analyzer.analyzeSpecificFile host functionNames) r l = Ok r'
                  /\ policy.counted r'
                  /\ analyzer.TotalFunctions r' = analyzer.ModifiedFunctions r'
                  /\ Forall (policy.requested functionNames) (analyzer.ChangedFiles r')).
  { induction l as [|p l IH]; intros r HC HT HR; cbn [foldM].
    - right. exists r. auto.
    - destruct (analyzeSpecificFile_step host functionNames r p HC HT HR)
        as [-> | (r1 & -> & HC1 & HT1 & HR1 & _)]; cbn [bind]; [now left|].
      now apply IH. }
  destruct (HI filePaths analyzer.emptyResult) as [-> | (r & -> & HC & HT & HR)];
    cbn [bind].
  - now split.
  - reflexivity.
  - constructor.
  - now left.
  - rewrite buildGenerationTargets_closed.
    destruct (existsb _ (policy.details (analyzer.ChangedFiles r))); cbn [bind];
      [now right|].
    split; [reflexivity|]. eexists. split; [reflexivity|].
    unfold analyzer.withTargets.
    cbn [analyzer.ChangedFiles analyzer.GenerationTargets analyzer.TotalFunctions
         analyzer.ModifiedFunctions].
    repeat split; try assumption; apply HC.
Qed.

Lemma analyzeChangedFile_step : forall host r fileDiff,
  git.isGoSource (git.NewPath fileDiff) = true ->
  policy.counted r ->
  Forall policy.changed (analyzer.ChangedFiles r) ->
  let step := a <- analyzer.analyzeChangedFile host fileDiff ;;
              match a with
              | (_, Some _) => Ok r
              | (Some fileAnalysis, None) => Ok (analyzer.addChangedFile r fileAnalysis)
              | (None, None) => Ok r
              end in
  step = Panic nilmap_msg
  \/ exists r',
       step = Ok r'
       /\ policy.counted r'
       /\ Forall policy.changed (analyzer.ChangedFiles r').
Proof.
  intros host r fileDiff Hgo HC HR. cbn zeta. unfold analyzer.analyzeChangedFile.
  assert (Hne : streq (git.NewPath fileDiff) [] = false).
  { unfold git.isGoSource in Hgo. apply andb_true_iff in Hgo as [H _].
    destruct (git.NewPath fileDiff); [discriminate|reflexivity]. }
  rewrite Hne.
  destruct (ParseFile_cases host (git.NewPath fileDiff))
    as [(err & ->) | [-> | (a & -> & HF)]]; cbn [bind].
  - right. exists r. auto.
  - now left.
  - right. destruct (len (git.GetModifiedFunctions fileDiff) =? 0) eqn:EL; cbn [bind].
    { exists r. auto. }
    eexists. split; [reflexivity|]. split; [now apply counted_add|].
    unfold analyzer.addChangedFile. cbn [analyzer.ChangedFiles].
    apply Forall_app. split; [exact HR|]. constructor; [|constructor].
    unfold policy.changed.
    cbn [analyzer.FilePath analyzer.cf_ModifiedFunctions analyzer.FunctionDetails].
    split; [exact Hgo|]. split; [|split].
    + intros E. rewrite E in EL. discriminate.
    + unfold git.GetModifiedFunctions.
      apply (proj1 (modified_fold (git.Changes fileDiff) [])). constructor.
    + apply Forall_forall. intros fn Hfn.
      apply in_map_iff in Hfn as (x & <- & Hx).
      unfold parser.FilterFunctions in Hx. apply filter_In in Hx as [Hx Hn].
      split.
      * apply existsb_exists in Hn as (n & Hn & En). apply streq_eq in En.
        cbn. now rewrite En.
      * rewrite Forall_forall in HF. cbn. now apply HF.
Qed.

(** X23.  [AnalyzeChanges] on every pair of references.  When [git diff]
    fails it returns a nil result and the error, whose text carries the
    prefix "failed to get git diff: " twice.  Otherwise, if it panics, it
    is on the nil map of variables or on the slice of [isTestFunction],
    never on a nil pointer; if it returns, the error is nil, each counter
    of the result counts what the files hold, every file is a Go source with
    at least one modified name, none twice, whose kept functions are
    functions of that file under a modified name, and the targets are the
    kept functions that pass the six tests. *)
Theorem AnalyzeChanges_result : forall host fromRef toRef,
  match git_diff host fromRef toRef with
  | inr err =>
      analyzer.AnalyzeChanges host fromRef toRef
      = Ok (None, Some (str "failed to get git diff: "
                        ++ str "failed to get git diff: " ++ err))
  | inl _ =>
      match analyzer.AnalyzeChanges host fromRef toRef with
      | Panic m => m = nilmap_msg \/ m = bounds_msg
      | Ok (r, err) =>
          err = None
          /\ exists r',
               r = Some r'
               /\ policy.counted r'
               /\ Forall policy.changed (analyzer.ChangedFiles r')
               /\ analyzer.GenerationTargets r'
                  = filter policy.selects (policy.details (analyzer.ChangedFiles r'))
      end
  end.
Proof.
  intros host fromRef toRef. unfold analyzer.AnalyzeChanges, analyzer.GetDiff.
  destruct (git_diff host fromRef toRef) as [output|err]; [|reflexivity].
  destruct (parseDiff_result output) as (st & -> & _). cbn [bind].
  rewrite FilterGoFiles_filter. cbn [git.Files].
  set (files := filter (fun f => git.isGoSource (git.NewPath f)) (git.close_file st)).
  assert (Hfiles : Forall (fun f => git.isGoSource (git.NewPath f) = true) files).
  { apply Forall_forall. intros f Hf. now apply filter_In in Hf as [_ Hf]. }
  clearbody files.
  match goal with
  | |- match bind (foldM ?body _ _) _ with _ => _ end =>
      assert (HI : forall l r,
                 Forall (fun f => git.isGoSource (git.NewPath f) = true) l ->
                 policy.counted r ->
                 Forall policy.changed (analyzer.ChangedFiles r) ->
                 foldM body r l = Panic nilmap_msg
                 \/ exists r',
                      foldM body r l = Ok r'
                      /\ policy.counted r'
                      /\ Forall policy.changed (analyzer.ChangedFiles r'))
  end.
  { induction l as [|f l IH]; intros r Hl HC HR; cbn [foldM].
    - right. exists r. auto.
    - inversion Hl as [|? ? Hf Hl']; subst.
      destruct (analyzeChangedFile_step host r f Hf HC HR)
        as [E | (r1 & E & HC1 & HR1)]; cbn zeta in E; rewrite E; cbn [bind];
        [now left|]. now apply IH. }
  destruct (HI files analyzer.emptyResult Hfiles) as [-> | (r & -> & HC & HR)];
    cbn [bind].
  - now split.
  - constructor.
  - now left.
  - rewrite buildGenerationTargets_closed.
    destruct (existsb _ (policy.details (analyzer.ChangedFiles r))); cbn [bind];
      [now right|].
    split; [reflexivity|]. eexists. split; [reflexivity|].
    unfold analyzer.withTargets.
    cbn [analyzer.ChangedFiles analyzer.GenerationTargets analyzer.TotalFunctions
         analyzer.ModifiedFunctions].
    repeat split; try assumption; apply HC.
Qed.

(** X24.  With no function name requested, [AnalyzeSpecificFunctions]
    keeps every function of a file it can parse (the file is reported with
    all its functions as modified, when it has any), whereas
    [FilterFunctions] with no name keeps none. *)
Theorem empty_filter_keeps_all : forall host path fa,
  git.isGoSource path = true ->
  parser.ParseFile host path = Ok (Some fa, None) ->
  parser.FileAnalysis.Functions fa <> [] ->
  let cf := analyzer.mkChangedFileAnalysis path
              (map parser.FunctionInfo.Name (parser.FileAnalysis.Functions fa))
              (map (fun fn => analyzer.convertToModelFunction fn fa)
                   (parser.FileAnalysis.Functions fa))
              (Some fa) in
  analyzer.AnalyzeSpecificFunctions host [path] []
  = (targets <- analyzer.buildGenerationTargets [cf] ;;
     Ok (Some (analyzer.mkAnalysisResult [cf]
                 (len (parser.FileAnalysis.Functions fa))
                 (len (parser.FileAnalysis.Functions fa)) targets),
         None))
  /\ parser.FilterFunctions fa [] = [].
Proof.
  intros host path fa Hgo Hp Hne. cbn zeta. split.
  - unfold analyzer.AnalyzeSpecificFunctions. cbn [foldM].
    unfold analyzer.analyzeSpecificFile.
    unfold git.isGoSource in Hgo. apply andb_true_iff in Hgo as [H1 H2].
    apply negb_true_iff in H2. rewrite H1, H2, Hp. cbn [negb orb bind].
    change (len (@nil gostring) =? 0) with true. cbn [orb].
    assert (F : forall l : list parser.FunctionInfo.t, filter (fun _ => true) l = l).
    { induction l as [|x l IH]; cbn [filter]; [reflexivity|now rewrite IH]. }
    rewrite F.
    destruct (parser.FileAnalysis.Functions fa) as [|fn fns] eqn:EF; [contradiction|].
    assert (L : (len (fn :: fns) =? 0) = false).
    { apply Z.eqb_neq. rewrite len_cons. pose proof (len_nonneg _ fns). lia. }
    rewrite L. cbn [bind].
    unfold analyzer.addChangedFile, analyzer.emptyResult, analyzer.withTargets.
    cbn [analyzer.ChangedFiles analyzer.TotalFunctions analyzer.ModifiedFunctions
         analyzer.GenerationTargets analyzer.FunctionDetails
         analyzer.cf_ModifiedFunctions app].
    unfold len. rewrite !length_map. reflexivity.
  - unfold parser.FilterFunctions. cbn [existsb]. clear.
    induction (parser.FileAnalysis.Functions fa) as [|x l IH]; cbn [filter];
      [reflexivity|exact IH].
Qed.

Lemma empty_filter_keeps_all_validateFile :
  exists fa r,
    parser.ParseFile (scenario.hostOf scenario.validateFile) (str "user/user.go")
    = Ok (Some fa, None)
    /\ analyzer.AnalyzeSpecificFunctions (scenario.hostOf scenario.validateFile)
         [str "user/user.go"] []
       = Ok (Some r, None)
    /\ map analyzer.cf_ModifiedFunctions (analyzer.ChangedFiles r)
       = [[str "ValidateUser"]]
    /\ map models.FunctionInfo.Name (analyzer.GenerationTargets r)
       = [str "ValidateUser"].
Proof.
  eexists. eexists.
  eassert (E : parser.ParseFile (scenario.hostOf scenario.validateFile)
                 (str "user/user.go") = Ok (Some _, None))
    by (vm_compute; reflexivity).
  split; [exact E|]. split; [|split].
  - rewrite (proj1 (empty_filter_keeps_all (scenario.hostOf scenario.validateFile)
                      (str "user/user.go") _ eq_refl E
                      ltac:(intro X; cbn in X; discriminate X))).
    vm_compute. reflexivity.
  - reflexivity.
  - reflexivity.
Defined.

(* ================================================================== *)
(** ** The skip patterns of the configuration *)
(* ================================================================== *)

Lemma Contains_empty : forall s, strings.Contains s [] = true.
Proof. intros [|c s]; reflexivity. Qed.

(** X25.  [ShouldIncludeFunction] reads a skip pattern as a substring,
    whatever [filepath.Match] says of it: a function whose name, in lower
    case, contains a skip pattern in lower case is never included (under
    the default patterns, no function with "main" or "init" anywhere in its
    name); and an empty skip pattern excludes every function. *)
Theorem ShouldIncludeFunction_substring_skip :
  (forall filepath_Match c funcName isExported complexity pattern,
     policy.asciiOnly funcName = true ->
     policy.asciiOnly pattern = true ->
     In pattern (config.SkipPatterns (config.Filtering c)) ->
     strings.Contains (strings.ToLower funcName) (strings.ToLower pattern) = true ->
     config.ShouldIncludeFunction filepath_Match c funcName isExported complexity
     = false)
  /\ (forall filepath_Match c funcName isExported complexity,
        policy.asciiOnly funcName = true ->
        In [] (config.SkipPatterns (config.Filtering c)) ->
        config.ShouldIncludeFunction filepath_Match c funcName isExported complexity
        = false).
Proof.
  assert (H : forall filepath_Match c funcName isExported complexity pattern,
             In pattern (config.SkipPatterns (config.Filtering c)) ->
             strings.Contains (strings.ToLower funcName) (strings.ToLower pattern)
             = true ->
             config.ShouldIncludeFunction filepath_Match c funcName isExported
               complexity = false).
  { intros filepath_Match c funcName isExported complexity pattern Hin Hc.
    unfold config.ShouldIncludeFunction.
    destruct (negb isExported && negb _); [reflexivity|].
    destruct (_ || _); [reflexivity|].
    apply negb_false_iff, existsb_exists. exists pattern. split; [exact Hin|].
    rewrite Hc. apply orb_true_r. }
  split.
  - intros filepath_Match c funcName isExported complexity pattern _ _. apply H.
  - intros filepath_Match c funcName isExported complexity _ Hin.
    apply (H _ _ _ _ _ [] Hin). apply Contains_empty.
Qed.

Lemma ShouldIncludeFunction_substring_skip_Initialize :
  config.ShouldIncludeFunction (fun _ _ => false) config.DefaultConfig
    (str "InitializeUser") true 3 = false.
Proof.
  apply (proj1 ShouldIncludeFunction_substring_skip (fun _ _ => false)
           config.DefaultConfig (str "InitializeUser") true 3 (str "init"));
    [reflexivity | reflexivity | right; now left | reflexivity].
Defined.

(* ================================================================== *)
(** ** The range of the command line *)
(* ================================================================== *)

Lemma Index_dots : forall a b,
  strings.Contains (a ++ str ".") (str "..") = false ->
  strings.Index (a ++ str ".." ++ b) (str "..") = len a.
Proof.
  induction a as [|c a IH]; intros b H.
  - destruct b; reflexivity.
  - unfold strings.Contains in H. apply Z.leb_gt in H.
    cbn [app] in H |- *. cbn [strings.Index] in H |- *.
    destruct (strings.HasPrefix (c :: a ++ str ".") (str "..")) eqn:E; [lia|].
    cbn zeta in H.
    destruct (strings.Index (a ++ str ".") (str "..") <? 0) eqn:L;
      [|apply Z.ltb_ge in L; lia].
    assert (E' : strings.HasPrefix (c :: a ++ str ".." ++ b) (str "..") = false).
    { destruct a as [|d a]; cbn [app str list_ascii_of_string strings.HasPrefix] in E |- *.
      - now rewrite andb_true_r in *.
      - exact E. }
    rewrite E'. cbn zeta. rewrite IH.
    + rewrite len_cons. pose proof (len_nonneg _ a).
      destruct (len a <? 0) eqn:L'; [apply Z.ltb_lt in L'; lia|reflexivity].
    + unfold strings.Contains. apply Z.leb_gt. apply Z.ltb_lt in L. exact L.
Qed.

Lemma split_at_absent : forall fuel s sep,
  strings.Contains s sep = false -> strings.split_at fuel s sep = [s].
Proof.
  intros [|fuel] s sep H; cbn [strings.split_at]; [reflexivity|].
  unfold strings.Contains in H. apply Z.leb_gt in H.
  apply Z.ltb_lt in H. now rewrite H.
Qed.

Lemma Split_dots : forall from to,
  strings.Contains (from ++ str ".") (str "..") = false ->
  strings.Contains to (str "..") = false ->
  strings.Split (from ++ str ".." ++ to) (str "..") = [from; to].
Proof.
  intros from to Hf Ht. unfold strings.Split.
  rewrite length_app. cbn [length app str list_ascii_of_string].
  rewrite Nat.add_succ_r. cbn [strings.split_at].
  pose proof (Index_dots from to Hf) as HI. cbn [str list_ascii_of_string app] in HI.
  rewrite HI. pose proof (len_nonneg _ from).
  destruct (len from <? 0) eqn:L; [apply Z.ltb_lt in L; lia|].
  change ("."%char :: "."%char :: to) with (str ".." ++ to).
  rewrite firstn_len_app. f_equal.
  unfold len. rewrite Nat2Z.id.
  assert (S : skipn (length from + 2) (from ++ str ".." ++ to) = to).
  { rewrite skipn_app.
    assert (Z : (length from + 2 - length from = 2)%nat) by lia.
    rewrite skipn_all2 by lia. rewrite Z. reflexivity. }
  change (length ["."%char; "."%char]) with 2%nat. rewrite S.
  now apply split_at_absent.
Qed.

(** X26.  [parseGitRange].  A flag "from..to" yields the two references
    when ".." occurs in it once ([from] holds no ".." and does not end with
    a dot, [to] holds no ".."), and the configuration is not read.  A flag
    without ".." (a single reference, say) is passed over without a word,
    like the empty flag: the range of the configuration is used, and
    "HEAD~1", "HEAD" when that holds no ".." either; with a nil
    configuration the function then faults. *)
Theorem parseGitRange_spec :
  (forall from to cfg,
     strings.Contains (from ++ str ".") (str "..") = false ->
     strings.Contains to (str "..") = false ->
     cmd.parseGitRange (from ++ str ".." ++ to) cfg = Ok (from, to))
  /\ (forall rangeFlag cfg,
        strings.Contains rangeFlag (str "..") = false ->
        cmd.parseGitRange rangeFlag cfg = cmd.parseGitRange [] cfg)
  /\ (forall rangeFlag defaultRange,
        strings.Contains rangeFlag (str "..") = false ->
        strings.Contains defaultRange (str "..") = false ->
        cmd.parseGitRange rangeFlag (Some defaultRange)
        = Ok (str "HEAD~1", str "HEAD"))
  /\ (forall rangeFlag,
        strings.Contains rangeFlag (str "..") = false ->
        cmd.parseGitRange rangeFlag None = Panic nilptr_msg).
Proof.
  assert (Flag : forall rangeFlag cfg,
             strings.Contains rangeFlag (str "..") = false ->
             cmd.parseGitRange rangeFlag cfg = cmd.parseGitRange [] cfg).
  { intros rangeFlag cfg H. unfold cmd.parseGitRange. cbn zeta.
    destruct (negb (streq rangeFlag [])); [|reflexivity].
    unfold strings.Split. now rewrite split_at_absent. }
  split; [|split; [|split]].
  - intros from to cfg Hf Ht. unfold cmd.parseGitRange. cbn zeta.
    assert (N : streq (from ++ str ".." ++ to) [] = false) by (now destruct from).
    rewrite N. cbn [negb]. now rewrite Split_dots.
  - exact Flag.
  - intros rangeFlag d Hr Hd. rewrite Flag by exact Hr.
    unfold cmd.parseGitRange. cbn [streq negb]. cbn zeta.
    unfold strings.Split. now rewrite split_at_absent.
  - intros rangeFlag Hr. rewrite Flag by exact Hr. reflexivity.
Qed.

Lemma parseGitRange_spec_three_dots :
  cmd.parseGitRange (str "main" ++ str ".." ++ str ".feature")
                    (Some (str "HEAD~2..HEAD"))
  = Ok (str "main", str ".feature").
Proof.
  apply (proj1 parseGitRange_spec (str "main") (str ".feature")
           (Some (str "HEAD~2..HEAD")));
    reflexivity.
Defined.

(* ================================================================== *)
(** ** The changed paths *)
(* ================================================================== *)

Lemma Index_none : forall c s, ~ In c s -> strings.Index s [c] = -1.
Proof.
  intros c. induction s as [|a s IH]; intros H; [reflexivity|].
  cbn [strings.Index strings.HasPrefix].
  assert (Ha : Ascii.eqb a c = false).
  { apply Ascii.eqb_neq. intro E. apply H. now left. }
  rewrite Ha. cbn [andb]. cbn zeta. rewrite IH by (intro X; apply H; now right).
  reflexivity.
Qed.

Lemma Index_absent : forall c s, strings.Index s [c] < 0 -> ~ In c s.
Proof.
  intros c. induction s as [|a s IH]; intros H; [intros []|].
  cbn [strings.Index strings.HasPrefix] in H.
  destruct (Ascii.eqb a c) eqn:Ea; cbn [andb] in H; [lia|]. cbn zeta in H.
  destruct (strings.Index s [c] <? 0) eqn:L; [|apply Z.ltb_ge in L; lia].
  apply Z.ltb_lt in L. apply Ascii.eqb_neq in Ea.
  intros [X|X]; [now apply Ea|now apply IH].
Qed.

(** With enough cuts, no piece holds the separating byte. *)
Lemma split_at_pieces : forall c fuel s,
  (length s <= fuel)%nat ->
  Forall (fun piece => ~ In c piece) (strings.split_at fuel s [c]).
Proof.
  intros c. induction fuel as [|fuel IH]; intros s Hs; cbn [strings.split_at].
  - destruct s; [|cbn in Hs; lia]. constructor; [intros []|constructor].
  - destruct (strings.Index s [c] <? 0) eqn:L.
    + apply Z.ltb_lt in L. constructor; [now apply Index_absent|constructor].
    + apply Z.ltb_ge in L. constructor; [now apply Index_first|].
      apply IH. rewrite length_skipn.
      destruct (Index_bounds [c] s) as [B|B]; [lia|].
      change (len [c]) with 1 in B. unfold len in B. cbn [length]. lia.
Qed.

Lemma keep_nonempty : forall lines acc,
  fold_left (fun files line =>
               if negb (streq line []) then files ++ [line] else files) lines acc
  = acc ++ filter (fun line : gostring => negb (streq line [])) lines.
Proof.
  induction lines as [|l lines IH]; intros acc; cbn [fold_left filter].
  - now rewrite app_nil_r.
  - rewrite IH. destruct (negb (streq l [])); [|reflexivity].
    now rewrite <- app_assoc.
Qed.


Lemma not_existsb_In : forall c s,
  existsb (Ascii.eqb c) s = false -> ~ In c s.
Proof.
  intros c s H Hin.
  assert (X : existsb (Ascii.eqb c) s = true).
  { apply existsb_exists. exists c. split; [exact Hin|apply Ascii.eqb_refl]. }
  congruence.
Qed.

Lemma isPath_inv : forall name,
  git.isPath name = true -> name <> [] /\ ~ In bufio.newline name.
Proof.
  intros name H. unfold git.isPath in H. apply andb_true_iff in H as [H1 H2].
  apply negb_true_iff in H1, H2. split.
  - intros ->. discriminate.
  - now apply not_existsb_In.
Qed.

Lemma nameLines_joined : forall name names,
  git.nameLines (name :: names) = git.joined (name :: names) ++ [bufio.newline].
Proof.
  intros name names. revert name.
  induction names as [|m names IH]; intros name.
  - cbn. now rewrite app_nil_r.
  - change (git.nameLines (name :: m :: names))
      with ((name ++ [bufio.newline]) ++ git.nameLines (m :: names)).
    rewrite IH. cbn [git.joined]. now rewrite <- !app_assoc.
Qed.

Lemma split_joined : forall names fuel,
  names <> [] ->
  forallb git.isPath names = true ->
  (length (git.joined names) <= fuel)%nat ->
  strings.split_at fuel (git.joined names) [bufio.newline] = names.
Proof.
  induction names as [|name names IH]; intros fuel Hne Hp Hf; [contradiction|].
  cbn [forallb] in Hp. apply andb_true_iff in Hp as [Hn Hp].
  apply isPath_inv in Hn as [Hn1 Hn2].
  destruct names as [|m names].
  - cbn [git.joined]. apply split_at_absent. unfold strings.Contains.
    now rewrite Index_none.
  - change (git.joined (name :: m :: names))
      with (name ++ bufio.newline :: git.joined (m :: names)) in *.
    rewrite length_app in Hf. cbn [length] in Hf.
    destruct fuel as [|fuel]; [lia|]. cbn [strings.split_at].
    rewrite Index_byte by exact Hn2. pose proof (len_nonneg _ name).
    destruct (len name <? 0) eqn:L; [apply Z.ltb_lt in L; lia|].
    rewrite firstn_len_app.
    unfold len. rewrite Nat2Z.id. cbn [length].
    assert (S : skipn (length name + 1) (name ++ bufio.newline :: git.joined (m :: names))
                = git.joined (m :: names)).
    { rewrite skipn_app. rewrite skipn_all2 by lia.
      assert (Z : (length name + 1 - length name = 1)%nat) by lia. now rewrite Z. }
    rewrite S. rewrite (IH fuel); [reflexivity|discriminate|exact Hp|lia].
Qed.

(** Every space sequence is the line feed or holds none. *)
Lemma spaces_newline :
  forallb (fun e => streq e [bufio.newline]
                    || negb (existsb (Ascii.eqb bufio.newline) e))
          strings.space_encodings = true.
Proof. reflexivity. Qed.

Lemma prefix_before_newline : forall seqs s rest,
  forallb (fun e => streq e [bufio.newline]
                    || negb (existsb (Ascii.eqb bufio.newline) e)) seqs = true ->
  s <> [] ->
  existsb (strings.HasPrefix s) seqs = false ->
  existsb (strings.HasPrefix (s ++ bufio.newline :: rest)) seqs = false.
Proof.
  intros seqs s rest Hs Hne H.
  destruct (existsb (strings.HasPrefix (s ++ bufio.newline :: rest)) seqs) eqn:E;
    [|reflexivity].
  apply existsb_exists in E as (e & He & Hp).
  rewrite forallb_forall in Hs. specialize (Hs e He).
  assert (X : strings.HasPrefix s e = true).
  { apply orb_true_iff in Hs as [Hs|Hs].
    - apply streq_eq in Hs. subst e. destruct s as [|c s]; [contradiction|].
      exact Hp.
    - apply negb_true_iff in Hs.
      apply (HasPrefix_guard e s bufio.newline rest Hp). now apply not_existsb_In. }
  assert (Y : existsb (strings.HasPrefix s) seqs = true)
    by (apply existsb_exists; now exists e).
  congruence.
Qed.

Lemma spaces_newline_rev :
  forallb (fun e => streq e [bufio.newline]
                    || negb (existsb (Ascii.eqb bufio.newline) e))
          (map (@rev ascii) strings.space_encodings) = true.
Proof. reflexivity. Qed.

Lemma joined_head : forall name names,
  exists rest, git.joined (name :: names) ++ [bufio.newline]
               = name ++ bufio.newline :: rest.
Proof.
  intros name [|m names]; cbn [git.joined].
  - now exists [].
  - rewrite <- app_assoc. cbn [app]. now eexists.
Qed.

Lemma joined_snoc : forall init name,
  init <> [] ->
  git.joined (init ++ [name]) = git.joined init ++ bufio.newline :: name.
Proof.
  induction init as [|m init IH]; intros name Hne; [contradiction|].
  destruct init as [|x init].
  - reflexivity.
  - change (git.joined ((m :: x :: init) ++ [name]))
      with (m ++ bufio.newline :: git.joined ((x :: init) ++ [name])).
    rewrite IH by discriminate. cbn [git.joined]. now rewrite <- app_assoc.
Qed.

Lemma joined_suffix : forall names,
  names <> [] ->
  last names [] <> [] ->
  existsb (strings.HasSuffix (last names [])) strings.space_encodings = false ->
  existsb (strings.HasSuffix (git.joined names)) strings.space_encodings = false.
Proof.
  intros names Hne Hl H.
  rewrite (app_removelast_last [] Hne). set (name := last names []) in *.
  destruct (removelast names) as [|m init] eqn:Ei; [exact H|].
  rewrite joined_snoc by discriminate.
  unfold strings.HasSuffix in *.
  rewrite <- (existsb_map _ _ (@rev ascii) (strings.HasPrefix (rev _))) in *.
  rewrite rev_app_distr. cbn [rev]. rewrite <- app_assoc. cbn [app].
  apply prefix_before_newline; [exact spaces_newline_rev| |exact H].
  intros X. apply Hl. apply (f_equal (@rev ascii)) in X.
  now rewrite rev_involutive in X.
Qed.

Lemma trim_right_newline : forall s,
  existsb (strings.HasSuffix s) strings.space_encodings = false ->
  strings.trim_right strings.space_encodings (s ++ [bufio.newline]) = s.
Proof.
  intros s H. unfold strings.trim_right.
  rewrite rev_app_distr, length_app, Nat.add_comm. cbn [rev app length Nat.add].
  cbn [strings.strip_front].
  change (find (strings.HasPrefix (bufio.newline :: rev s))
               (map (@rev ascii) strings.space_encodings))
    with (Some [bufio.newline]).
  cbn [length skipn]. rewrite strip_front_fixed; [apply rev_involutive|].
  rewrite existsb_map. exact H.
Qed.

Lemma TrimSpace_nameLines : forall names,
  names <> [] ->
  forallb git.isPath names = true ->
  existsb (strings.HasPrefix (hd [] names)) strings.space_encodings = false ->
  existsb (strings.HasSuffix (last names [])) strings.space_encodings = false ->
  strings.TrimSpace (git.nameLines names) = git.joined names.
Proof.
  intros names Hne Hp Hh Hl. destruct names as [|name names]; [contradiction|].
  assert (Hlast : last (name :: names) [] <> []).
  { rewrite forallb_forall in Hp.
    assert (In (last (name :: names) []) (name :: names)).
    { rewrite (app_removelast_last [] Hne) at 2. apply in_or_app. right. now left. }
    now apply (isPath_inv _ (Hp _ H)). }
  rewrite nameLines_joined. unfold strings.TrimSpace.
  rewrite trim_left_fixed.
  - apply trim_right_newline. now apply joined_suffix.
  - destruct (joined_head name names) as [rest ->]. cbn [hd] in Hh.
    apply prefix_before_newline; [exact spaces_newline| |exact Hh].
    cbn [forallb] in Hp. apply andb_true_iff in Hp as [Hn _].
    now apply (isPath_inv name).
Qed.

Lemma filter_paths : forall names,
  forallb git.isPath names = true ->
  filter (fun line : gostring => negb (streq line [])) names = names.
Proof.
  induction names as [|n names IH]; intros H; [reflexivity|].
  cbn [forallb] in H. apply andb_true_iff in H as [Hn H].
  cbn [filter]. unfold git.isPath in Hn. apply andb_true_iff in Hn as [Hn _].
  rewrite Hn. now rewrite IH.
Qed.

(** X27.  [GetChangedFiles].  When the command prints one path per line,
    the paths being paths (not empty, no line feed in them), the first not
    starting and the last not ending with white space, it returns exactly
    these paths, in their order.  Whatever the command prints, no path it
    returns is empty or holds a line feed.  When the command fails it
    returns no path and the error of the command, wrapped. *)
Theorem GetChangedFiles_paths :
  (forall git_diff_name_only from to names,
     git_diff_name_only from to = inl (git.nameLines names) ->
     forallb git.isPath names = true ->
     existsb (strings.HasPrefix (hd [] names)) strings.space_encodings = false ->
     existsb (strings.HasSuffix (last names [])) strings.space_encodings = false ->
     git.GetChangedFiles git_diff_name_only from to = (names, None))
  /\ (forall git_diff_name_only from to,
        Forall (fun path => path <> [] /\ ~ In bufio.newline path)
               (fst (git.GetChangedFiles git_diff_name_only from to)))
  /\ (forall git_diff_name_only from to err,
        git_diff_name_only from to = inr err ->
        git.GetChangedFiles git_diff_name_only from to
        = ([], Some (str "failed to get changed files: " ++ err))).
Proof.
  split; [|split].
  - intros run from to names Hrun Hp Hh Hl. unfold git.GetChangedFiles.
    rewrite Hrun, keep_nonempty. cbn [app]. f_equal.
    destruct names as [|name names]; [reflexivity|].
    rewrite TrimSpace_nameLines by (assumption || discriminate).
    unfold strings.Split. rewrite split_joined by (auto; discriminate).
    now apply filter_paths.
  - intros run from to. unfold git.GetChangedFiles.
    destruct (run from to) as [output|err]; [|constructor].
    cbn [fst]. rewrite keep_nonempty. cbn [app].
    apply Forall_forall. intros path Hpath.
    apply filter_In in Hpath as [Hin Hne]. split.
    + intros ->. discriminate.
    + pose proof (split_at_pieces bufio.newline
                    (length (strings.TrimSpace output)) (strings.TrimSpace output)
                    (Nat.le_refl _)) as HF.
      rewrite Forall_forall in HF. now apply HF.
  - intros run from to err Hrun. unfold git.GetChangedFiles. now rewrite Hrun.
Qed.

Lemma GetChangedFiles_paths_witness :
  git.GetChangedFiles
    (fun _ _ => inl (git.nameLines [str "internal/git/diff.go"; str "README.md"]))
    (str "HEAD~1") (str "HEAD")
  = ([str "internal/git/diff.go"; str "README.md"], None).
Proof.
  apply (proj1 GetChangedFiles_paths
           (fun _ _ => inl (git.nameLines [str "internal/git/diff.go"; str "README.md"]))
           (str "HEAD~1") (str "HEAD")
           [str "internal/git/diff.go"; str "README.md"]);
    reflexivity.
Defined.
